(** * The Avalonic Cornwell lead-intake server (server.js)

    A shallow embedding of the Express application of [src/server.js]
    and of its earlier variant [src/unnamed/part_000].

    Conventions of the model.
    - A JavaScript string is a [string]: each [ascii] stands for the
      UTF-16 code unit of the same number, so the model covers the
      strings whose code units are below 256.  The text of the leads
      file is modelled as the string [fs.readFileSync(_, 'utf8')]
      decodes it to.
    - A JavaScript value that can reach the server (from a body parser
      or from [JSON.parse]) is a [json]; [undefined] is [None] in
      [option json].  Numbers are the integers, printed as decimal
      numerals (as JavaScript prints them below 10^21): the server
      itself only ever produces [Date.now()] and file sizes.
      [JSON.parse] is modelled on that fragment: a text with a
      fraction, an exponent or a [\u] escape above 255 is not read.
      [JSON.valid] recognises the whole grammar, which tells a text
      that is no JSON from JSON beyond the fragment; [exact] marks the
      values whose numbers JavaScript holds exactly (up to [2^53 - 1]
      in magnitude), and [modelled] the states of the leads file on
      which the model reads what [JSON.parse] reads.
    - A JavaScript exception is a value of [exn]; a function that can
      throw returns a [result].
    - The clock, the disk, [console.error] and the mailer are fields of
      [World]; the route handlers are state-passing functions on it.
      An entry of [console] stands for one call of [console.error]:
      for a call of the application it is the text of the first
      argument; for the print of Express's default error handler it
      names the error (its name, and the code of a MulterError) in
      place of the stack trace.
      The upload directory itself is not part of the world: of an
      upload the model keeps the entry multer puts into [req.files].
    - A request comes as Express hands it to a route: with the route
      chosen, the body parsed ([express.json], [express.urlencoded],
      multer), and the credentials [basicAuth(req)] finds.  The
      headers [cors()] adds are left out.
    - multer and Express's default error handler are modelled as far as
      the routes rely on them: the limits of [upload], and status 500
      for an error that carries no status of its own, which the
      handler prints to the console. *)

From Stdlib Require Import ZArith List Bool Ascii String Lia Decimal DecimalString.
From Stdlib Require DecimalZ.
Import ListNotations.

Local Open Scope string_scope.
Local Open Scope Z_scope.

(** ** JavaScript values *)

Unset Elimination Schemes.
Inductive json : Type :=
| JNull
| JBool (b : bool)
| JNum (n : Z)
| JStr (s : string)
| JArr (elems : list json)
| JObj (members : list (string * json)).
Set Elimination Schemes.

(** A possibly-[undefined] value. *)
Definition value := option json.

Inductive exn : Type :=
| TypeError
| SyntaxError
| IOError
| Error (message : string)
| MulterError (code : string).

Inductive result (A : Type) : Type :=
| Ok (a : A)
| Throw (e : exn).
Arguments Ok {A} a.
Arguments Throw {A} e.

Definition rbind {A B} (r : result A) (k : A -> result B) : result B :=
  match r with
  | Ok a => k a
  | Throw e => Throw e
  end.

Declare Scope result_scope.
Delimit Scope result_scope with result.
Notation "'let?' x := r 'in' k" := (rbind r (fun x => k))
  (at level 10, x name, r at level 100, k at level 200) : result_scope.

Module Js.

(** [String(n)] for an integer [n]. *)
Definition num_str (n : Z) : string := NilZero.string_of_int (Z.to_int n).

(** ToBoolean. *)
Definition truthy (v : value) : bool :=
  match v with
  | None => false
  | Some JNull => false
  | Some (JBool b) => b
  | Some (JNum n) => negb (n =? 0)
  | Some (JStr s) => negb (s =? "")%string
  | Some (JArr _) => true
  | Some (JObj _) => true
  end.

(** [a || b]. *)
Definition or (a b : value) : value := if truthy a then a else b.

(** Own data property of an object, as [JSON.parse] and the body
    parsers create them: the first binding of the key (keys are
    unique). *)
Fixpoint lookup (k : string) (m : list (string * json)) : value :=
  match m with
  | [] => None
  | (k', v) :: m' => if (k =? k')%string then Some v else lookup k m'
  end.

(** [v.k] for a key [k] that names no built-in property (the server
    reads only such keys: company, name, files, path, ...).  Reading a
    property of [null] or [undefined] throws; a primitive or an array
    has no such property. *)
Definition get (v : value) (k : string) : result value :=
  match v with
  | None => Throw TypeError
  | Some JNull => Throw TypeError
  | Some (JObj m) => Ok (lookup k m)
  | Some _ => Ok None
  end.

(** ToString, as used by ['' + v], by template literals and by
    [Array.prototype.join].  A plain object prints as
    [[object Object]], unless an own (hence non-callable) [toString]
    member shadows the inherited method, in which case the conversion
    throws.  [join] prints [null] and [undefined] elements as the
    empty string. *)
Fixpoint to_string (v : json) : result string :=
  match v with
  | JNull => Ok "null"
  | JBool true => Ok "true"
  | JBool false => Ok "false"
  | JNum n => Ok (num_str n)
  | JStr s => Ok s
  | JArr l =>
      (fix join (l : list json) : result string :=
         match l with
         | [] => Ok ""
         | x :: l' =>
             let elem := match x with JNull => Ok "" | _ => to_string x end in
             match l' with
             | [] => elem
             | _ :: _ =>
                 (let? a := elem in let? b := join l' in Ok (a ++ "," ++ b))%result
             end
         end) l
  | JObj m =>
      match lookup "toString" m with
      | Some _ => Throw TypeError
      | None => Ok "[object Object]"
      end
  end.

Definition String (v : value) : result string :=
  match v with
  | None => Ok "undefined"
  | Some j => to_string j
  end.

(** [l.join(sep)] *)
Fixpoint join (sep : string) (l : list value) : result string :=
  match l with
  | [] => Ok ""
  | x :: l' =>
      let elem :=
        match x with
        | None => Ok ""
        | Some JNull => Ok ""
        | Some j => to_string j
        end in
      match l' with
      | [] => elem
      | _ :: _ => (let? a := elem in let? b := join sep l' in Ok (a ++ sep ++ b))%result
      end
  end.

(** [v.length] *)
Definition length (v : json) : result value :=
  match v with
  | JNull => Throw TypeError
  | JArr l => Ok (Some (JNum (Z.of_nat (List.length l))))
  | JStr s => Ok (Some (JNum (Z.of_nat (String.length s))))
  | JObj m => Ok (lookup "length" m)
  | _ => Ok None
  end.

(** The values [for (const x of v)] runs through: the elements of an
    array, the characters of a string; nothing else here is
    iterable. *)
Definition iterate (v : json) : result (list json) :=
  match v with
  | JArr l => Ok l
  | JStr s => Ok (map (fun c => JStr (String.String c "")) (list_ascii_of_string s))
  | _ => Throw TypeError
  end.

(** ToPrimitive *)
Definition to_primitive (v : value) : result value :=
  match v with
  | Some (JArr l) => (let? s := to_string (JArr l) in Ok (Some (JStr s)))%result
  | Some (JObj m) => (let? s := to_string (JObj m) in Ok (Some (JStr s)))%result
  | _ => Ok v
  end.

End Js.

(** [l.map(f)] for an [f] that can throw. *)
Fixpoint map_result {A B} (f : A -> result B) (l : list A) : result (list B) :=
  match l with
  | [] => Ok []
  | x :: l' => (let? y := f x in let? ys := map_result f l' in Ok (y :: ys))%result
  end.

(** ** Upload storage (multer.diskStorage) *)

Definition in_range (lo hi c : ascii) : bool :=
  (N_of_ascii lo <=? N_of_ascii c)%N && (N_of_ascii c <=? N_of_ascii hi)%N.

(** The character class [[a-zA-Z0-9.\-_]]. *)
Definition safe_char (c : ascii) : bool :=
  in_range "a" "z" c || in_range "A" "Z" c || in_range "0" "9" c
  || (c =? ".")%char || (c =? "-")%char || (c =? "_")%char.

(** [s.replace(/re/g, f)] for a one-character class [re]. *)
Fixpoint replace_chars (cls : ascii -> bool) (f : ascii -> string) (s : string) : string :=
  match s with
  | EmptyString => EmptyString
  | String c s' => (if cls c then f c else String c EmptyString) ++ replace_chars cls f s'
  end.

(** [storage.filename]: [ts] is the reading of [Date.now()]. *)
Definition filename (ts : Z) (originalname : string) : string :=
  let safe := replace_chars (fun c => negb (safe_char c)) (fun _ => "_") originalname in
  Js.num_str ts ++ "_" ++ safe.

(** ** JSON text: [JSON.stringify(v, null, 2)] and [JSON.parse] *)

Module JSON.

Local Open Scope list_scope.

Definition chars := list ascii.
Definition lit (s : string) : chars := list_ascii_of_string s.

Definition newline : ascii := "010"%char.
Definition dquote : ascii := "034"%char.
Definition bslash : ascii := "092"%char.

(** *** Objects keep their keys in property order

    An object lists its integer-index keys first, in ascending
    order, then the other keys in the order of their creation;
    assigning to a key already present keeps its place. *)

Definition is_digit (c : ascii) : bool := in_range "0" "9" c.

Definition digit_val (c : ascii) : N := (N_of_ascii c - 48)%N.

Fixpoint digits_val (acc : N) (s : string) : option N :=
  match s with
  | EmptyString => Some acc
  | String c s' =>
      if is_digit c then digits_val (10 * acc + digit_val c)%N s' else None
  end.

(** The array index a key denotes, when it is the canonical decimal
    form of an integer below [2^32 - 1]. *)
Definition index_of (k : string) : option N :=
  match k with
  | EmptyString => None
  | String c k' =>
      if (c =? "0")%char then
        match k' with EmptyString => Some 0%N | _ => None end
      else
        match digits_val 0 k with
        | Some n => if (n <? 4294967295)%N then Some n else None
        | None => None
        end
  end.

(** [key_before a b]: a new key [a] is enumerated before an existing
    key [b]. *)
Definition key_before (a b : string) : bool :=
  match index_of a, index_of b with
  | Some i, Some j => (i <? j)%N
  | Some _, None => true
  | None, _ => false
  end.

Fixpoint obj_insert (k : string) (v : json) (m : list (string * json))
  : list (string * json) :=
  match m with
  | [] => [(k, v)]
  | (k', v') :: m' =>
      if key_before k k' then (k, v) :: m else (k', v') :: obj_insert k v m'
  end.

Fixpoint obj_replace (k : string) (v : json) (m : list (string * json))
  : list (string * json) :=
  match m with
  | [] => []
  | (k', v') :: m' =>
      if (k =? k')%string then (k', v) :: m' else (k', v') :: obj_replace k v m'
  end.

(** [m[k] = v] on a plain object. *)
Definition obj_set (m : list (string * json)) (kv : string * json)
  : list (string * json) :=
  match Js.lookup (fst kv) m with
  | Some _ => obj_replace (fst kv) (snd kv) m
  | None => obj_insert (fst kv) (snd kv) m
  end.

(** The object an object literal or a JSON text with these members, in
    this order, evaluates to. *)
Definition obj_of (members : list (string * json)) : list (string * json) :=
  fold_left obj_set members [].

(** *** Printing *)

Definition hex_digit (n : N) : ascii :=
  nth (N.to_nat n) (lit "0123456789abcdef") "0"%char.

(** QuoteJSONString, one code unit. *)
Definition quote_char (c : ascii) : chars :=
  if (c =? dquote)%char then [bslash; dquote]
  else if (c =? bslash)%char then [bslash; bslash]
  else if (c =? "008")%char then bslash :: lit "b"
  else if (c =? "012")%char then bslash :: lit "f"
  else if (c =? "010")%char then bslash :: lit "n"
  else if (c =? "013")%char then bslash :: lit "r"
  else if (c =? "009")%char then bslash :: lit "t"
  else if (N_of_ascii c <? 32)%N then
    bslash :: lit "u00"
      ++ [hex_digit (N_of_ascii c / 16); hex_digit (N_of_ascii c mod 16)]
  else [c].

Definition quote (s : string) : chars :=
  dquote :: flat_map quote_char (list_ascii_of_string s) ++ [dquote].

Fixpoint join (sep : chars) (parts : list chars) : chars :=
  match parts with
  | [] => []
  | [p] => p
  | p :: ps => p ++ sep ++ join sep ps
  end.

Definition gap : chars := lit "  ".

(** SerializeJSONProperty with a gap of two spaces; [ind] is the
    current indentation. *)
Fixpoint print (ind : chars) (v : json) : chars :=
  match v with
  | JNull => lit "null"
  | JBool true => lit "true"
  | JBool false => lit "false"
  | JNum n => lit (Js.num_str n)
  | JStr s => quote s
  | JArr [] => lit "[]"
  | JArr l =>
      let ind' := ind ++ gap in
      lit "[" ++ newline :: ind'
        ++ join ("," :: newline :: ind')%char (map (print ind') l)
        ++ newline :: ind ++ lit "]"
  | JObj [] => lit "{}"
  | JObj m =>
      let ind' := ind ++ gap in
      lit "{" ++ newline :: ind'
        ++ join ("," :: newline :: ind')%char
             (map (fun kv => quote (fst kv) ++ lit ": " ++ print ind' (snd kv)) m)
        ++ newline :: ind ++ lit "}"
  end.

Definition stringify (v : json) : string := string_of_list_ascii (print [] v).

(** *** Parsing *)

Definition is_ws (c : ascii) : bool :=
  (c =? " ")%char || (c =? "009")%char || (c =? "010")%char || (c =? "013")%char.

Fixpoint skip_ws (s : chars) : chars :=
  match s with
  | c :: s' => if is_ws c then skip_ws s' else s
  | [] => []
  end.

Fixpoint expect (p s : chars) : option chars :=
  match p, s with
  | [], _ => Some s
  | a :: p', b :: s' => if (a =? b)%char then expect p' s' else None
  | _ :: _, [] => None
  end.

Definition hex_val (c : ascii) : option N :=
  if is_digit c then Some (digit_val c)
  else if in_range "a" "f" c then Some (N_of_ascii c - 87)%N
  else if in_range "A" "F" c then Some (N_of_ascii c - 55)%N
  else None.

(** The code unit of [\uXXXX]; a code unit above 255 is outside the
    modelled alphabet. *)
Definition unicode_escape (a b c d : ascii) : option ascii :=
  match hex_val a, hex_val b, hex_val c, hex_val d with
  | Some x, Some y, Some z, Some w =>
      if ((x =? 0) && (y =? 0))%N then Some (ascii_of_N (16 * z + w)) else None
  | _, _, _, _ => None
  end.

Definition simple_escape (e : ascii) : option ascii :=
  if (e =? dquote)%char then Some dquote
  else if (e =? bslash)%char then Some bslash
  else if (e =? "/")%char then Some "/"%char
  else if (e =? "b")%char then Some "008"%char
  else if (e =? "f")%char then Some "012"%char
  else if (e =? "n")%char then Some "010"%char
  else if (e =? "r")%char then Some "013"%char
  else if (e =? "t")%char then Some "009"%char
  else None.

Definition cons_char (c : ascii) (r : option (string * chars)) : option (string * chars) :=
  match r with
  | Some (s, rest) => Some (String c s, rest)
  | None => None
  end.

(** A string, after its opening quote. *)
Fixpoint parse_string (s : chars) : option (string * chars) :=
  match s with
  | [] => None
  | c :: r =>
      if (c =? dquote)%char then Some (EmptyString, r)
      else if (c =? bslash)%char then
        match r with
        | [] => None
        | e :: r1 =>
            if (e =? "u")%char then
              match r1 with
              | h1 :: h2 :: h3 :: h4 :: r2 =>
                  match unicode_escape h1 h2 h3 h4 with
                  | Some u => cons_char u (parse_string r2)
                  | None => None
                  end
              | _ => None
              end
            else
              match simple_escape e with
              | Some u => cons_char u (parse_string r1)
              | None => None
              end
        end
      else if (N_of_ascii c <? 32)%N then None
      else cons_char c (parse_string r)
  end.

Definition digit_cons (c : ascii) (u : uint) : uint :=
  match digit_val c with
  | 0 => D0 u | 1 => D1 u | 2 => D2 u | 3 => D3 u | 4 => D4 u
  | 5 => D5 u | 6 => D6 u | 7 => D7 u | 8 => D8 u | _ => D9 u
  end%N.

(** The longest run of decimal digits. *)
Fixpoint digits (s : chars) : uint * chars :=
  match s with
  | c :: r =>
      if is_digit c then let (u, r') := digits r in (digit_cons c u, r')
      else (Nil, s)
  | [] => (Nil, [])
  end.

(** After the integer part; a fraction or an exponent is outside the
    modelled numbers. *)
Definition after_int (n : Z) (r : chars) : option (json * chars) :=
  match r with
  | c :: _ =>
      if ((c =? ".") || (c =? "e") || (c =? "E"))%char then None
      else Some (JNum n, r)
  | [] => Some (JNum n, r)
  end.

Definition parse_int (neg : bool) (s : chars) : option (json * chars) :=
  match s with
  | c :: r =>
      if (c =? "0")%char then after_int 0 r
      else if is_digit c then
        let (u, r') := digits s in
        after_int (if neg then - Z.of_uint u else Z.of_uint u) r'
      else None
  | [] => None
  end.

Definition parse_number (s : chars) : option (json * chars) :=
  match s with
  | c :: r => if (c =? "-")%char then parse_int true r else parse_int false s
  | [] => None
  end.

Definition with_rest {A B} (f : A -> B) (r : option (A * chars)) : option (B * chars) :=
  match r with
  | Some (a, rest) => Some (f a, rest)
  | None => None
  end.

Definition keyword (p : chars) (v : json) (s : chars) : option (json * chars) :=
  match expect p s with
  | Some r => Some (v, r)
  | None => None
  end.

(** Recursive descent; [fuel] bounds the depth of the calls. *)
Fixpoint parse_value (fuel : nat) (s : chars) : option (json * chars) :=
  match fuel with
  | O => None
  | S fuel =>
      match skip_ws s with
      | [] => None
      | c :: r =>
          if (c =? "n")%char then keyword (lit "ull") JNull r
          else if (c =? "t")%char then keyword (lit "rue") (JBool true) r
          else if (c =? "f")%char then keyword (lit "alse") (JBool false) r
          else if (c =? dquote)%char then with_rest JStr (parse_string r)
          else if (c =? "[")%char then
            match skip_ws r with
            | c' :: r' =>
                if (c' =? "]")%char then Some (JArr [], r')
                else with_rest JArr (parse_elems fuel r)
            | [] => None
            end
          else if (c =? "{")%char then
            match skip_ws r with
            | c' :: r' =>
                if (c' =? "}")%char then Some (JObj [], r')
                else with_rest (fun m => JObj (obj_of m)) (parse_members fuel r)
            | [] => None
            end
          else parse_number (c :: r)
      end
  end

with parse_elems (fuel : nat) (s : chars) : option (list json * chars) :=
  match fuel with
  | O => None
  | S fuel =>
      match parse_value fuel s with
      | None => None
      | Some (v, r) =>
          match skip_ws r with
          | c :: r' =>
              if (c =? ",")%char then with_rest (cons v) (parse_elems fuel r')
              else if (c =? "]")%char then Some ([v], r')
              else None
          | [] => None
          end
      end
  end

with parse_members (fuel : nat) (s : chars) : option (list (string * json) * chars) :=
  match fuel with
  | O => None
  | S fuel =>
      match skip_ws s with
      | c :: r =>
          if (c =? dquote)%char then
            match parse_string r with
            | None => None
            | Some (k, r1) =>
                match skip_ws r1 with
                | c1 :: r2 =>
                    if (c1 =? ":")%char then
                      match parse_value fuel r2 with
                      | None => None
                      | Some (v, r3) =>
                          match skip_ws r3 with
                          | c3 :: r4 =>
                              if (c3 =? ",")%char then
                                with_rest (cons (k, v)) (parse_members fuel r4)
                              else if (c3 =? "}")%char then Some ([(k, v)], r4)
                              else None
                          | [] => None
                          end
                      end
                    else None
                | [] => None
                end
            end
          else None
      | [] => None
      end
  end.

(** [JSON.parse] on the modelled fragment: one value, then only white
    space.  [Some v] says that the text is JSON and denotes [v].
    [None] says that the text is no JSON, for which [JSON.parse] throws
    its SyntaxError, or that it is JSON beyond the fragment (a number
    with a fraction or an exponent, a [\u] escape above 255), which
    [JSON.parse] reads and the model does not: [valid] below tells the
    two apart. *)
Definition parse (s : string) : option json :=
  let cs := list_ascii_of_string s in
  match parse_value (S (List.length cs)) cs with
  | Some (v, r) => match skip_ws r with [] => Some v | _ :: _ => None end
  | None => None
  end.

(** *** The JSON grammar

    [valid] recognises the texts of the JSON grammar, the texts for
    which [JSON.parse] returns a value: it passes over every number of
    the grammar (an integer part, then an optional fraction and an
    optional exponent) and over every [\u] escape. *)

Fixpoint skip_digits (s : chars) : chars :=
  match s with
  | c :: r => if is_digit c then skip_digits r else s
  | [] => []
  end.

(** One digit at least. *)
Definition scan_digits (s : chars) : option chars :=
  match s with
  | c :: r => if is_digit c then Some (skip_digits r) else None
  | [] => None
  end.

(** [0], or a digit other than [0] followed by digits. *)
Definition scan_int (s : chars) : option chars :=
  match s with
  | c :: r =>
      if (c =? "0")%char then Some r
      else if is_digit c then Some (skip_digits r)
      else None
  | [] => None
  end.

Definition scan_fraction (s : chars) : option chars :=
  match s with
  | c :: r => if (c =? ".")%char then scan_digits r else Some s
  | [] => Some s
  end.

Definition scan_exponent (s : chars) : option chars :=
  match s with
  | c :: r =>
      if ((c =? "e") || (c =? "E"))%char then
        match r with
        | c' :: r' =>
            if ((c' =? "+") || (c' =? "-"))%char then scan_digits r' else scan_digits r
        | [] => None
        end
      else Some s
  | [] => Some s
  end.

Definition scan_number (s : chars) : option chars :=
  let unsigned :=
    match s with
    | c :: r => if (c =? "-")%char then r else s
    | [] => s
    end in
  match scan_int unsigned with
  | Some r =>
      match scan_fraction r with
      | Some r' => scan_exponent r'
      | None => None
      end
  | None => None
  end.

(** A string, after its opening quote. *)
Fixpoint scan_string (s : chars) : option chars :=
  match s with
  | [] => None
  | c :: r =>
      if (c =? dquote)%char then Some r
      else if (c =? bslash)%char then
        match r with
        | [] => None
        | e :: r1 =>
            if (e =? "u")%char then
              match r1 with
              | h1 :: h2 :: h3 :: h4 :: r2 =>
                  match hex_val h1, hex_val h2, hex_val h3, hex_val h4 with
                  | Some _, Some _, Some _, Some _ => scan_string r2
                  | _, _, _, _ => None
                  end
              | _ => None
              end
            else
              match simple_escape e with
              | Some _ => scan_string r1
              | None => None
              end
        end
      else if (N_of_ascii c <? 32)%N then None
      else scan_string r
  end.

Fixpoint scan_value (fuel : nat) (s : chars) : option chars :=
  match fuel with
  | O => None
  | S fuel =>
      match skip_ws s with
      | [] => None
      | c :: r =>
          if (c =? "n")%char then expect (lit "ull") r
          else if (c =? "t")%char then expect (lit "rue") r
          else if (c =? "f")%char then expect (lit "alse") r
          else if (c =? dquote)%char then scan_string r
          else if (c =? "[")%char then
            match skip_ws r with
            | c' :: r' => if (c' =? "]")%char then Some r' else scan_elems fuel r
            | [] => None
            end
          else if (c =? "{")%char then
            match skip_ws r with
            | c' :: r' => if (c' =? "}")%char then Some r' else scan_members fuel r
            | [] => None
            end
          else scan_number (c :: r)
      end
  end

with scan_elems (fuel : nat) (s : chars) : option chars :=
  match fuel with
  | O => None
  | S fuel =>
      match scan_value fuel s with
      | None => None
      | Some r =>
          match skip_ws r with
          | c :: r' =>
              if (c =? ",")%char then scan_elems fuel r'
              else if (c =? "]")%char then Some r'
              else None
          | [] => None
          end
      end
  end

with scan_members (fuel : nat) (s : chars) : option chars :=
  match fuel with
  | O => None
  | S fuel =>
      match skip_ws s with
      | c :: r =>
          if (c =? dquote)%char then
            match scan_string r with
            | None => None
            | Some r1 =>
                match skip_ws r1 with
                | c1 :: r2 =>
                    if (c1 =? ":")%char then
                      match scan_value fuel r2 with
                      | None => None
                      | Some r3 =>
                          match skip_ws r3 with
                          | c3 :: r4 =>
                              if (c3 =? ",")%char then scan_members fuel r4
                              else if (c3 =? "}")%char then Some r4
                              else None
                          | [] => None
                          end
                      end
                    else None
                | [] => None
                end
            end
          else None
      | [] => None
      end
  end.

(** Whether the text is JSON: one value of the grammar, then only white
    space. *)
Definition valid (s : string) : bool :=
  let cs := list_ascii_of_string s in
  match scan_value (S (List.length cs)) cs with
  | Some r => match skip_ws r with [] => true | _ :: _ => false end
  | None => false
  end.

End JSON.

(** ** The world the server runs in *)

(** The leads file [LEADS_FILE] on disk. *)
Inductive node : Type :=
| Absent
| File (text : string)
| Unreadable.  (* present, but reading it raises *)

Record Mail : Type := mkMail {
  mail_from : string;
  mail_to : string;
  mail_subject : string;
  mail_text : string
}.

Record World : Type := mkWorld {
  leads_file : node;
  disk_ok : bool;          (* whether [fs.writeFileSync] succeeds *)
  clock : nat -> Z;        (* successive readings of the system clock, in ms *)
  ticks : nat;             (* how many readings were taken *)
  console : list string;   (* the lines of [console.error] *)
  outbox : list Mail       (* the calls of [transporter.sendMail] *)
}.

(** [process.env], and whether [require('nodemailer')] finds the
    module.  The SMTP port, security flag and credentials only
    configure the transport and are left out. *)
Record Env : Type := mkEnv {
  ADMIN_USER : option string;
  ADMIN_PASS : option string;
  NOTIFY_EMAIL : option string;
  SMTP_HOST : option string;
  SMTP_FROM : option string;
  nodemailer : bool;
  dirname : string         (* [__dirname] *)
}.

(** [process.env.X || d] *)
Definition env_or (x : option string) (d : string) : string :=
  match x with
  | Some s => if (s =? "")%string then d else s
  | None => d
  end.

Definition env_set (x : option string) : bool :=
  match x with
  | Some s => negb (s =? "")%string
  | None => false
  end.

(** The date formatting of the platform: [new Date(t).toISOString()]
    for a clock reading [t], and [new Date(v).toLocaleString()] for a
    primitive [v] read back from the store. *)
Class Locale : Type := {
  toISOString : Z -> string;
  toLocaleString : value -> string
}.

(** *** Computations that read and change the world, or throw *)

Definition M (A : Type) : Type := World -> result A * World.

Definition ret {A} (a : A) : M A := fun w => (Ok a, w).

Definition throw {A} (e : exn) : M A := fun w => (Throw e, w).

Definition bind {A B} (m : M A) (k : A -> M B) : M B :=
  fun w =>
    match m w with
    | (Ok a, w') => k a w'
    | (Throw e, w') => (Throw e, w')
    end.

Definition lift {A} (r : result A) : M A := fun w => (r, w).

(** [try { m } catch (e) { h e }] *)
Definition try_catch {A} (m : M A) (h : exn -> M A) : M A :=
  fun w =>
    match m w with
    | (Ok a, w') => (Ok a, w')
    | (Throw e, w') => h e w'
    end.

Declare Scope world_scope.
Delimit Scope world_scope with world.
Notation "x <- m ;; k" := (bind m (fun x => k))
  (at level 61, m at next level, right associativity) : world_scope.
Notation "m ;;; k" := (bind m (fun _ => k))
  (at level 61, right associativity) : world_scope.
Local Open Scope world_scope.

Definition Date_now : M Z :=
  fun w =>
    (Ok (clock w (ticks w)),
     mkWorld (leads_file w) (disk_ok w) (clock w) (S (ticks w)) (console w) (outbox w)).

Definition console_error (line : string) : M unit :=
  fun w =>
    (Ok tt,
     mkWorld (leads_file w) (disk_ok w) (clock w) (ticks w) (console w ++ [line]) (outbox w)).

Definition sendMail (m : Mail) : M unit :=
  fun w =>
    (Ok tt,
     mkWorld (leads_file w) (disk_ok w) (clock w) (ticks w) (console w) (outbox w ++ [m])).

(** [fs.existsSync(LEADS_FILE)] *)
Definition existsSync : M bool :=
  fun w => (Ok (match leads_file w with Absent => false | _ => true end), w).

(** [fs.readFileSync(LEADS_FILE, 'utf8')] *)
Definition readFileSync : M string :=
  fun w =>
    match leads_file w with
    | File text => (Ok text, w)
    | Absent => (Throw IOError, w)
    | Unreadable => (Throw IOError, w)
    end.

(** [fs.writeFileSync(LEADS_FILE, text)]; a failing write leaves the
    file as it was. *)
Definition writeFileSync (text : string) : M unit :=
  fun w =>
    if disk_ok w then
      (Ok tt, mkWorld (File text) (disk_ok w) (clock w) (ticks w) (console w) (outbox w))
    else (Throw IOError, w).

(** ** Leads persistence *)

Definition JSON_parse (text : string) : M json :=
  match JSON.parse text with
  | Some v => ret v
  | None => throw SyntaxError
  end.

Definition readLeads : M json :=
  try_catch
    (present <- existsSync ;;
     if negb present then ret (JArr [])
     else
       raw <- readFileSync ;;
       JSON_parse (if (raw =? "")%string then "[]" else raw))
    (fun e => console_error "readLeads error" ;;; ret (JArr [])).

(** [arr.unshift(lead)]: only an array has the method. *)
Definition unshift (arr : json) (lead : json) : result json :=
  match arr with
  | JArr l => Ok (JArr (lead :: l))
  | _ => Throw TypeError
  end.

(** ** Helpers *)

Definition html_special (c : ascii) : bool :=
  (c =? "&")%char || (c =? "<")%char || (c =? ">")%char
  || (c =? JSON.dquote)%char || (c =? "'")%char.

Definition html_entity (c : ascii) : string :=
  if (c =? "&")%char then "&amp;"
  else if (c =? "<")%char then "&lt;"
  else if (c =? ">")%char then "&gt;"
  else if (c =? JSON.dquote)%char then "&quot;"
  else "&#39;".

(** [escapeHtml(str = '')]: the default applies to [undefined] only. *)
Definition escapeHtml (str : value) : result string :=
  let str := match str with None => Some (JStr "") | Some _ => str end in
  (let? s := Js.String str in Ok (replace_chars html_special html_entity s))%result.

(** ** Requests and responses *)

(** The route Express selects for a request. *)
Inductive route : Type :=
| Health            (* GET /health *)
| Submit            (* POST /api/submit *)
| Uploads (path : string)  (* /uploads/..., served by express.static *)
| Admin             (* GET /admin *)
| Leads             (* GET /api/leads *)
| Other.

(** One file part of a multipart request. *)
Record Part : Type := mkPart {
  part_fieldname : string;
  part_originalname : string;
  part_mimetype : string;
  part_size : Z
}.

(** An entry of [req.files], as multer's disk storage fills it. *)
Record UploadedFile : Type := mkUploadedFile {
  file_fieldname : string;
  file_originalname : string;
  file_mimetype : string;
  file_size : Z;
  file_filename : string;
  file_path : string
}.

Record Request : Type := mkRequest {
  req_route : route;
  req_auth : option (string * string);  (* [basicAuth(req)]: name and pass *)
  req_body : value;                     (* [req.body], after the body parsers *)
  req_parts : list Part                 (* the file parts of a multipart body *)
}.

Inductive payload : Type :=
| Json (j : json)             (* [res.json(j)] *)
| Text (s : string)           (* [res.send(s)] *)
| ErrorPage (e : exn)         (* the page of Express's default error handler *)
| Static (path : string)      (* what [express.static] serves for the path *)
| NotFound.

Record Response : Type := mkResponse {
  status : Z;
  headers : list (string * string);  (* the headers the application sets itself *)
  body : payload
}.

Definition res_json (j : json) : Response := mkResponse 200 [] (Json j).

(** The console entry for what Express's default error handler prints
    of an error.  The handler prints the stack of the error; the entry
    names the error instead, by its name and, for a MulterError, its
    code: the message and the frames of the stack are not modelled. *)
Definition error_entry (e : exn) : string :=
  match e with
  | TypeError => "TypeError"
  | SyntaxError => "SyntaxError"
  | IOError => "Error"
  | Error message => "Error: " ++ message
  | MulterError code => "MulterError: " ++ code
  end.

(** Express's default error handler: it prints the error with
    [console.error] (as it does unless [NODE_ENV] is [test]), and an
    error without a [status] or [statusCode] member is answered with
    500. *)
Definition default_error_handler (e : exn) (w : World) : Response * World :=
  (mkResponse 500 [] (ErrorPage e),
   mkWorld (leads_file w) (disk_ok w) (clock w) (ticks w)
     (console w ++ [error_entry e]) (outbox w)).

(** Runs a route: an exception that escapes it reaches the default
    error handler. *)
Definition run_route (route : M Response) (w : World) : Response * World :=
  match route w with
  | (Ok res, w') => (res, w')
  | (Throw e, w') => default_error_handler e w'
  end.

(** Basic auth for the admin endpoints. *)
Definition requireAuth (env : Env) (req : Request) (next : M Response) : M Response :=
  let user := req_auth req in
  let adminUser := env_or (ADMIN_USER env) "admin" in
  let adminPass := env_or (ADMIN_PASS env) "password" in
  if match user with
     | None => true
     | Some (name, pass) =>
         negb (name =? adminUser)%string || negb (pass =? adminPass)%string
     end
  then
    ret (mkResponse 401
           [("WWW-Authenticate",
             "Basic realm=" ++ String JSON.dquote "Admin" ++ String JSON.dquote "")]
           (Text "Authentication required."))
  else next.

(** ** Uploads *)

Definition UPLOAD_DIR (env : Env) : string := dirname env ++ "/uploads".

(** What multer's disk storage does with one file part: it asks
    [storage.filename] for a name and stores the part under it in
    [UPLOAD_DIR]. *)
Definition store (env : Env) (p : Part) : M UploadedFile :=
  ts <- Date_now ;;
  let name := filename ts (part_originalname p) in
  ret (mkUploadedFile (part_fieldname p) (part_originalname p) (part_mimetype p)
         (part_size p) name (UPLOAD_DIR env ++ "/" ++ name)).

(** [path.basename]: the last non-empty segment of a POSIX path. *)
Fixpoint basename_from (last cur : string) (p : string) : string :=
  match p with
  | EmptyString => if (cur =? "")%string then last else cur
  | String c p' =>
      if (c =? "/")%char then
        basename_from (if (cur =? "")%string then last else cur) "" p'
      else basename_from last (cur ++ String c "") p'
  end.

Definition basename (p : string) : string := basename_from "" "" p.

(** [path.join('uploads', b)] for a [b] without separator. *)
Definition join_uploads (b : string) : string :=
  if (b =? "")%string || (b =? ".")%string then "uploads"
  else if (b =? "..")%string then "."
  else "uploads/" ++ b.

(** The entry of [files] the submit handler builds for an upload. *)
Definition file_entry (f : UploadedFile) : json :=
  JObj
    [("path",
      JStr (replace_chars (fun c => (c =? JSON.bslash)%char) (fun _ => "/")
              (join_uploads (basename (file_path f)))));
     ("originalname", JStr (file_originalname f));
     ("mimetype", JStr (file_mimetype f));
     ("size", JNum (file_size f))].

(** ** The submission *)

(** [a || ''] as a member of the lead. *)
Definition or_empty (a : value) : json :=
  match Js.or a (Some (JStr "")) with
  | Some j => j
  | None => JStr ""
  end.

(** A line feed. *)
Definition nl : string := String JSON.newline "".

(** The optional notification.  The asynchronous function runs up to
    its call of [sendMail] before the handler goes on; nothing it
    throws leaves it. *)
Definition notify (env : Env) (lead : json) (files : list json) : M unit :=
  if env_set (NOTIFY_EMAIL env) && env_set (SMTP_HOST env) then
    try_catch
      (if nodemailer env then
         try_catch
           (let to := env_or (NOTIFY_EMAIL env) "" in
            let l := Some lead in
            subject <- lift
              (let? company := Js.get l "company" in
               let? contactName := Js.get l "contactName" in
               let? who := Js.String (Js.or (Js.or company contactName) (Some (JStr "Unknown"))) in
               Ok ("New funding request: " ++ who))%result ;;
            text <- lift
              (let? company := rbind (Js.get l "company") Js.String in
               let? contact := rbind (Js.get l "contactName") Js.String in
               let? email := rbind (Js.get l "email") Js.String in
               let? phone := rbind (Js.get l "phone") Js.String in
               let? amount := rbind (Js.get l "amount") Js.String in
               let? message := rbind (Js.get l "message") Js.String in
               let? names :=
                 rbind (map_result (fun f => Js.get (Some f) "originalname") files)
                   (Js.join ", ") in
               Ok ("New lead received:" ++ nl ++ nl ++ "Company: " ++ company ++ nl
                   ++ "Contact: " ++ contact ++ nl ++ "Email: " ++ email ++ nl
                   ++ "Phone: " ++ phone ++ nl ++ "Amount: " ++ amount ++ nl ++ nl
                   ++ "Message:" ++ nl ++ message ++ nl ++ nl ++ "Files:" ++ nl
                   ++ names))%result ;;
            sendMail (mkMail (env_or (SMTP_FROM env) to) to subject text))
           (fun e => console_error "Email notify failed")
       else throw (Error "Cannot find module 'nodemailer'"))
      (fun e => console_error "nodemailer missing or error")
  else ret tt.

(** [res.status(500).json({ ok: false, message: 'Server error' })] *)
Definition server_error : Response :=
  mkResponse 500 [] (Json (JObj [("ok", JBool false); ("message", JStr "Server error")])).

(** [res.json({ ok: true, id: lead.id })] *)
Definition submitted (lead : json) : M Response :=
  id <- lift (Js.get (Some lead) "id") ;;
  ret (res_json (JObj (("ok", JBool true)
                         :: match id with Some i => [("id", i)] | None => [] end))).

(** *** src/server.js *)

Module Server.

(** [limits: { fileSize: 10 * 1024 * 1024, files: 5 }] *)
Definition fileSize : Z := 10 * 1024 * 1024.
Definition files : nat := 5.

(** [upload.any()]: multer takes the file parts in the order of the
    body, under any field name; a part beyond [files] or a part
    longer than [fileSize] makes it pass a MulterError on, and the
    route handler is skipped. *)
Fixpoint upload_any (env : Env) (accepted : nat) (parts : list Part)
  : M (list UploadedFile) :=
  match parts with
  | [] => ret []
  | p :: ps =>
      if (files <=? accepted)%nat then throw (MulterError "LIMIT_FILE_COUNT")
      else
        f <- store env p ;;
        if fileSize <? part_size p then throw (MulterError "LIMIT_FILE_SIZE")
        else fs <- upload_any env (S accepted) ps ;; ret (f :: fs)
  end.

Definition saveLead (lead : json) : M unit :=
  try_catch
    (arr <- readLeads ;;
     arr <- lift (unshift arr lead) ;;
     writeFileSync (JSON.stringify arr))
    (fun e => console_error "saveLead error").

(** The object literal [lead] of the handler. *)
Definition mk_lead `{Locale} (id t : Z) (body : value) (files : list json)
  : result json :=
  (let? company := Js.get body "company" in
   let? name := Js.get body "name" in
   let? contactName :=
     (if Js.truthy name then Ok name else Js.get body "contactName") in
   let? phone := Js.get body "phone" in
   let? email := Js.get body "email" in
   let? amount := Js.get body "amount" in
   let? sector := Js.get body "sector" in
   let? message := Js.get body "message" in
   Ok (JObj
         [("id", JNum id);
          ("receivedAt", JStr (toISOString t));
          ("company", or_empty company);
          ("contactName", or_empty contactName);
          ("phone", or_empty phone);
          ("email", or_empty email);
          ("amount", or_empty amount);
          ("sector", or_empty sector);
          ("message", or_empty message);
          ("files", JArr files)]))%result.

(** The handler of [POST /api/submit]; [uploaded] is [req.files]. *)
Definition submit `{Locale} (env : Env) (req : Request) (uploaded : list UploadedFile)
  : M Response :=
  try_catch
    (let body := Js.or (req_body req) (Some (JObj [])) in
     let files := map file_entry uploaded in
     id <- Date_now ;;
     t <- Date_now ;;
     lead <- lift (mk_lead id t body files) ;;
     saveLead lead ;;;
     notify env lead files ;;;
     submitted lead)
    (fun err => console_error "submit error" ;;; ret server_error).

End Server.

(** *** src/unnamed/part_000, where it differs *)

Module Part000.

(** [limits: { fileSize: 10 * 1024 * 1024 }] *)
Definition fileSize : Z := 10 * 1024 * 1024.

(** [upload.array('statements', 5)]: multer refuses a file part under
    another field name, and a sixth part under [statements]. *)
Fixpoint upload_array (env : Env) (filesLeft : nat) (parts : list Part) {struct parts}
  : M (list UploadedFile) :=
  match parts with
  | [] => ret []
  | p :: ps =>
      if negb (part_fieldname p =? "statements")%string
      then throw (MulterError "LIMIT_UNEXPECTED_FILE")
      else
        match filesLeft with
        | O => throw (MulterError "LIMIT_UNEXPECTED_FILE")
        | S remaining =>
            f <- store env p ;;
            if fileSize <? part_size p then throw (MulterError "LIMIT_FILE_SIZE")
            else fs <- upload_array env remaining ps ;; ret (f :: fs)
        end
  end.

Definition saveLead (lead : json) : M unit :=
  arr <- readLeads ;;
  arr <- lift (unshift arr lead) ;;
  writeFileSync (JSON.stringify arr).

Definition mk_lead `{Locale} (id t : Z) (body : value) (files : list json)
  : result json :=
  (let? company := Js.get body "company" in
   let? name := Js.get body "name" in
   let? phone := Js.get body "phone" in
   let? email := Js.get body "email" in
   let? amount := Js.get body "amount" in
   let? sector := Js.get body "sector" in
   let? message := Js.get body "message" in
   Ok (JObj
         [("id", JNum id);
          ("receivedAt", JStr (toISOString t));
          ("company", or_empty company);
          ("contactName", or_empty name);
          ("phone", or_empty phone);
          ("email", or_empty email);
          ("amount", or_empty amount);
          ("sector", or_empty sector);
          ("message", or_empty message);
          ("files", JArr files)]))%result.

(** The optional notification, as in src/server.js but for the line it
    logs when nodemailer is missing. *)
Definition notify (env : Env) (lead : json) (files : list json) : M unit :=
  if env_set (NOTIFY_EMAIL env) && env_set (SMTP_HOST env) then
    try_catch
      (if nodemailer env then
         try_catch
           (let to := env_or (NOTIFY_EMAIL env) "" in
            let l := Some lead in
            subject <- lift
              (let? company := Js.get l "company" in
               let? contactName := Js.get l "contactName" in
               let? who := Js.String (Js.or (Js.or company contactName) (Some (JStr "Unknown"))) in
               Ok ("New funding request: " ++ who))%result ;;
            text <- lift
              (let? company := rbind (Js.get l "company") Js.String in
               let? contact := rbind (Js.get l "contactName") Js.String in
               let? email := rbind (Js.get l "email") Js.String in
               let? phone := rbind (Js.get l "phone") Js.String in
               let? amount := rbind (Js.get l "amount") Js.String in
               let? message := rbind (Js.get l "message") Js.String in
               let? names :=
                 rbind (map_result (fun f => Js.get (Some f) "originalname") files)
                   (Js.join ", ") in
               Ok ("New lead received:" ++ nl ++ nl ++ "Company: " ++ company ++ nl
                   ++ "Contact: " ++ contact ++ nl ++ "Email: " ++ email ++ nl
                   ++ "Phone: " ++ phone ++ nl ++ "Amount: " ++ amount ++ nl ++ nl
                   ++ "Message:" ++ nl ++ message ++ nl ++ nl ++ "Files:" ++ nl
                   ++ names))%result ;;
            sendMail (mkMail (env_or (SMTP_FROM env) to) to subject text))
           (fun e => console_error "Email notify failed")
       else throw (Error "Cannot find module 'nodemailer'"))
      (fun e => console_error "nodemailer not installed or error")
  else ret tt.

Definition submit `{Locale} (env : Env) (req : Request) (uploaded : list UploadedFile)
  : M Response :=
  try_catch
    (let body := Js.or (req_body req) (Some (JObj [])) in
     let files := map file_entry uploaded in
     id <- Date_now ;;
     t <- Date_now ;;
     lead <- lift (mk_lead id t body files) ;;
     saveLead lead ;;;
     notify env lead files ;;;
     submitted lead)
    (fun err => console_error "submit error" ;;; ret server_error).

End Part000.

(** ** Admin views *)

(** [s] between double quotes. *)
Definition q (s : string) : string :=
  String JSON.dquote s ++ String JSON.dquote "".

(** The page up to the rows of the table; [n] is [leads.length]. *)
Definition page_head (n : string) : string :=
  "<!doctype html><html><head><meta charset=" ++ q "utf-8" ++ "><title>Avalonic Admin</title>"
  ++ nl ++ "  <meta name=" ++ q "viewport" ++ " content="
  ++ q "width=device-width,initial-scale=1" ++ " />" ++ nl
  ++ "  <style>body{font-family:Arial,Helvetica,sans-serif;color:#0b2545;padding:18px}table{width:100%;border-collapse:collapse}th,td{padding:8px;border-bottom:1px solid #eee;text-align:left}th{background:#f6fbff}a.file{display:inline-block;margin-right:6px;padding:4px;border:1px solid #eef6ff;border-radius:6px;text-decoration:none;color:#0b2545}</style>"
  ++ nl ++ "  </head><body><h1>Avalonic Cornwell Funding — Admin</h1><p>Total leads: "
  ++ n
  ++ "</p><table><thead><tr><th>Date</th><th>Company</th><th>Contact</th><th>Email</th><th>Phone</th><th>Amount</th><th>Files</th></tr></thead><tbody>".

Definition page_foot : string := "</tbody></table></body></html>".

(** One link of [filesHtml]. *)
Definition file_link (f : json) : result string :=
  (let? path := rbind (Js.get (Some f) "path") escapeHtml in
   let? originalname := rbind (Js.get (Some f) "originalname") escapeHtml in
   Ok ("<a class=" ++ q "file" ++ " href=" ++ String JSON.dquote "/" ++ path
       ++ String JSON.dquote " target=" ++ q "_blank" ++ ">" ++ originalname ++ "</a>"))%result.

(** [(l.files || []).map(...).join(' ')] *)
Definition filesHtml (l : json) : result string :=
  (let? files := Js.get (Some l) "files" in
   let? files :=
     (if Js.truthy files then
        match files with
        | Some (JArr fs) => Ok fs
        | _ => Throw TypeError
        end
      else Ok []) in
   let? links := map_result file_link files in
   Ok (String.concat " " links))%result.

(** [escapeHtml(new Date(v).toLocaleString())] *)
Definition date_cell `{Locale} (v : value) : result string :=
  (let? p := Js.to_primitive v in escapeHtml (Some (JStr (toLocaleString p))))%result.

Definition cell (l : json) (k : string) : result string :=
  rbind (Js.get (Some l) k) escapeHtml.

(** The table row of one lead. *)
Definition lead_row `{Locale} (l : json) : result string :=
  (let? files := filesHtml l in
   let? date := rbind (Js.get (Some l) "receivedAt") date_cell in
   let? company := cell l "company" in
   let? contactName := cell l "contactName" in
   let? email := cell l "email" in
   let? phone := cell l "phone" in
   let? amount := cell l "amount" in
   Ok ("<tr><td>" ++ date ++ "</td><td>" ++ company ++ "</td><td>" ++ contactName
       ++ "</td><td>" ++ email ++ "</td><td>" ++ phone ++ "</td><td>" ++ amount
       ++ "</td><td>" ++ files ++ "</td></tr>"))%result.

Definition render_admin `{Locale} (leads : json) : result string :=
  (let? n := rbind (Js.length leads) Js.String in
   let? ls := Js.iterate leads in
   let? rows := map_result lead_row ls in
   Ok (page_head n ++ String.concat "" rows ++ page_foot))%result.

(** The handler of [GET /admin]. *)
Definition admin `{Locale} : M Response :=
  leads <- readLeads ;;
  html <- lift (render_admin leads) ;;
  ret (mkResponse 200 [] (Text html)).

(** The handler of [GET /api/leads]; [res.json] leaves an [undefined]
    member out. *)
Definition api_leads : M Response :=
  leads <- readLeads ;;
  total <- lift (Js.length leads) ;;
  ret (res_json
         (JObj (("ok", JBool true)
                  :: match total with Some n => [("total", n)] | None => [] end
                  ++ [("leads", leads)]))).

(** ** The application *)

Definition health : M Response := ret (res_json (JObj [("ok", JBool true)])).

Definition static (path : string) : M Response := ret (mkResponse 200 [] (Static path)).

Definition not_found : M Response := ret (mkResponse 404 [] NotFound).

(** src/server.js *)
Definition app `{Locale} (env : Env) (req : Request) : World -> Response * World :=
  run_route
    match req_route req with
    | Health => health
    | Submit =>
        uploaded <- Server.upload_any env 0 (req_parts req) ;;
        Server.submit env req uploaded
    | Uploads path => static path
    | Admin => requireAuth env req admin
    | Leads => requireAuth env req api_leads
    | Other => not_found
    end.

(** src/unnamed/part_000 *)
Definition app000 `{Locale} (env : Env) (req : Request) : World -> Response * World :=
  run_route
    match req_route req with
    | Health => health
    | Submit =>
        uploaded <- Part000.upload_array env 5 (req_parts req) ;;
        Part000.submit env req uploaded
    | Uploads path => static path
    | Admin => requireAuth env req admin
    | Leads => requireAuth env req api_leads
    | Other => not_found
    end.

(** * Specification vocabulary *)

(** A date formatting for the concrete examples; the theorems hold for
    every [Locale]. *)
Definition example_locale : Locale :=
  {| toISOString := fun t => Js.num_str t;
     toLocaleString := fun _ => "Invalid Date" |}.

(** ** Upload names *)

(** C2 in the words of the specification: the characters outside the
    class are stripped from the original name. *)
Fixpoint strip_unsafe (s : string) : string :=
  match s with
  | EmptyString => EmptyString
  | String c s' => if safe_char c then String c (strip_unsafe s') else strip_unsafe s'
  end.

Definition spec_filename (ts : Z) (originalname : string) : string :=
  Js.num_str ts ++ "_" ++ strip_unsafe originalname.

(** What becomes of a character of the original name. *)
Definition underscore_unsafe (c : ascii) : ascii :=
  if safe_char c then c else "_"%char.

(** ** Basic auth *)

(** The answer of [requireAuth] to a request it turns away. *)
Definition unauthorized : Response :=
  mkResponse 401
    [("WWW-Authenticate", "Basic realm=" ++ q "Admin")]
    (Text "Authentication required.").

(** The credentials of the request are absent, or its name or its
    pass is not the configured one. *)
Definition bad_credentials (env : Env) (req : Request) : Prop :=
  req_auth req = None
  \/ exists name pass,
       req_auth req = Some (name, pass)
       /\ (name <> env_or (ADMIN_USER env) "admin"
           \/ pass <> env_or (ADMIN_PASS env) "password").

(** ** The leads file *)

(** What [readLeads] returns on a state of the leads file. *)
Definition stored (f : node) : json :=
  match f with
  | File raw =>
      match JSON.parse (if (raw =? "")%string then "[]" else raw) with
      | Some v => v
      | None => JArr []
      end
  | Absent => JArr []
  | Unreadable => JArr []
  end.

(** [w'] is [w] up to console lines and mails. *)
Definition quiet (w w' : World) : Prop :=
  leads_file w' = leads_file w /\ disk_ok w' = disk_ok w
  /\ clock w' = clock w /\ ticks w' = ticks w.

(** ** Submissions *)

(** The body field [k] of a request body. *)
Definition field (body : value) (k : string) : value :=
  match body with
  | Some (JObj m) => Js.lookup k m
  | _ => None
  end.

(** The lead src/server.js builds from a body. *)
Definition lead_of_body `{Locale} (id t : Z) (body : value) (files : list json) : json :=
  JObj
    [("id", JNum id);
     ("receivedAt", JStr (toISOString t));
     ("company", or_empty (field body "company"));
     ("contactName", or_empty (Js.or (field body "name") (field body "contactName")));
     ("phone", or_empty (field body "phone"));
     ("email", or_empty (field body "email"));
     ("amount", or_empty (field body "amount"));
     ("sector", or_empty (field body "sector"));
     ("message", or_empty (field body "message"));
     ("files", JArr files)].

(** The lead src/unnamed/part_000 builds from a body. *)
Definition lead_of_body000 `{Locale} (id t : Z) (body : value) (files : list json) : json :=
  JObj
    [("id", JNum id);
     ("receivedAt", JStr (toISOString t));
     ("company", or_empty (field body "company"));
     ("contactName", or_empty (field body "name"));
     ("phone", or_empty (field body "phone"));
     ("email", or_empty (field body "email"));
     ("amount", or_empty (field body "amount"));
     ("sector", or_empty (field body "sector"));
     ("message", or_empty (field body "message"));
     ("files", JArr files)].

(** The leads file after [saveLead(lead)] went through. *)
Definition saved (lead : json) (f : node) : node :=
  match stored f with
  | JArr l => File (JSON.stringify (JArr (lead :: l)))
  | _ => f
  end.

(** The answer to an accepted submission. *)
Definition accepted (id : Z) : Response :=
  res_json (JObj [("ok", JBool true); ("id", JNum id)]).

(** [req.body || {}] *)
Definition body_of (req : Request) : value := Js.or (req_body req) (Some (JObj [])).

(** The world after one reading of the clock. *)
Definition tick (w : World) : World :=
  mkWorld (leads_file w) (disk_ok w) (clock w) (S (ticks w)) (console w) (outbox w).

(** The world after [n] readings of the clock. *)
Definition advance (n : nat) (w : World) : World :=
  mkWorld (leads_file w) (disk_ok w) (clock w) (n + ticks w) (console w) (outbox w).

(** A part longer than the [fileSize] limit. *)
Definition too_big (p : Part) : Prop := Server.fileSize < part_size p.

(** C6 in the words of the specification: the known field [k] of the
    lead is the body field [k], or the empty string when the body has
    none. *)
Definition spec_lead_field (body : value) (k : string) : json :=
  match field body k with
  | Some v => v
  | None => JStr ""
  end.

(** The world after the requests [reqs] were served, one after the
    other. *)
Fixpoint serve `{Locale} (env : Env) (reqs : list Request) (w : World) : World :=
  match reqs with
  | [] => w
  | req :: reqs' => serve env reqs' (snd (app env req w))
  end.

(** The credentials [requireAuth] lets through. *)
Definition admin_login (env : Env) : option (string * string) :=
  Some (env_or (ADMIN_USER env) "admin", env_or (ADMIN_PASS env) "password").

(** The answer of [GET /api/leads] for a store that holds [leads]. *)
Definition listing (leads : list json) : Response :=
  res_json (JObj [("ok", JBool true);
                  ("total", JNum (Z.of_nat (List.length leads)));
                  ("leads", JArr leads)]).

(** ** The admin page *)

(** The characters that delimit tags and attribute values. *)
Definition markup_char (c : ascii) : bool :=
  (c =? "<")%char || (c =? ">")%char || (c =? JSON.dquote)%char || (c =? "'")%char.

(** The markup characters of a text, in order. *)
Fixpoint markup_of (s : string) : string :=
  match s with
  | EmptyString => EmptyString
  | String c s' => if markup_char c then String c (markup_of s') else markup_of s'
  end.

(** [s.startsWith(p)] *)
Fixpoint starts_with (p s : string) : bool :=
  match p with
  | EmptyString => true
  | String a p' =>
      match s with
      | String b s' => (a =? b)%char && starts_with p' s'
      | EmptyString => false
      end
  end.

(** A text without markup characters, in which every ampersand starts
    one of the five entities. *)
Fixpoint well_escaped (s : string) : bool :=
  match s with
  | EmptyString => true
  | String c s' =>
      if (c =? "&")%char then
        (starts_with "amp;" s' || starts_with "lt;" s' || starts_with "gt;" s'
         || starts_with "quot;" s' || starts_with "#39;" s') && well_escaped s'
      else negb (markup_char c) && well_escaped s'
  end.

(** The cells of one table row: the texts put between the tags. *)
Record Row : Type := mkRow {
  row_date : string;
  row_company : string;
  row_contactName : string;
  row_email : string;
  row_phone : string;
  row_amount : string;
  row_links : list (string * string)   (* path and originalname of each file *)
}.

(** The link of [file_link], with its two texts. *)
Definition link_html (l : string * string) : string :=
  "<a class=" ++ q "file" ++ " href=" ++ String JSON.dquote "/" ++ fst l
  ++ String JSON.dquote " target=" ++ q "_blank" ++ ">" ++ snd l ++ "</a>".

(** The row of [lead_row], with its cells. *)
Definition row_html (r : Row) : string :=
  "<tr><td>" ++ row_date r ++ "</td><td>" ++ row_company r ++ "</td><td>"
  ++ row_contactName r ++ "</td><td>" ++ row_email r ++ "</td><td>" ++ row_phone r
  ++ "</td><td>" ++ row_amount r ++ "</td><td>"
  ++ String.concat " " (map link_html (row_links r)) ++ "</td></tr>".

(** Every text of the row is well escaped. *)
Definition row_escaped (r : Row) : Prop :=
  well_escaped (row_date r) = true /\ well_escaped (row_company r) = true
  /\ well_escaped (row_contactName r) = true /\ well_escaped (row_email r) = true
  /\ well_escaped (row_phone r) = true /\ well_escaped (row_amount r) = true
  /\ Forall (fun l => well_escaped (fst l) = true /\ well_escaped (snd l) = true)
       (row_links r).

(** The cells of [r] are what [escapeHtml] makes of the members of the
    lead [l]. *)
Definition row_of_lead `{Locale} (l : json) (r : Row) : Prop :=
  rbind (Js.get (Some l) "receivedAt") date_cell = Ok (row_date r)
  /\ cell l "company" = Ok (row_company r)
  /\ cell l "contactName" = Ok (row_contactName r)
  /\ cell l "email" = Ok (row_email r)
  /\ cell l "phone" = Ok (row_phone r)
  /\ cell l "amount" = Ok (row_amount r).

(** The row with the same number of links and nothing in its cells. *)
Definition blank (r : Row) : Row :=
  mkRow "" "" "" "" "" "" (map (fun _ => ("", "")) (row_links r)).

(** ** Values and their texts *)

(** The keys of an object, in the order it enumerates them. *)
Definition keys (m : list (string * json)) : list string := map fst m.

(** A list of keys in property order: no key twice, and none that
    would be enumerated before a key on its left. *)
Inductive in_order : list string -> Prop :=
| in_order_nil : in_order []
| in_order_cons (k : string) (ks : list string) :
    ~ In k ks ->
    Forall (fun k' => JSON.key_before k' k = false) ks ->
    in_order ks ->
    in_order (k :: ks).

(** The values of JavaScript among the terms of [json]: every object
    lists its members in property order. *)
Unset Elimination Schemes.
Inductive wf : json -> Prop :=
| wf_null : wf JNull
| wf_bool (b : bool) : wf (JBool b)
| wf_num (n : Z) : wf (JNum n)
| wf_str (s : string) : wf (JStr s)
| wf_arr (l : list json) : Forall wf l -> wf (JArr l)
| wf_obj (m : list (string * json)) :
    in_order (keys m) -> Forall (fun kv => wf (snd kv)) m -> wf (JObj m).
Set Elimination Schemes.

(** [undefined] is a value too. *)
Definition wf_value (v : value) : Prop :=
  match v with
  | Some j => wf j
  | None => True
  end.

(** The integers that a JavaScript number holds exactly and prints in
    full: those up to [2^53 - 1] in magnitude. *)
Definition safe_integer (n : Z) : bool := Z.abs n <=? 9007199254740991.

(** A value all of whose numbers are such integers: a value that
    JavaScript holds as the model does. *)
Fixpoint exact (v : json) : bool :=
  match v with
  | JNum n => safe_integer n
  | JArr l => forallb exact l
  | JObj m => forallb (fun kv => exact (snd kv)) m
  | _ => true
  end.

(** The states of the leads file on which the model reads what
    [JSON.parse] reads: no file, a file that cannot be read, an empty
    one, a text that is no JSON, or a JSON text of the modelled
    fragment whose numbers are exact. *)
Definition modelled (f : node) : bool :=
  match f with
  | File raw =>
      (raw =? "")%string
      || match JSON.parse raw with
         | Some v => exact v
         | None => negb (JSON.valid raw)
         end
  | _ => true
  end.

(** Induction on values, through arrays and objects. *)
Section JsonInduction.

Variable P : json -> Prop.
Hypothesis P_null : P JNull.
Hypothesis P_bool : forall b, P (JBool b).
Hypothesis P_num : forall n, P (JNum n).
Hypothesis P_str : forall s, P (JStr s).
Hypothesis P_arr : forall l, Forall P l -> P (JArr l).
Hypothesis P_obj : forall m, Forall (fun kv => P (snd kv)) m -> P (JObj m).

Fixpoint json_ind (v : json) : P v :=
  match v with
  | JNull => P_null
  | JBool b => P_bool b
  | JNum n => P_num n
  | JStr s => P_str s
  | JArr l =>
      P_arr l
        ((fix all (l : list json) : Forall P l :=
            match l with
            | [] => Forall_nil P
            | x :: l' => Forall_cons x (json_ind x) (all l')
            end) l)
  | JObj m =>
      P_obj m
        ((fix all (m : list (string * json)) : Forall (fun kv => P (snd kv)) m :=
            match m with
            | [] => Forall_nil _
            | kv :: m' => Forall_cons kv (json_ind (snd kv)) (all m')
            end) m)
  end.

End JsonInduction.

Section TextVocabulary.

Local Open Scope list_scope.
Local Open Scope nat_scope.
Import JSON.

(** The fuel that reading a value back takes. *)
Fixpoint size (v : json) : nat :=
  match v with
  | JArr l => S (list_sum (map (fun x => S (size x)) l))
  | JObj m => S (list_sum (map (fun kv => S (size (snd kv))) m))
  | _ => 1
  end.

(** What may follow a value in a text. *)
Definition delimited (rest : chars) : Prop :=
  match rest with
  | [] => True
  | c :: _ => c = ","%char \/ c = newline
  end.

(** The text of the elements of an array, or of the members of an
    object, up to and including the closing bracket. *)
Fixpoint items_text (sep close : chars) (parts : list chars) : chars :=
  match parts with
  | [] => close
  | [p] => p ++ close
  | p :: ps => p ++ sep ++ items_text sep close ps
  end.

(** A text that starts with the first character of a value. *)
Definition starts_value (s : chars) : Prop :=
  match s with
  | c :: _ =>
      is_ws c = false /\ (c =? "]")%char = false /\ (c =? "}")%char = false
  | [] => False
  end.

(** [v] is read back from its text, whatever its indentation and
    whatever delimiter follows, with fuel for its size. *)
Definition reads_back (v : json) : Prop :=
  forall (ind rest : chars) (fuel : nat),
    forallb is_ws ind = true -> delimited rest -> size v <= fuel ->
    parse_value fuel (print ind v ++ rest) = Some (v, rest).

End TextVocabulary.

(** ** Stored uploads *)

(** [s] with [f] applied to each of its characters. *)
Fixpoint map_chars (f : ascii -> ascii) (s : string) : string :=
  match s with
  | EmptyString => EmptyString
  | String c s' => String (f c) (map_chars f s')
  end.

(** Every character of [s] is in the class [cls]. *)
Fixpoint all_chars (cls : ascii -> bool) (s : string) : bool :=
  match s with
  | EmptyString => true
  | String c s' => cls c && all_chars cls s'
  end.

(** The characters of a decimal numeral. *)
Definition numeral_char (c : ascii) : bool := JSON.is_digit c || (c =? "-")%char.

(** The member of [files] that stands for a part stored at the clock
    reading [ts]. *)
Definition stored_file (ts : Z) (p : Part) : json :=
  JObj
    [("path",
      JStr ("uploads/" ++ Js.num_str ts ++ "_"
            ++ map_chars underscore_unsafe (part_originalname p)));
     ("originalname", JStr (part_originalname p));
     ("mimetype", JStr (part_mimetype p));
     ("size", JNum (part_size p))].

(** The members of [files] for the parts [parts], the first of which
    is stored at the reading number [k] of the clock. *)
Fixpoint stored_files (clock : nat -> Z) (k : nat) (parts : list Part) : list json :=
  match parts with
  | [] => []
  | p :: ps => stored_file (clock k) p :: stored_files clock (S k) ps
  end.

(** ** Escaped texts *)

(** What a browser reads in an escaped text: each of the five entities
    stands for its character.  [skip] counts the characters of an
    entity that are still to pass over. *)
Fixpoint unescape (skip : nat) (s : string) : string :=
  match s with
  | EmptyString => EmptyString
  | String c s' =>
      match skip with
      | S k => unescape k s'
      | O =>
          if (c =? "&")%char then
            if starts_with "amp;" s' then String "&" (unescape 4 s')
            else if starts_with "lt;" s' then String "<" (unescape 3 s')
            else if starts_with "gt;" s' then String ">" (unescape 3 s')
            else if starts_with "quot;" s' then String JSON.dquote (unescape 5 s')
            else if starts_with "#39;" s' then String "'" (unescape 4 s')
            else String c (unescape 0 s')
          else String c (unescape 0 s')
      end
  end.

Definition unescapeHtml (s : string) : string := unescape 0 s.

(** ** The console and the mailer *)

(** The world after the lines [lines] were logged. *)
Definition logged (lines : list string) (w : World) : World :=
  mkWorld (leads_file w) (disk_ok w) (clock w) (ticks w) (console w ++ lines) (outbox w).

(** What [readLeads] logs on a state of the leads file: one line when
    the file is there and cannot be read or parsed. *)
Definition read_log (f : node) : list string :=
  match f with
  | Absent => []
  | Unreadable => ["readLeads error"]
  | File raw =>
      match JSON.parse (if (raw =? "")%string then "[]" else raw) with
      | Some _ => []
      | None => ["readLeads error"]
      end
  end.

(** What [saveLead] of src/server.js logs: the line of [readLeads], and
    a line of its own when the lead was not written. *)
Definition save_log (w : World) : list string :=
  (read_log (leads_file w)
   ++ match stored (leads_file w) with
      | JArr _ => if disk_ok w then [] else ["saveLead error"]
      | _ => ["saveLead error"]
      end)%list.

(** A form whose fields are texts, as the body parsers make it of
    fields without brackets in their names. *)
Definition plain_form (body : value) : bool :=
  match body with
  | Some (JObj m) =>
      forallb (fun kv => match snd kv with JStr _ => true | _ => false end) m
  | _ => false
  end.

(** The text of a field, the empty string when there is none. *)
Definition text_of (v : value) : string :=
  match v with
  | Some (JStr s) => s
  | _ => ""
  end.

(** [a || b] on texts. *)
Definition first_text (a b : string) : string := if (a =? "")%string then b else a.

(** The world after [sendMail] was called with [m]. *)
Definition mailed (m : Mail) (w : World) : World :=
  mkWorld (leads_file w) (disk_ok w) (clock w) (ticks w) (console w) (outbox w ++ [m]).

(** Whether the notification is switched on. *)
Definition notifying (env : Env) : bool :=
  env_set (NOTIFY_EMAIL env) && env_set (SMTP_HOST env).

(** The message of the notification for a form [body] sent with the
    file parts [parts]. *)
Definition notification (env : Env) (body : value) (parts : list Part) : Mail :=
  let company := text_of (field body "company") in
  let contact :=
    first_text (text_of (field body "name")) (text_of (field body "contactName")) in
  let to := env_or (NOTIFY_EMAIL env) "" in
  mkMail (env_or (SMTP_FROM env) to) to
    ("New funding request: " ++ first_text company (first_text contact "Unknown"))
    ("New lead received:" ++ nl ++ nl ++ "Company: " ++ company ++ nl
     ++ "Contact: " ++ contact ++ nl ++ "Email: " ++ text_of (field body "email") ++ nl
     ++ "Phone: " ++ text_of (field body "phone") ++ nl
     ++ "Amount: " ++ text_of (field body "amount") ++ nl ++ nl
     ++ "Message:" ++ nl ++ text_of (field body "message") ++ nl ++ nl ++ "Files:" ++ nl
     ++ String.concat ", " (map part_originalname parts)).

(** ** Sequences of requests *)

(** Whether the request is a submission. *)
Definition is_submit (req : Request) : bool :=
  match req_route req with
  | Submit => true
  | _ => false
  end.

(** A submission that passes the upload limits and carries a body the
    parsers can have made. *)
Definition storable (req : Request) : Prop :=
  (List.length (req_parts req) <= Server.files)%nat
  /\ Forall (fun p => part_size p <= Server.fileSize) (req_parts req)
  /\ wf_value (req_body req).

(** ** The row of a submission *)




(** * Proofs *)

(** ** Property order of objects *)

Section PropertyOrder.

Local Open Scope list_scope.

Lemma key_before_irrefl (a : string) : JSON.key_before a a = false.
Proof.
  unfold JSON.key_before. destruct (JSON.index_of a); [apply N.ltb_irrefl | reflexivity].
Qed.

Lemma key_before_trans (a b c : string) :
  JSON.key_before a b = true -> JSON.key_before b c = true ->
  JSON.key_before a c = true.
Proof.
  unfold JSON.key_before.
  destruct (JSON.index_of a) as [i|], (JSON.index_of b) as [j|],
    (JSON.index_of c) as [k|]; try easy.
  rewrite !N.ltb_lt. lia.
Qed.

Lemma key_before_asym (a b : string) :
  JSON.key_before a b = true -> JSON.key_before b a = false.
Proof.
  intros H. destruct (JSON.key_before b a) eqn:E; [|reflexivity].
  pose proof (key_before_trans _ _ _ H E) as F.
  now rewrite key_before_irrefl in F.
Qed.

Lemma lookup_None_keys (k : string) (m : list (string * json)) :
  Js.lookup k m = None <-> ~ In k (keys m).
Proof.
  induction m as [|[k' v] m IH]; simpl.
  - tauto.
  - destruct (String.eqb_spec k k') as [->|Hne].
    + split; [discriminate | intros H; exfalso; apply H; now left].
    + rewrite IH. split; [intros H [E|I]; [congruence | tauto] | tauto].
Qed.

Lemma keys_obj_replace (k : string) (v : json) (m : list (string * json)) :
  keys (JSON.obj_replace k v m) = keys m.
Proof.
  induction m as [|[k' v'] m IH]; simpl; [reflexivity|].
  destruct (k =? k')%string; simpl; [reflexivity | now rewrite IH].
Qed.

Lemma keys_obj_insert (k : string) (v : json) (m : list (string * json)) (x : string) :
  In x (keys (JSON.obj_insert k v m)) <-> x = k \/ In x (keys m).
Proof.
  induction m as [|[k' v'] m IH]; simpl.
  - intuition.
  - destruct (JSON.key_before k k'); simpl; [intuition|].
    rewrite IH. intuition.
Qed.

Lemma in_order_obj_insert (k : string) (v : json) (m : list (string * json)) :
  ~ In k (keys m) -> in_order (keys m) -> in_order (keys (JSON.obj_insert k v m)).
Proof.
  induction m as [|[k' v'] m IH]; simpl; intros Hk Hm.
  - constructor; [easy | constructor | constructor].
  - inversion Hm as [|? ? Hnin Hall Hrest]; subst.
    destruct (JSON.key_before k k') eqn:E; simpl.
    + constructor; [exact Hk | | exact Hm].
      constructor; [now apply key_before_asym|].
      rewrite Forall_forall in Hall |- *. intros x Hx.
      destruct (JSON.key_before x k) eqn:F; [|reflexivity].
      specialize (Hall x Hx). now rewrite (key_before_trans _ _ _ F E) in Hall.
    + constructor.
      * rewrite keys_obj_insert. intros [->|Hin]; [apply Hk; now left | tauto].
      * rewrite Forall_forall in Hall |- *. intros x Hx.
        apply keys_obj_insert in Hx. destruct Hx as [->|Hx]; [exact E | now apply Hall].
      * apply IH; [tauto | exact Hrest].
Qed.

Lemma in_order_obj_set (m : list (string * json)) (kv : string * json) :
  in_order (keys m) -> in_order (keys (JSON.obj_set m kv)).
Proof.
  intros Hm. unfold JSON.obj_set.
  destruct (Js.lookup (fst kv) m) eqn:E.
  - now rewrite keys_obj_replace.
  - apply in_order_obj_insert; [now apply lookup_None_keys | exact Hm].
Qed.

Lemma in_order_fold (members acc : list (string * json)) :
  in_order (keys acc) -> in_order (keys (fold_left JSON.obj_set members acc)).
Proof.
  revert acc. induction members as [|kv members IH]; intros acc Hacc; simpl.
  - exact Hacc.
  - apply IH. now apply in_order_obj_set.
Qed.

Lemma in_order_obj_of (members : list (string * json)) :
  in_order (keys (JSON.obj_of members)).
Proof. apply in_order_fold. constructor. Qed.

Lemma in_order_app_inv (l1 : list string) (k : string) (l2 : list string) :
  in_order (l1 ++ k :: l2) ->
  ~ In k l1 /\ Forall (fun k' => JSON.key_before k k' = false) l1.
Proof.
  induction l1 as [|a l1 IH]; simpl; intros H.
  - split; [tauto | constructor].
  - inversion H as [|? ? Hnin Hall Hrest]; subst.
    destruct (IH Hrest) as [Hk Hl]. split.
    + intros [->|Hin]; [|tauto]. apply Hnin. apply in_or_app. right. now left.
    + constructor; [|exact Hl].
      rewrite Forall_forall in Hall. apply Hall. apply in_or_app. right. now left.
Qed.

Lemma obj_insert_last (k : string) (v : json) (m : list (string * json)) :
  Forall (fun k' => JSON.key_before k k' = false) (keys m) ->
  JSON.obj_insert k v m = m ++ [(k, v)].
Proof.
  induction m as [|[k' v'] m IH]; simpl; intros H; [reflexivity|].
  inversion H; subst. simpl in *.
  match goal with E : JSON.key_before k k' = false |- _ => rewrite E end.
  now rewrite IH.
Qed.

Lemma fold_obj_set_in_order (members acc : list (string * json)) :
  in_order (keys (acc ++ members)) ->
  fold_left JSON.obj_set members acc = acc ++ members.
Proof.
  revert acc. induction members as [|[k v] members IH]; intros acc H; simpl.
  - now rewrite app_nil_r.
  - unfold keys in H. rewrite map_app in H. simpl in H.
    destruct (in_order_app_inv _ _ _ H) as [Hk Hall].
    assert (E : JSON.obj_set acc (k, v) = acc ++ [(k, v)]).
    { unfold JSON.obj_set. simpl.
      apply lookup_None_keys in Hk. rewrite Hk. now apply obj_insert_last. }
    rewrite E, IH; rewrite <- app_assoc; [reflexivity|].
    unfold keys. rewrite map_app. exact H.
Qed.

(** An object in property order is the object its own members build. *)
Lemma obj_of_in_order (m : list (string * json)) :
  in_order (keys m) -> JSON.obj_of m = m.
Proof. intros H. unfold JSON.obj_of. now rewrite fold_obj_set_in_order. Qed.

Lemma obj_of_idempotent (m : list (string * json)) :
  JSON.obj_of (JSON.obj_of m) = JSON.obj_of m.
Proof. apply obj_of_in_order, in_order_obj_of. Qed.

End PropertyOrder.

(** ** JSON text round trip *)

Section RoundTrip.

Local Open Scope list_scope.
Local Open Scope nat_scope.
Import JSON.

Lemma skip_ws_app (ws s : chars) :
  forallb is_ws ws = true -> skip_ws (ws ++ s) = skip_ws s.
Proof.
  induction ws as [|c ws IH]; simpl; [reflexivity|].
  intros H. apply andb_prop in H. destruct H as [Hc Hws].
  rewrite Hc. now apply IH.
Qed.

Lemma parse_value_skip_ws (fuel : nat) (ws s : chars) :
  forallb is_ws ws = true -> parse_value fuel (ws ++ s) = parse_value fuel s.
Proof.
  intros H. destruct fuel; simpl; [reflexivity|]. now rewrite skip_ws_app.
Qed.

Lemma parse_string_cons (c : ascii) (r : chars) :
  parse_string (quote_char c ++ r) = cons_char c (parse_string r).
Proof.
  destruct c as [[] [] [] [] [] [] [] []]; reflexivity.
Qed.

Lemma parse_string_quote (s : string) (rest : chars) :
  parse_string (flat_map quote_char (list_ascii_of_string s) ++ dquote :: rest)
  = Some (s, rest).
Proof.
  induction s as [|c s IH]; simpl; [reflexivity|].
  rewrite <- app_assoc, parse_string_cons, IH. reflexivity.
Qed.

Lemma digits_print (u : uint) (rest : chars) :
  delimited rest ->
  digits (lit (NilEmpty.string_of_uint u) ++ rest) = (u, rest).
Proof.
  intros Hrest. unfold lit.
  induction u; simpl; try (rewrite IHu; reflexivity).
  destruct rest as [|c rest]; simpl; [reflexivity|].
  destruct Hrest as [-> | ->]; reflexivity.
Qed.

Lemma to_uint_head (p : positive) :
  match Pos.to_uint p with
  | Nil | D0 _ => False
  | _ => True
  end.
Proof.
  pose proof (DecimalPos.Unsigned.to_uint_nonzero p) as Hz.
  pose proof (DecimalPos.Unsigned.to_uint_nonnil p) as Hn.
  assert (E : Pos.to_uint p = unorm (Pos.to_uint p)).
  { rewrite <- DecimalPos.Unsigned.to_of, DecimalPos.Unsigned.of_to. reflexivity. }
  destruct (Pos.to_uint p) as [|d| | | | | | | | |] eqn:U; try exact I.
  - now apply Hn.
  - rewrite DecimalFacts.unorm_D0 in E. unfold unorm in E.
    pose proof (DecimalFacts.nzhead_nonzero d) as Hnz.
    destruct (nzhead d) as [|u| | | | | | | | |]; try discriminate E.
    + now apply Hz.
    + now apply (Hnz u).
Qed.

Lemma of_uint_to_uint (p : positive) : Z.of_uint (Pos.to_uint p) = Zpos p.
Proof. exact (DecimalZ.of_to (Zpos p)). Qed.

Lemma after_int_delimited (n : Z) (rest : chars) :
  delimited rest -> after_int n rest = Some (JNum n, rest).
Proof.
  destruct rest as [|c rest]; simpl; [reflexivity|].
  intros [-> | ->]; reflexivity.
Qed.

Lemma parse_int_print (neg : bool) (p : positive) (rest : chars) :
  delimited rest ->
  parse_int neg (lit (NilEmpty.string_of_uint (Pos.to_uint p)) ++ rest)
  = Some (JNum (if neg then Zneg p else Zpos p), rest).
Proof.
  intros Hrest.
  pose proof (to_uint_head p) as Hhead.
  pose proof (digits_print (Pos.to_uint p) rest Hrest) as Hd.
  pose proof (of_uint_to_uint p) as Hz.
  destruct (Pos.to_uint p) as [|u|u|u|u|u|u|u|u|u|u]; try contradiction;
    unfold parse_int; cbn [lit list_ascii_of_string NilEmpty.string_of_uint app];
    cbn [lit list_ascii_of_string NilEmpty.string_of_uint app] in Hd;
    rewrite Hd, Hz, after_int_delimited by exact Hrest;
    destruct neg; reflexivity.
Qed.

Lemma string_of_uint_nonnil (u : uint) :
  u <> Nil -> NilZero.string_of_uint u = NilEmpty.string_of_uint u.
Proof. destruct u; [congruence | reflexivity ..]. Qed.

Lemma parse_number_print (n : Z) (rest : chars) :
  delimited rest ->
  parse_number (lit (Js.num_str n) ++ rest) = Some (JNum n, rest).
Proof.
  intros Hrest. unfold Js.num_str.
  destruct n as [|p|p]; simpl.
  - now apply after_int_delimited.
  - rewrite string_of_uint_nonnil by apply DecimalPos.Unsigned.to_uint_nonnil.
    pose proof (parse_int_print false p rest Hrest) as H.
    pose proof (to_uint_head p) as Hhead.
    destruct (Pos.to_uint p); try contradiction; exact H.
  - rewrite string_of_uint_nonnil by apply DecimalPos.Unsigned.to_uint_nonnil.
    exact (parse_int_print true p rest Hrest).
Qed.

Lemma parse_value_number (fuel : nat) (n : Z) (rest : chars) :
  parse_value (S fuel) (lit (Js.num_str n) ++ rest)
  = parse_number (lit (Js.num_str n) ++ rest).
Proof.
  unfold Js.num_str.
  destruct n as [|p|p]; try reflexivity.
  simpl Z.to_int. unfold NilZero.string_of_int.
  rewrite string_of_uint_nonnil by apply DecimalPos.Unsigned.to_uint_nonnil.
  pose proof (DecimalPos.Unsigned.to_uint_nonnil p) as Hn.
  destruct (Pos.to_uint p); try congruence; reflexivity.
Qed.

Lemma join_items (sep close : chars) (p : chars) (ps : list chars) :
  join sep (p :: ps) ++ close = items_text sep close (p :: ps).
Proof.
  revert p. induction ps as [|p' ps IH]; intros p; [reflexivity|].
  change (join sep (p :: p' :: ps)) with (p ++ sep ++ join sep (p' :: ps)).
  change (items_text sep close (p :: p' :: ps))
    with (p ++ sep ++ items_text sep close (p' :: ps)).
  now rewrite <- !app_assoc, IH.
Qed.

Lemma num_str_head (n : Z) :
  exists c s, lit (Js.num_str n) = c :: s
              /\ is_ws c = false /\ (c =? "]")%char = false /\ (c =? "}")%char = false.
Proof.
  unfold Js.num_str. destruct n as [|p|p].
  - now exists "0"%char, [].
  - simpl. rewrite string_of_uint_nonnil by apply DecimalPos.Unsigned.to_uint_nonnil.
    pose proof (DecimalPos.Unsigned.to_uint_nonnil p) as Hn.
    destruct (Pos.to_uint p); try congruence; simpl; eexists _, _; now repeat split.
  - simpl. eexists _, _. now repeat split.
Qed.

Lemma print_starts_value (ind : chars) (v : json) (rest : chars) :
  starts_value (print ind v ++ rest).
Proof.
  destruct v as [|[]|n|s|[|x l]|[|kv m]]; try (simpl; now repeat split).
  destruct (num_str_head n) as (c & s & E & H1 & H2 & H3).
  simpl. rewrite E. simpl. now repeat split.
Qed.

Lemma skip_ws_starts_value (s : chars) :
  starts_value s -> skip_ws s = s.
Proof.
  destruct s as [|c s]; simpl; [tauto|]. now intros (-> & _).
Qed.

Lemma list_sum_cons (a : nat) (l : list nat) : list_sum (a :: l) = a + list_sum l.
Proof. reflexivity. Qed.

Lemma parse_elems_print (ind ind' rest : chars) (l : list json) :
  forallb is_ws ind = true -> forallb is_ws ind' = true ->
  Forall reads_back l ->
  forall (x : json) (fuel : nat),
    reads_back x ->
    list_sum (map (fun y => S (size y)) (x :: l)) <= fuel ->
    parse_elems fuel
      (newline :: ind'
         ++ items_text ("," :: newline :: ind')%char
              (newline :: ind ++ "]"%char :: rest)
              (map (print ind') (x :: l)))
    = Some (x :: l, rest).
Proof.
  intros Hind Hind' Hl. induction Hl as [|y l Hy Hl IH]; intros x fuel Hx Hfuel.
  - destruct fuel as [|fuel]; [simpl in Hfuel; lia|].
    cbn [map items_text]. cbn [parse_elems].
    change (newline :: ind' ++ print ind' x ++ newline :: ind ++ "]"%char :: rest)
      with ((newline :: ind') ++ print ind' x ++ newline :: ind ++ "]"%char :: rest).
    rewrite parse_value_skip_ws by (simpl; exact Hind').
    rewrite Hx; [| exact Hind' | simpl; now right | simpl in Hfuel; lia].
    change (newline :: ind ++ "]"%char :: rest)
      with ((newline :: ind) ++ "]"%char :: rest).
    rewrite skip_ws_app by (simpl; exact Hind). reflexivity.
  - destruct fuel as [|fuel]; [simpl in Hfuel; lia|].
    rewrite !map_cons, !list_sum_cons in Hfuel.
    change (map (print ind') (x :: y :: l))
      with (print ind' x :: map (print ind') (y :: l)).
    change (items_text ("," :: newline :: ind')%char
              (newline :: ind ++ "]"%char :: rest)
              (print ind' x :: map (print ind') (y :: l)))
      with (print ind' x ++ ("," :: newline :: ind')%char
              ++ items_text ("," :: newline :: ind')%char
                   (newline :: ind ++ "]"%char :: rest)
                   (map (print ind') (y :: l))).
    cbn [parse_elems].
    change (newline :: ind' ++ ?t) with ((newline :: ind') ++ t).
    rewrite parse_value_skip_ws by (simpl; exact Hind').
    rewrite Hx; [| exact Hind' | simpl; now left | lia].
    rewrite <- !app_comm_cons. cbn [skip_ws].
    change (is_ws ",") with false. cbv iota.
    change ("," =? ",")%char with true. cbv iota.
    rewrite (IH y fuel Hy); [reflexivity|].
    rewrite !map_cons, list_sum_cons. lia.
Qed.

Lemma member_text (k : string) (t : chars) :
  quote k ++ lit ": " ++ t
  = dquote :: flat_map quote_char (list_ascii_of_string k)
      ++ dquote :: ":"%char :: " "%char :: t.
Proof. unfold quote. simpl. now rewrite <- app_assoc. Qed.

Lemma parse_members_step (fuel : nat) (ws ind' : chars) (k : string) (v : json)
    (tail : chars) :
  forallb is_ws ws = true -> forallb is_ws ind' = true ->
  reads_back v -> size v <= fuel -> delimited tail ->
  parse_members (S fuel) (ws ++ quote k ++ lit ": " ++ print ind' v ++ tail)
  = match skip_ws tail with
    | c :: r =>
        if (c =? ",")%char then with_rest (cons (k, v)) (parse_members fuel r)
        else if (c =? "}")%char then Some ([(k, v)], r)
        else None
    | [] => None
    end.
Proof.
  intros Hws Hind' Hv Hfuel Htail.
  cbn [parse_members]. rewrite skip_ws_app by exact Hws.
  rewrite member_text. cbn [skip_ws].
  change (is_ws dquote) with false. cbv iota.
  change (dquote =? dquote)%char with true. cbv iota.
  rewrite parse_string_quote. cbn [skip_ws].
  change (is_ws ":") with false. cbv iota.
  change (":" =? ":")%char with true. cbv iota.
  change (" "%char :: print ind' v ++ tail) with ([" "%char] ++ print ind' v ++ tail).
  rewrite parse_value_skip_ws by reflexivity.
  rewrite Hv by assumption. reflexivity.
Qed.

Lemma parse_members_print (ind ind' rest : chars) (m : list (string * json)) :
  forallb is_ws ind = true -> forallb is_ws ind' = true ->
  Forall (fun kv => reads_back (snd kv)) m ->
  forall (kv : string * json) (fuel : nat),
    reads_back (snd kv) ->
    list_sum (map (fun kv => S (size (snd kv))) (kv :: m)) <= fuel ->
    parse_members fuel
      (newline :: ind'
         ++ items_text ("," :: newline :: ind')%char
              (newline :: ind ++ "}"%char :: rest)
              (map (fun kv => quote (fst kv) ++ lit ": " ++ print ind' (snd kv))
                 (kv :: m)))
    = Some (kv :: m, rest).
Proof.
  intros Hind Hind' Hm.
  induction Hm as [|kv' m Hkv' Hm IH]; intros [k v] fuel Hv Hfuel;
    (destruct fuel as [|fuel]; [simpl in Hfuel; lia|]);
    rewrite !map_cons, !list_sum_cons in Hfuel; cbn [fst snd] in *.
  - cbn [map items_text fst snd].
    change (newline :: ind' ++ ?t) with ((newline :: ind') ++ t).
    rewrite <- !app_assoc.
    rewrite parse_members_step;
      [| exact Hind' | exact Hind' | exact Hv | simpl in Hfuel; lia | simpl; now right].
    change (newline :: ind ++ "}"%char :: rest)
      with ((newline :: ind) ++ "}"%char :: rest).
    rewrite skip_ws_app by (simpl; exact Hind). reflexivity.
  - change (map ?f ((k, v) :: kv' :: m)) with (f (k, v) :: map f (kv' :: m)).
    cbn [fst snd].
    match goal with
    | |- context [items_text ?sep ?close (?p :: map ?f (kv' :: m))] =>
        change (items_text sep close (p :: map f (kv' :: m)))
          with (p ++ sep ++ items_text sep close (map f (kv' :: m)))
    end.
    change (newline :: ind' ++ ?t) with ((newline :: ind') ++ t).
    rewrite <- !app_assoc.
    rewrite parse_members_step;
      [| exact Hind' | exact Hind' | exact Hv | lia | simpl; now left].
    rewrite <- !app_comm_cons. cbn [skip_ws].
    change (is_ws ",") with false. cbv iota.
    change ("," =? ",")%char with true. cbv iota.
    rewrite (IH kv' fuel Hkv'); [reflexivity|].
    rewrite !map_cons, !list_sum_cons. lia.
Qed.

Lemma print_array_text (ind rest : chars) (x : json) (l : list json) :
  print ind (JArr (x :: l)) ++ rest
  = "["%char :: newline :: (ind ++ gap)
      ++ items_text ("," :: newline :: ind ++ gap)%char
           (newline :: ind ++ "]"%char :: rest)
           (map (print (ind ++ gap)) (x :: l)).
Proof.
  cbn [map]. rewrite <- join_items. cbn [print lit list_ascii_of_string map].
  repeat (rewrite <- app_assoc || rewrite <- app_comm_cons).
  reflexivity.
Qed.

Lemma print_object_text (ind rest : chars) (kv : string * json)
    (m : list (string * json)) :
  print ind (JObj (kv :: m)) ++ rest
  = "{"%char :: newline :: (ind ++ gap)
      ++ items_text ("," :: newline :: ind ++ gap)%char
           (newline :: ind ++ "}"%char :: rest)
           (map (fun kv => quote (fst kv) ++ lit ": " ++ print (ind ++ gap) (snd kv))
              (kv :: m)).
Proof.
  cbn [map]. rewrite <- join_items. cbn [print lit list_ascii_of_string map].
  repeat (rewrite <- app_assoc || rewrite <- app_comm_cons).
  reflexivity.
Qed.

Lemma items_text_starts_value (sep close : chars) (ind : chars) (v : json)
    (ps : list chars) :
  starts_value (items_text sep close (print ind v :: ps)).
Proof.
  destruct ps as [|p ps]; cbn [items_text]; apply print_starts_value.
Qed.

Lemma parse_value_open (fuel : nat) (ws t : chars) (c : ascii) :
  forallb is_ws ws = true -> starts_value t ->
  exists c' r', skip_ws (ws ++ t) = c' :: r' /\ t = c' :: r'
                /\ (c' =? "]")%char = false /\ (c' =? "}")%char = false.
Proof.
  intros Hws Ht. rewrite skip_ws_app by exact Hws.
  rewrite skip_ws_starts_value by exact Ht.
  destruct t as [|c' r']; [contradiction|].
  exists c', r'. destruct Ht as (_ & H1 & H2). now repeat split.
Qed.

Lemma forallb_ws_gap (ind : chars) :
  forallb is_ws ind = true -> forallb is_ws (ind ++ gap) = true.
Proof. intros H. rewrite forallb_app, H. reflexivity. Qed.

Lemma Forall_impl_wf (P : json -> Prop) (l : list json) :
  Forall (fun x => wf x -> P x) l -> Forall wf l -> Forall P l.
Proof.
  induction 1 as [|x l Hx Hl IH]; intros Hwf; constructor;
    inversion Hwf; subst; auto.
Qed.

Lemma Forall_impl_wf_snd (P : json -> Prop) (m : list (string * json)) :
  Forall (fun kv => wf (snd kv) -> P (snd kv)) m ->
  Forall (fun kv => wf (snd kv)) m -> Forall (fun kv => P (snd kv)) m.
Proof.
  induction 1 as [|x l Hx Hl IH]; intros Hwf; constructor;
    inversion Hwf; subst; auto.
Qed.

Lemma wf_reads_back (v : json) : wf v -> reads_back v.
Proof.
  induction v as [|b|n|s|l IH|m IH] using json_ind; intros Hwf ind rest fuel Hind Hrest Hfuel;
    (destruct fuel as [|fuel]; [simpl in Hfuel; lia|]).
  - reflexivity.
  - destruct b; reflexivity.
  - cbn [print]. rewrite parse_value_number. now apply parse_number_print.
  - cbn [print]. unfold quote. rewrite <- app_comm_cons, <- app_assoc.
    cbn [parse_value skip_ws app].
    change (is_ws dquote) with false. cbv iota.
    change (dquote =? "n")%char with false.
    change (dquote =? "t")%char with false.
    change (dquote =? "f")%char with false.
    change (dquote =? dquote)%char with true. cbv iota.
    change ([dquote] ++ rest) with (dquote :: rest).
    rewrite parse_string_quote. reflexivity.
  - inversion Hwf as [| | | |l' Hall|]; subst.
    pose proof (Forall_impl_wf _ _ IH Hall) as Hl.
    destruct l as [|x l]; [reflexivity|].
    inversion Hl as [|? ? Hx Hl']; subst.
    rewrite print_array_text. set (ind' := ind ++ gap).
    assert (Hind' : forallb is_ws ind' = true) by now apply forallb_ws_gap.
    cbn [parse_value skip_ws].
    change (is_ws "[") with false. cbv iota.
    change ("[" =? "n")%char with false.
    change ("[" =? "t")%char with false.
    change ("[" =? "f")%char with false.
    change ("[" =? dquote)%char with false.
    change ("[" =? "[")%char with true. cbv iota.
    change (newline :: ind' ++ ?t) with ((newline :: ind') ++ t).
    destruct (parse_value_open fuel (newline :: ind')
                (items_text ("," :: newline :: ind')%char
                   (newline :: ind ++ "]"%char :: rest)
                   (map (print ind') (x :: l))) "["%char)
      as (c' & r' & E1 & E2 & N1 & N2);
      [exact Hind' | apply items_text_starts_value |].
    rewrite E1, N1.
    change ((newline :: ind') ++ ?t) with (newline :: ind' ++ t).
    rewrite (parse_elems_print ind ind' rest l Hind Hind' Hl' x fuel Hx);
      [reflexivity | simpl in Hfuel |- *; lia].
  - inversion Hwf as [| | | | |m' Hord Hall]; subst.
    pose proof (Forall_impl_wf_snd _ _ IH Hall) as Hm.
    destruct m as [|kv m]; [reflexivity|].
    inversion Hm as [|? ? Hkv Hm']; subst.
    rewrite print_object_text. set (ind' := ind ++ gap).
    assert (Hind' : forallb is_ws ind' = true) by now apply forallb_ws_gap.
    cbn [parse_value skip_ws].
    change (is_ws "{") with false. cbv iota.
    change ("{" =? "n")%char with false.
    change ("{" =? "t")%char with false.
    change ("{" =? "f")%char with false.
    change ("{" =? dquote)%char with false.
    change ("{" =? "[")%char with false.
    change ("{" =? "{")%char with true. cbv iota.
    change (newline :: ind' ++ ?t) with ((newline :: ind') ++ t).
    assert (Hstart : starts_value
              (items_text ("," :: newline :: ind')%char
                 (newline :: ind ++ "}"%char :: rest)
                 (map (fun kv => quote (fst kv) ++ lit ": " ++ print ind' (snd kv))
                    (kv :: m)))).
    { destruct m; cbn [map items_text]; unfold quote; simpl; now repeat split. }
    destruct (parse_value_open fuel (newline :: ind') _ "{"%char Hind' Hstart)
      as (c' & r' & E1 & E2 & N1 & N2).
    rewrite E1, N2.
    change ((newline :: ind') ++ ?t) with (newline :: ind' ++ t).
    rewrite (parse_members_print ind ind' rest m Hind Hind' Hm' kv fuel Hkv);
      [| simpl in Hfuel |- *; lia].
    cbn [with_rest]. now rewrite obj_of_in_order.
Qed.

Lemma length_join (sep : chars) (p : chars) (ps : list chars) :
  1 <= List.length sep ->
  list_sum (map (fun p => S (List.length p)) (p :: ps)) <= S (List.length (join sep (p :: ps))).
Proof.
  intros Hsep. revert p. induction ps as [|p' ps IH]; intros p.
  - simpl. lia.
  - change (join sep (p :: p' :: ps)) with (p ++ sep ++ join sep (p' :: ps)).
    rewrite map_cons, list_sum_cons, !length_app. specialize (IH p'). unfold chars in *. lia.
Qed.

Lemma list_sum_le (A : Type) (f g : A -> nat) (l : list A) :
  Forall (fun x => f x <= g x) l -> list_sum (map f l) <= list_sum (map g l).
Proof.
  induction 1 as [|x l Hx Hl IH]; simpl; lia.
Qed.

Lemma size_le_print (v : json) (ind : chars) : size v <= List.length (print ind v).
Proof.
  revert ind. induction v as [|b|n|s|l IH|m IH] using json_ind; intros ind.
  - simpl. lia.
  - destruct b; simpl; lia.
  - destruct (num_str_head n) as (c & s & E & _). cbn [print size]. rewrite E. simpl. lia.
  - cbn [print size]. unfold quote. simpl. lia.
  - destruct l as [|x l]; [simpl; lia|].
    rewrite <- (app_nil_r (print ind (JArr (x :: l)))), print_array_text; cbn [map]; rewrite <- join_items.
    cbn [size List.length]. rewrite !length_app.
    pose proof (length_join ("," :: newline :: ind ++ gap)%char
                  (print (ind ++ gap) x) (map (print (ind ++ gap)) l)) as Hj.
    cbn [List.length] in Hj. specialize (Hj ltac:(lia)).
    change (print (ind ++ gap) x :: map (print (ind ++ gap)) l)
      with (map (print (ind ++ gap)) (x :: l)) in Hj.
    rewrite map_map in Hj.
    pose proof (list_sum_le _ (fun x => S (size x))
                  (fun x => S (List.length (print (ind ++ gap) x))) (x :: l)) as Hle.
    assert (Hall : Forall (fun x => S (size x) <= S (List.length (print (ind ++ gap) x))) (x :: l)).
    { eapply Forall_impl; [|exact IH]. intros a Ha. cbv beta. specialize (Ha (ind ++ gap)). lia. }
    specialize (Hle Hall). cbn [List.length]. unfold chars in *. cbn [map] in *. lia.
  - destruct m as [|kv m]; [simpl; lia|].
    rewrite <- (app_nil_r (print ind (JObj (kv :: m)))), print_object_text.
    set (f := fun kv : string * json =>
                quote (fst kv) ++ lit ": " ++ print (ind ++ gap) (snd kv)).
    cbn [map]; rewrite <- join_items.
    cbn [size List.length]. rewrite !length_app.
    pose proof (length_join ("," :: newline :: ind ++ gap)%char (f kv) (map f m)) as Hj.
    cbn [List.length] in Hj. specialize (Hj ltac:(lia)).
    change (f kv :: map f m) with (map f (kv :: m)) in Hj.
    rewrite map_map in Hj.
    pose proof (list_sum_le _ (fun kv => S (size (snd kv)))
                  (fun kv => S (List.length (f kv))) (kv :: m)) as Hle.
    assert (Hall : Forall (fun kv => S (size (snd kv)) <= S (List.length (f kv))) (kv :: m)).
    { eapply Forall_impl; [|exact IH]. intros a Ha. cbv beta.
      specialize (Ha (ind ++ gap)). unfold f. rewrite !length_app. lia. }
    specialize (Hle Hall). cbn [List.length]. unfold chars in *. cbn [map] in *. lia.
Qed.

(** Reading back what was written: [JSON.parse(JSON.stringify(v, null, 2))]
    is [v]. *)
Lemma parse_stringify (v : json) : wf v -> parse (stringify v) = Some v.
Proof.
  intros Hwf. unfold parse, stringify.
  rewrite list_ascii_of_string_of_list_ascii.
  rewrite <- (app_nil_r (print [] v)) at 2.
  rewrite (wf_reads_back v Hwf [] [] (S (List.length (print [] v))));
    [reflexivity | reflexivity | exact I |].
  pose proof (size_le_print v []). lia.
Qed.

Lemma stringify_nonempty (v : json) : (stringify v =? "")%string = false.
Proof.
  unfold stringify.
  pose proof (print_starts_value [] v []) as H. rewrite app_nil_r in H.
  destruct (print [] v); [contradiction | reflexivity].
Qed.

(** *** What [JSON.parse] returns is a value *)

Lemma Forall_obj_replace (P : json -> Prop) (k : string) (v : json)
    (m : list (string * json)) :
  P v -> Forall (fun kv => P (snd kv)) m ->
  Forall (fun kv => P (snd kv)) (obj_replace k v m).
Proof.
  intros Hv. induction 1 as [|[k' v'] m Hkv Hm IH]; simpl; [constructor|].
  destruct (k =? k')%string; constructor; auto.
Qed.

Lemma Forall_obj_insert (P : json -> Prop) (k : string) (v : json)
    (m : list (string * json)) :
  P v -> Forall (fun kv => P (snd kv)) m ->
  Forall (fun kv => P (snd kv)) (obj_insert k v m).
Proof.
  intros Hv. induction 1 as [|[k' v'] m Hkv Hm IH]; simpl.
  - constructor; [exact Hv | constructor].
  - destruct (key_before k k'); constructor; auto.
Qed.

Lemma Forall_obj_of (P : json -> Prop) (m : list (string * json)) :
  Forall (fun kv => P (snd kv)) m -> Forall (fun kv => P (snd kv)) (obj_of m).
Proof.
  unfold obj_of.
  assert (G : forall acc, Forall (fun kv => P (snd kv)) acc ->
                          Forall (fun kv => P (snd kv)) m ->
                          Forall (fun kv => P (snd kv)) (fold_left obj_set m acc)).
  { induction m as [|kv m IH]; intros acc Hacc Hm; simpl; [exact Hacc|].
    inversion Hm; subst. apply IH; [|assumption].
    unfold obj_set. destruct (Js.lookup (fst kv) acc).
    - now apply Forall_obj_replace.
    - now apply Forall_obj_insert. }
  intros Hm. apply G; [constructor | exact Hm].
Qed.

Lemma with_rest_Some {A B : Type} (f : A -> B) (r : option (A * chars)) (b : B)
    (rest : chars) :
  with_rest f r = Some (b, rest) -> exists a, r = Some (a, rest) /\ b = f a.
Proof.
  destruct r as [[a rest']|]; simpl; [|discriminate].
  intros [= <- <-]. now exists a.
Qed.

Lemma parse_number_wf (s : chars) (v : json) (r : chars) :
  parse_number s = Some (v, r) -> wf v.
Proof.
  assert (A : forall n t, after_int n t = Some (v, r) -> wf v).
  { intros n t. unfold after_int.
    destruct t as [|c t]; [|destruct ((c =? ".") || (c =? "e") || (c =? "E"))%char];
      intros [= <- <-] || discriminate; constructor. }
  assert (I : forall neg t, parse_int neg t = Some (v, r) -> wf v).
  { intros neg t. unfold parse_int. destruct t as [|c t]; [discriminate|].
    destruct (c =? "0")%char; [apply A|].
    destruct (is_digit c); [|discriminate].
    destruct (digits (c :: t)). apply A. }
  unfold parse_number. destruct s as [|c s]; [discriminate|].
  destruct (c =? "-")%char; apply I.
Qed.

Lemma parse_wf_fuel (fuel : nat) :
  (forall s v r, parse_value fuel s = Some (v, r) -> wf v)
  /\ (forall s l r, parse_elems fuel s = Some (l, r) -> Forall wf l)
  /\ (forall s m r, parse_members fuel s = Some (m, r) ->
                    Forall (fun kv => wf (snd kv)) m).
Proof.
  induction fuel as [|fuel (IHv & IHe & IHm)];
    [repeat split; intros; discriminate|].
  repeat split.
  - intros s v r. cbn [parse_value].
    destruct (skip_ws s) as [|c t]; [discriminate|].
    destruct (c =? "n")%char.
    { unfold keyword. destruct (expect _ _); intros [= <- <-] || discriminate. constructor. }
    destruct (c =? "t")%char.
    { unfold keyword. destruct (expect _ _); intros [= <- <-] || discriminate. constructor. }
    destruct (c =? "f")%char.
    { unfold keyword. destruct (expect _ _); intros [= <- <-] || discriminate. constructor. }
    destruct (c =? dquote)%char.
    { intros H. apply with_rest_Some in H. destruct H as (a & _ & ->). constructor. }
    destruct (c =? "[")%char.
    { destruct (skip_ws t) as [|c' t']; [discriminate|].
      destruct (c' =? "]")%char.
      - intros [= <- <-]. constructor. constructor.
      - intros H. apply with_rest_Some in H. destruct H as (a & H & ->).
        constructor. eapply IHe. exact H. }
    destruct (c =? "{")%char.
    { destruct (skip_ws t) as [|c' t']; [discriminate|].
      destruct (c' =? "}")%char.
      - intros [= <- <-]. constructor; constructor.
      - intros H. apply with_rest_Some in H. destruct H as (a & H & ->).
        constructor; [apply in_order_obj_of|].
        apply Forall_obj_of. eapply IHm. exact H. }
    apply parse_number_wf.
  - intros s l r. cbn [parse_elems].
    destruct (parse_value fuel s) as [[v t]|] eqn:Ev; [|discriminate].
    apply IHv in Ev.
    destruct (skip_ws t) as [|c t']; [discriminate|].
    destruct (c =? ",")%char.
    + intros H. apply with_rest_Some in H. destruct H as (a & H & ->).
      constructor; [exact Ev | eapply IHe; exact H].
    + destruct (c =? "]")%char; intros [= <- <-] || discriminate.
      constructor; [exact Ev | constructor].
  - intros s m r. cbn [parse_members].
    destruct (skip_ws s) as [|c t]; [discriminate|].
    destruct (c =? dquote)%char; [|discriminate].
    destruct (parse_string t) as [[k t1]|]; [|discriminate].
    destruct (skip_ws t1) as [|c1 t2]; [discriminate|].
    destruct (c1 =? ":")%char; [|discriminate].
    destruct (parse_value fuel t2) as [[v t3]|] eqn:Ev; [|discriminate].
    apply IHv in Ev.
    destruct (skip_ws t3) as [|c3 t4]; [discriminate|].
    destruct (c3 =? ",")%char.
    + intros H. apply with_rest_Some in H. destruct H as (a & H & ->).
      constructor; [exact Ev | eapply IHm; exact H].
    + destruct (c3 =? "}")%char; intros [= <- <-] || discriminate.
      constructor; [exact Ev | constructor].
Qed.

Lemma parse_wf (s : string) (v : json) : parse s = Some v -> wf v.
Proof.
  unfold parse.
  destruct (parse_value _ _) as [[v' r]|] eqn:E; [|discriminate].
  destruct (skip_ws r); intros [= <-] || discriminate.
  eapply (proj1 (parse_wf_fuel _)). exact E.
Qed.

End RoundTrip.

(** ** Running the handlers *)

Ltac run_step :=
  match goal with
  | |- context [match ?r with Ok _ => _ | Throw _ => _ end] => destruct r
  | |- context [if ?b then _ else _] => destruct b
  end.

Lemma quiet_refl (w : World) : quiet w w.
Proof. now repeat split. Qed.

Lemma quiet_trans (w1 w2 w3 : World) : quiet w1 w2 -> quiet w2 w3 -> quiet w1 w3.
Proof.
  unfold quiet. intros (a & b & c & d) (a' & b' & c' & d').
  repeat split; congruence.
Qed.

Lemma readLeads_run (w : World) :
  exists w', readLeads w = (Ok (stored (leads_file w)), w') /\ quiet w w'.
Proof.
  unfold readLeads, try_catch, bind, existsSync, readFileSync, JSON_parse, stored.
  destruct w as [f d c t l o]; simpl.
  destruct f as [|raw|]; simpl.
  - eexists; split; [reflexivity | apply quiet_refl].
  - destruct (JSON.parse _); simpl;
      (eexists; split; [reflexivity | now repeat split]).
  - eexists; split; [reflexivity | now repeat split].
Qed.

Lemma notify_run (env : Env) (lead : json) (files : list json) (w : World) :
  exists w', notify env lead files w = (Ok tt, w') /\ quiet w w'.
Proof.
  unfold notify.
  destruct (env_set (NOTIFY_EMAIL env) && env_set (SMTP_HOST env)).
  2: { eexists; split; [reflexivity | apply quiet_refl]. }
  unfold try_catch, bind, lift, throw, sendMail, console_error, ret.
  destruct (nodemailer env).
  2: { eexists; split; [reflexivity | now repeat split]. }
  repeat run_step; (eexists; split; [reflexivity | now repeat split]).
Qed.

Lemma part000_notify_run (env : Env) (lead : json) (files : list json) (w : World) :
  exists w', Part000.notify env lead files w = (Ok tt, w') /\ quiet w w'.
Proof.
  unfold Part000.notify.
  destruct (env_set (NOTIFY_EMAIL env) && env_set (SMTP_HOST env)).
  2: { eexists; split; [reflexivity | apply quiet_refl]. }
  unfold try_catch, bind, lift, throw, sendMail, console_error, ret.
  destruct (nodemailer env).
  2: { eexists; split; [reflexivity | now repeat split]. }
  repeat run_step; (eexists; split; [reflexivity | now repeat split]).
Qed.

Lemma bind_ok {A B : Type} (m : M A) (k : A -> M B) (w w' : World) (a : A) :
  m w = (Ok a, w') -> bind m k w = k a w'.
Proof. intros E. unfold bind. now rewrite E. Qed.

Lemma bind_throw {A B : Type} (m : M A) (k : A -> M B) (w w' : World) (e : exn) :
  m w = (Throw e, w') -> bind m k w = (Throw e, w').
Proof. intros E. unfold bind. now rewrite E. Qed.

Lemma body_of_truthy (req : Request) : Js.truthy (body_of req) = true.
Proof.
  unfold body_of, Js.or. destruct (Js.truthy (req_body req)) eqn:E; [exact E | reflexivity].
Qed.

Lemma get_field (body : value) (k : string) :
  Js.truthy body = true -> Js.get body k = Ok (field body k).
Proof.
  destruct body as [[| | | | |]|]; simpl; intros H; try reflexivity; discriminate.
Qed.

Lemma mk_lead_ok `{Locale} (id t : Z) (body : value) (files : list json) :
  Js.truthy body = true ->
  Server.mk_lead id t body files = Ok (lead_of_body id t body files).
Proof.
  intros Hb. unfold Server.mk_lead, lead_of_body.
  rewrite !(get_field body _ Hb). cbn [rbind].
  unfold Js.or. destruct (Js.truthy (field body "name")); cbn [rbind];
    rewrite ?(get_field body _ Hb); reflexivity.
Qed.

Lemma mk_lead000_ok `{Locale} (id t : Z) (body : value) (files : list json) :
  Js.truthy body = true ->
  Part000.mk_lead id t body files = Ok (lead_of_body000 id t body files).
Proof.
  intros Hb. unfold Part000.mk_lead, lead_of_body000.
  rewrite !(get_field body _ Hb). reflexivity.
Qed.

(** [saveLead] of src/server.js never throws: the lead is written when
    the store holds an array and the disk takes the write, and dropped
    otherwise. *)
Lemma server_saveLead_run (lead : json) (w : World) :
  exists w',
    Server.saveLead lead w = (Ok tt, w')
    /\ leads_file w' = (if disk_ok w then saved lead (leads_file w) else leads_file w)
    /\ disk_ok w' = disk_ok w /\ clock w' = clock w /\ ticks w' = ticks w.
Proof.
  unfold Server.saveLead, try_catch, saved.
  destruct (readLeads_run w) as (w1 & E & Hf & Hd & Hc & Ht).
  rewrite (bind_ok _ _ _ _ _ E). unfold bind, lift, unshift, writeFileSync, console_error.
  destruct (stored (leads_file w)); rewrite ?Hd; destruct (disk_ok w); cbn;
    (eexists; split; [reflexivity | now repeat split]).
Qed.

(** [saveLead] of src/unnamed/part_000 throws when the store holds no
    array or the disk refuses the write. *)
Lemma part000_saveLead_run (lead : json) (w : World) :
  exists r w',
    Part000.saveLead lead w = (r, w')
    /\ disk_ok w' = disk_ok w /\ clock w' = clock w /\ ticks w' = ticks w
    /\ match r with
       | Ok _ => disk_ok w = true /\ leads_file w' = saved lead (leads_file w)
                 /\ exists l, stored (leads_file w) = JArr l
       | Throw _ => leads_file w' = leads_file w
                    /\ (disk_ok w = false \/ forall l, stored (leads_file w) <> JArr l)
       end.
Proof.
  unfold Part000.saveLead, saved.
  destruct (readLeads_run w) as (w1 & E & Hf & Hd & Hc & Ht).
  rewrite (bind_ok _ _ _ _ _ E). unfold bind, lift, unshift, writeFileSync.
  destruct (stored (leads_file w)); rewrite ?Hd; destruct (disk_ok w); cbn;
    (eexists _, _; split; [reflexivity | repeat split; eauto; right; discriminate]).
Qed.

Lemma Date_now_run (w : World) : Date_now w = (Ok (clock w (ticks w)), tick w).
Proof. reflexivity. Qed.

Lemma submitted_run (id : Z) (rest : list (string * json)) (w : World) :
  submitted (JObj (("id", JNum id) :: rest)) w = (Ok (accepted id), w).
Proof. reflexivity. Qed.

(** The handler of src/server.js answers every submission that reaches
    it with [{ok:true, id}], whether or not the lead was written. *)
Lemma server_submit_run `{Locale} (env : Env) (req : Request)
    (uploaded : list UploadedFile) (w : World) :
  let id := clock w (ticks w) in
  let lead := lead_of_body id (clock w (S (ticks w))) (body_of req)
                (map file_entry uploaded) in
  exists w',
    Server.submit env req uploaded w = (Ok (accepted id), w')
    /\ leads_file w' = (if disk_ok w then saved lead (leads_file w) else leads_file w)
    /\ disk_ok w' = disk_ok w /\ clock w' = clock w /\ ticks w' = S (S (ticks w)).
Proof.
  intros id lead. unfold Server.submit, try_catch. fold (body_of req).
  rewrite (bind_ok _ _ _ _ _ (Date_now_run w)).
  rewrite (bind_ok _ _ _ _ _ (Date_now_run (tick w))).
  cbn [tick clock ticks].
  unfold lift at 1. rewrite (mk_lead_ok _ _ _ _ (body_of_truthy req)).
  fold id. fold lead. unfold bind at 1.
  destruct (server_saveLead_run lead (tick (tick w))) as (w1 & E1 & Hf1 & Hd1 & Hc1 & Ht1).
  rewrite (bind_ok _ _ _ _ _ E1).
  destruct (notify_run env lead (map file_entry uploaded) w1) as (w2 & E2 & Hf2 & Hd2 & Hc2 & Ht2).
  rewrite (bind_ok _ _ _ _ _ E2).
  unfold lead at 1, lead_of_body at 1. rewrite submitted_run.
  exists w2. split; [reflexivity|].
  rewrite Hf2, Hd2, Hc2, Ht2, Hf1, Hd1, Hc1, Ht1. now repeat split.
Qed.

(** The handler of src/unnamed/part_000 answers [{ok:true, id}] when
    the lead was written, and the server error otherwise. *)
Lemma part000_submit_run `{Locale} (env : Env) (req : Request)
    (uploaded : list UploadedFile) (w : World) :
  let id := clock w (ticks w) in
  let lead := lead_of_body000 id (clock w (S (ticks w))) (body_of req)
                (map file_entry uploaded) in
  exists res w',
    Part000.submit env req uploaded w = (Ok res, w')
    /\ disk_ok w' = disk_ok w /\ clock w' = clock w /\ ticks w' = S (S (ticks w))
    /\ ((res = accepted id /\ disk_ok w = true /\ leads_file w' = saved lead (leads_file w)
         /\ exists l, stored (leads_file w) = JArr l)
        \/ (res = server_error /\ leads_file w' = leads_file w
            /\ (disk_ok w = false \/ forall l, stored (leads_file w) <> JArr l))).
Proof.
  intros id lead. unfold Part000.submit, try_catch. fold (body_of req).
  rewrite (bind_ok _ _ _ _ _ (Date_now_run w)).
  rewrite (bind_ok _ _ _ _ _ (Date_now_run (tick w))).
  cbn [tick clock ticks].
  unfold lift at 1. rewrite (mk_lead000_ok _ _ _ _ (body_of_truthy req)).
  fold id. fold lead. unfold bind at 1.
  destruct (part000_saveLead_run lead (tick (tick w)))
    as (r & w1 & E1 & Hd1 & Hc1 & Ht1 & Hr).
  destruct r as [[]|e].
  - destruct Hr as (Hok & Hf1 & l & Hl).
    rewrite (bind_ok _ _ _ _ _ E1).
    destruct (part000_notify_run env lead (map file_entry uploaded) w1)
      as (w2 & E2 & Hf2 & Hd2 & Hc2 & Ht2).
    rewrite (bind_ok _ _ _ _ _ E2).
    unfold lead at 1, lead_of_body000 at 1. rewrite submitted_run.
    exists (accepted id), w2. split; [reflexivity|].
    rewrite Hf2, Hd2, Hc2, Ht2, Hf1, Hd1, Hc1, Ht1.
    repeat split. left. repeat split; [exact Hok | now exists l].
  - rewrite (bind_throw _ _ _ _ _ E1). unfold bind, console_error, ret.
    eexists _, _. split; [reflexivity|]. cbn.
    rewrite Hd1, Hc1, Ht1. repeat split. right. split; [reflexivity|]. exact Hr.
Qed.

Lemma advance_0 (w : World) : advance 0 w = w.
Proof. now destruct w. Qed.

Lemma advance_tick (n : nat) (w : World) : advance n (tick w) = advance (S n) w.
Proof. unfold advance, tick. cbn. f_equal. lia. Qed.

Lemma store_run (env : Env) (p : Part) (w : World) :
  store env p w
  = (Ok (mkUploadedFile (part_fieldname p) (part_originalname p) (part_mimetype p)
           (part_size p) (filename (clock w (ticks w)) (part_originalname p))
           (UPLOAD_DIR env ++ "/" ++ filename (clock w (ticks w)) (part_originalname p))),
     tick w).
Proof. reflexivity. Qed.

(** [upload.any()] of src/server.js lets a request through exactly when
    it has at most [files] parts, none longer than [fileSize]; it
    reads the clock once for every part it stores and touches nothing
    else. *)
Lemma upload_any_run (env : Env) (parts : list Part) (n : nat) (w : World) :
  (n <= Server.files)%nat ->
  exists r k,
    Server.upload_any env n parts w = (r, advance k w)
    /\ match r with
       | Ok fs =>
           k = List.length parts
           /\ (n + List.length parts <= Server.files)%nat
           /\ Forall (fun p => part_size p <= Server.fileSize) parts
           /\ map file_originalname fs = map part_originalname parts
           /\ map file_size fs = map part_size parts
       | Throw e =>
           ((Server.files < n + List.length parts)%nat \/ Exists too_big parts)
           /\ exists code, e = MulterError code
       end.
Proof.
  revert n w. induction parts as [|p ps IH]; intros n w Hn0; cbn [Server.upload_any].
  - exists (Ok []), 0%nat. rewrite advance_0. split; [reflexivity|].
    cbn. repeat split; [lia | constructor].
  - destruct (Server.files <=? n)%nat eqn:En.
    + exists (Throw (MulterError "LIMIT_FILE_COUNT")), 0%nat. rewrite advance_0.
      split; [reflexivity|]. apply Nat.leb_le in En. split; [left; cbn; lia | eauto].
    + apply Nat.leb_gt in En.
      rewrite (bind_ok _ _ _ _ _ (store_run env p w)).
      destruct (Server.fileSize <? part_size p) eqn:Es.
      * exists (Throw (MulterError "LIMIT_FILE_SIZE")), 1%nat.
        split; [reflexivity|]. apply Z.ltb_lt in Es.
        split; [right; now constructor | eauto].
      * apply Z.ltb_ge in Es.
        destruct (IH (S n) (tick w) ltac:(lia)) as (r & k & E & Hr).
        rewrite advance_tick in E.
        destruct r as [fs|e].
        -- rewrite (bind_ok _ _ _ _ _ E).
           eexists (Ok _), (S k). split; [reflexivity|].
           destruct Hr as (-> & Hn & Hall & Hnames & Hsizes).
           cbn [List.length map file_originalname file_size].
           repeat split; [lia | now constructor | now rewrite Hnames | now rewrite Hsizes].
        -- rewrite (bind_throw _ _ _ _ _ E).
           exists (Throw e), (S k). split; [reflexivity|].
           destruct Hr as ([Hn | Hex] & Hcode); (split; [|exact Hcode]).
           ++ left. cbn [List.length]. lia.
           ++ right. now constructor.
Qed.

(** A submission to src/server.js: either multer turns it away and the
    default error handler answers, or the handler runs and answers
    [{ok:true, id}], where [id] is the clock reading that follows the
    readings taken for the uploads. *)
Lemma server_app_submit `{Locale} (env : Env) (req : Request) (w : World) :
  req_route req = Submit ->
  let n := List.length (req_parts req) in
  (((Server.files < n)%nat \/ Exists too_big (req_parts req))
   /\ exists code k,
        app env req w = default_error_handler (MulterError code) (advance k w))
  \/ ((n <= Server.files)%nat
      /\ Forall (fun p => part_size p <= Server.fileSize) (req_parts req)
      /\ exists uploaded w',
           let id := clock w (n + ticks w) in
           let lead := lead_of_body id (clock w (S (n + ticks w))) (body_of req)
                         (map file_entry uploaded) in
           Server.upload_any env 0 (req_parts req) w = (Ok uploaded, advance n w)
           /\ app env req w = (accepted id, w')
           /\ leads_file w'
              = (if disk_ok w then saved lead (leads_file w) else leads_file w)
           /\ disk_ok w' = disk_ok w /\ clock w' = clock w
           /\ ticks w' = S (S (n + ticks w))).
Proof.
  intros Hroute n. unfold app, run_route. rewrite Hroute.
  destruct (upload_any_run env (req_parts req) 0 w) as (r & k & E & Hr);
    [unfold Server.files; lia|].
  destruct r as [uploaded|e].
  - right. destruct Hr as (-> & Hn & Hall & _).
    split; [exact Hn|]. split; [exact Hall|].
    rewrite (bind_ok _ _ _ _ _ E).
    destruct (server_submit_run env req uploaded (advance (List.length (req_parts req)) w))
      as (w' & E' & Hf & Hd & Hc & Ht).
    rewrite E'. exists uploaded, w'. cbn zeta. cbn [advance clock ticks leads_file disk_ok] in *.
    repeat split; assumption.
  - left. destruct Hr as (Hwhy & code & ->). split; [exact Hwhy|].
    rewrite (bind_throw _ _ _ _ _ E). now exists code, k.
Qed.

(** ** Upload names (C2) *)

Lemma sanitize_get (s : string) (i : nat) :
  String.get i (replace_chars (fun c => negb (safe_char c)) (fun _ => "_") s)
  = option_map underscore_unsafe (String.get i s).
Proof.
  revert i; induction s as [|c s IH]; intros i; simpl.
  - reflexivity.
  - destruct (safe_char c) eqn:E; simpl; destruct i; simpl; auto;
      unfold underscore_unsafe; now rewrite E.
Qed.

Lemma sanitize_length (s : string) :
  String.length (replace_chars (fun c => negb (safe_char c)) (fun _ => "_") s)
  = String.length s.
Proof.
  induction s as [|c s IH]; simpl; [reflexivity|].
  destruct (safe_char c); simpl; now rewrite IH.
Qed.

Lemma underscore_unsafe_safe (c : ascii) : safe_char (underscore_unsafe c) = true.
Proof.
  unfold underscore_unsafe. destruct (safe_char c) eqn:E; [exact E | reflexivity].
Qed.

(** C2, as the specification words it, fails: a character outside the
    class is not removed from the name, an underscore takes its place. *)
Lemma filename_strip_counterexample :
  filename 1700000000000 "a b.txt" = "1700000000000_a_b.txt"
  /\ spec_filename 1700000000000 "a b.txt" = "1700000000000_ab.txt"
  /\ filename 1700000000000 "a b.txt" <> spec_filename 1700000000000 "a b.txt".
Proof.
  repeat split; try reflexivity. vm_compute. discriminate.
Qed.

Lemma filename_shape (ts : Z) (originalname : string) :
  exists safe : string,
    filename ts originalname = Js.num_str ts ++ "_" ++ safe
    /\ String.length safe = String.length originalname
    /\ (forall i, String.get i safe
                  = option_map underscore_unsafe (String.get i originalname))
    /\ (forall i c, String.get i safe = Some c -> safe_char c = true).
Proof.
  exists (replace_chars (fun c => negb (safe_char c)) (fun _ => "_") originalname).
  split; [reflexivity|].
  split; [apply sanitize_length|].
  split; [apply sanitize_get|].
  intros i c Hc. rewrite sanitize_get in Hc.
  destruct (String.get i originalname) as [c0|]; simpl in Hc; [|discriminate].
  injection Hc as <-. apply underscore_unsafe_safe.
Qed.

(** C2, amended: the name under which multer stores an uploaded file
    is the decimal reading of the millisecond clock, an underscore, and
    the original name in which every character outside
    [[A-Za-z0-9.\-_]] is replaced, in place, by an underscore; the
    characters of the class are kept, so the name has the length of
    the original and only characters of the class. *)
Theorem filename_replaces_unsafe (env : Env) (p : Part) (w : World) :
  exists (f : UploadedFile) (w' : World) (safe : string),
    store env p w = (Ok f, w')
    /\ file_path f = UPLOAD_DIR env ++ "/" ++ file_filename f
    /\ file_filename f = filename (clock w (ticks w)) (part_originalname p)
    /\ file_filename f = Js.num_str (clock w (ticks w)) ++ "_" ++ safe
    /\ String.length safe = String.length (part_originalname p)
    /\ (forall i, String.get i safe
                  = option_map underscore_unsafe (String.get i (part_originalname p)))
    /\ (forall i c, String.get i safe = Some c -> safe_char c = true).
Proof.
  destruct (filename_shape (clock w (ticks w)) (part_originalname p))
    as (safe & Hname & Hlen & Hget & Hsafe).
  eexists _, _, safe. split; [apply store_run|]. cbn [file_path file_filename].
  split; [reflexivity|]. split; [reflexivity|]. split; [exact Hname|].
  split; [exact Hlen|]. split; [exact Hget | exact Hsafe].
Qed.

(** ** Basic auth (C5) *)

Lemma requireAuth_rejects (env : Env) (req : Request) (next : M Response) (w : World) :
  bad_credentials env req ->
  requireAuth env req next w = (Ok unauthorized, w).
Proof.
  intros Hbad. unfold requireAuth.
  destruct Hbad as [-> | (name & pass & -> & Hne)]; [reflexivity|].
  destruct Hne as [Hne | Hne]; apply String.eqb_neq in Hne; rewrite Hne; simpl.
  - reflexivity.
  - rewrite orb_true_r. reflexivity.
Qed.

(** C5: a request to [GET /admin] or [GET /api/leads] without
    credentials, or with a wrong name or pass, is answered 401 with a
    [WWW-Authenticate] challenge; whatever handler stands behind
    [requireAuth] is not run, and the world is left as it was. *)
Theorem admin_routes_require_auth `{Locale} (env : Env) (req : Request) (w : World) :
  req_route req = Admin \/ req_route req = Leads ->
  bad_credentials env req ->
  app env req w = (unauthorized, w)
  /\ status unauthorized = 401
  /\ (exists challenge, In ("WWW-Authenticate", challenge) (headers unauthorized))
  /\ (forall handler : M Response,
        requireAuth env req handler w = (Ok unauthorized, w)).
Proof.
  intros Hroute Hbad. repeat split.
  - unfold app, run_route.
    destruct Hroute as [-> | ->]; now rewrite requireAuth_rejects.
  - eexists. left. reflexivity.
  - intros handler. now apply requireAuth_rejects.
Qed.

Lemma admin_routes_require_auth_witness :
  let env := mkEnv None None None None None false "/srv" in
  let req := mkRequest Admin (Some ("admin", "letmein")) None [] in
  let w := mkWorld Absent true (fun _ => 0) 0 [] [] in
  @app example_locale env req w = (unauthorized, w)
  /\ status unauthorized = 401
  /\ (exists challenge, In ("WWW-Authenticate", challenge) (headers unauthorized))
  /\ (forall handler : M Response,
        requireAuth env req handler w = (Ok unauthorized, w)).
Proof.
  intros env req w.
  apply (@admin_routes_require_auth example_locale env req w).
  - left. reflexivity.
  - right. exists "admin", "letmein". split; [reflexivity|].
    right. vm_compute. discriminate.
Defined.

(** ** A failing write (C1) *)

(** C1 on src/server.js: when the write fails, the handler still
    answers 200 with [{ok:true, id}]; the lead is in no file.  The
    catch inside [saveLead] keeps the failure from the handler. *)
Theorem server_submit_hides_write_failure `{Locale} (env : Env) (req : Request) (w : World) :
  req_route req = Submit ->
  (List.length (req_parts req) <= Server.files)%nat ->
  Forall (fun p => part_size p <= Server.fileSize) (req_parts req) ->
  disk_ok w = false ->
  exists id w',
    app env req w = (accepted id, w')
    /\ status (accepted id) = 200
    /\ body (accepted id) = Json (JObj [("ok", JBool true); ("id", JNum id)])
    /\ leads_file w' = leads_file w.
Proof.
  intros Hroute Hn Hsizes Hdisk.
  destruct (server_app_submit env req w Hroute) as [(Hwhy & _) | (_ & _ & up & w' & H1)].
  - exfalso. destruct Hwhy as [Hmany | Hbig]; [lia|].
    apply Exists_exists in Hbig. destruct Hbig as (p & Hp & Hbig).
    rewrite Forall_forall in Hsizes. specialize (Hsizes p Hp). unfold too_big in Hbig. lia.
  - cbn zeta in H1. destruct H1 as (_ & Happ & Hfile & _).
    rewrite Hdisk in Hfile. eexists _, w'. split; [exact Happ|]. now repeat split.
Qed.

Lemma server_submit_hides_write_failure_witness :
  let env := mkEnv None None None None None false "/srv" in
  let req := mkRequest Submit None (Some (JObj [("company", JStr "ACME")])) [] in
  let w := mkWorld Absent false (fun _ => 1700000000000) 0 [] [] in
  exists id w',
    @app example_locale env req w = (accepted id, w')
    /\ status (accepted id) = 200
    /\ body (accepted id) = Json (JObj [("ok", JBool true); ("id", JNum id)])
    /\ leads_file w' = leads_file w.
Proof.
  intros env req w.
  apply (@server_submit_hides_write_failure example_locale env req w).
  - reflexivity.
  - vm_compute. lia.
  - constructor.
  - reflexivity.
Defined.

(** ** The JSON grammar

    The parser of the model reads JSON only: what [JSON.parse] of the
    model reads, [JSON.valid] accepts, so a text that [JSON.valid]
    refuses is a text on which [JSON.parse] throws.  The fuel that
    [JSON.valid] gives the scanner never runs out: a scan that succeeds
    with some fuel succeeds with that of [JSON.valid]. *)

Lemma digits_skip (s : JSON.chars) : snd (JSON.digits s) = JSON.skip_digits s.
Proof.
  induction s as [|c r IH]; [reflexivity|]. cbn.
  destruct (JSON.is_digit c); [|reflexivity].
  destruct (JSON.digits r) as [u r']. exact IH.
Qed.

Lemma after_int_scan (n : Z) (r : JSON.chars) (v : json) (r' : JSON.chars) :
  JSON.after_int n r = Some (v, r') ->
  r' = r /\ JSON.scan_fraction r = Some r /\ JSON.scan_exponent r = Some r.
Proof.
  unfold JSON.after_int, JSON.scan_fraction, JSON.scan_exponent.
  destruct r as [|c r0]; [intros [= _ <-]; auto|].
  destruct (c =? ".")%char; [discriminate|].
  destruct (c =? "e")%char; [discriminate|].
  destruct (c =? "E")%char; [discriminate|].
  intros [= _ <-]. auto.
Qed.

Lemma parse_int_scan (neg : bool) (s : JSON.chars) (v : json) (r : JSON.chars) :
  JSON.parse_int neg s = Some (v, r) ->
  exists r0, JSON.scan_int s = Some r0 /\ JSON.scan_fraction r0 = Some r
             /\ JSON.scan_exponent r = Some r.
Proof.
  unfold JSON.parse_int, JSON.scan_int. destruct s as [|c s0]; [discriminate|].
  destruct (c =? "0")%char.
  - intros E. apply after_int_scan in E as (-> & Hf & He). now exists s0.
  - destruct (JSON.is_digit c) eqn:Ec; [|discriminate].
    pose proof (digits_skip (c :: s0)) as Hd. cbn [JSON.digits JSON.skip_digits] in Hd.
    cbn [JSON.digits]. rewrite Ec in Hd |- *.
    destruct (JSON.digits s0) as [u r1] eqn:Ed. cbn [snd] in Hd.
    pose proof (digits_skip s0) as Hd0. rewrite Ed in Hd0. cbn [snd] in Hd0.
    intros E. apply after_int_scan in E as (-> & Hf & He).
    exists (JSON.skip_digits s0). rewrite <- Hd0. auto.
Qed.

Lemma parse_number_scan (s : JSON.chars) (v : json) (r : JSON.chars) :
  JSON.parse_number s = Some (v, r) -> JSON.scan_number s = Some r.
Proof.
  unfold JSON.parse_number, JSON.scan_number. destruct s as [|c s0]; [discriminate|].
  destruct (c =? "-")%char; intros E;
    apply parse_int_scan in E as (r0 & -> & -> & He); exact He.
Qed.

Lemma unicode_escape_hex (a b c d u : ascii) :
  JSON.unicode_escape a b c d = Some u ->
  exists x y z t, JSON.hex_val a = Some x /\ JSON.hex_val b = Some y
                  /\ JSON.hex_val c = Some z /\ JSON.hex_val d = Some t.
Proof.
  unfold JSON.unicode_escape.
  destruct (JSON.hex_val a) as [x|]; [|discriminate].
  destruct (JSON.hex_val b) as [y|]; [|discriminate].
  destruct (JSON.hex_val c) as [z|]; [|discriminate].
  destruct (JSON.hex_val d) as [t|]; [|discriminate].
  intros _. now exists x, y, z, t.
Qed.

Lemma cons_char_some (c : ascii) (p : option (string * JSON.chars)) (k : string)
    (r : JSON.chars) :
  JSON.cons_char c p = Some (k, r) -> exists k', p = Some (k', r).
Proof.
  destruct p as [[k' r']|]; [|discriminate]. intros [= _ <-]. now exists k'.
Qed.

Lemma parse_string_scan_bounded (n : nat) :
  forall (s : JSON.chars) (k : string) (r : JSON.chars),
    (List.length s <= n)%nat ->
    JSON.parse_string s = Some (k, r) -> JSON.scan_string s = Some r.
Proof.
  induction n as [|n IH]; intros s k r Hn.
  - destruct s; [discriminate | cbn in Hn; lia].
  - destruct s as [|c s0]; [discriminate|]. cbn [JSON.parse_string JSON.scan_string].
    cbn [List.length] in Hn.
    destruct (c =? JSON.dquote)%char; [now intros [= _ <-]|].
    destruct (c =? JSON.bslash)%char.
    + destruct s0 as [|e s1]; [discriminate|].
      destruct (e =? "u")%char.
      * destruct s1 as [|h1 [|h2 [|h3 [|h4 s2]]]]; try discriminate.
        destruct (JSON.unicode_escape h1 h2 h3 h4) as [u|] eqn:Eu; [|discriminate].
        apply unicode_escape_hex in Eu as (x & y & z & t & -> & -> & -> & ->).
        intros E. apply cons_char_some in E as (k' & E).
        apply (IH _ _ _) in E; [exact E | cbn [List.length] in Hn; lia].
      * destruct (JSON.simple_escape e); [|discriminate].
        intros E. apply cons_char_some in E as (k' & E).
        apply (IH _ _ _) in E; [exact E | cbn [List.length] in Hn; lia].
    + destruct (N_of_ascii c <? 32)%N; [discriminate|].
      intros E. apply cons_char_some in E as (k' & E).
      apply (IH _ _ _) in E; [exact E | lia].
Qed.

Lemma parse_string_scan (s : JSON.chars) (k : string) (r : JSON.chars) :
  JSON.parse_string s = Some (k, r) -> JSON.scan_string s = Some r.
Proof. apply (parse_string_scan_bounded (List.length s)). lia. Qed.

Lemma keyword_scan (p : JSON.chars) (v v' : json) (s r : JSON.chars) :
  JSON.keyword p v s = Some (v', r) -> JSON.expect p s = Some r.
Proof. unfold JSON.keyword. destruct (JSON.expect p s); [now intros [= _ <-] | discriminate]. Qed.

Lemma with_rest_some {A B : Type} (f : A -> B) (p : option (A * JSON.chars)) (b : B)
    (r : JSON.chars) :
  JSON.with_rest f p = Some (b, r) -> exists a, p = Some (a, r).
Proof. destruct p as [[a r']|]; [|discriminate]. intros [= _ <-]. now exists a. Qed.

Lemma parse_scan (fuel : nat) :
  (forall s v r, JSON.parse_value fuel s = Some (v, r) -> JSON.scan_value fuel s = Some r)
  /\ (forall s l r, JSON.parse_elems fuel s = Some (l, r) -> JSON.scan_elems fuel s = Some r)
  /\ (forall s m r, JSON.parse_members fuel s = Some (m, r) ->
                    JSON.scan_members fuel s = Some r).
Proof.
  induction fuel as [|fuel (IHv & IHe & IHm)]; [repeat split; discriminate|].
  repeat split.
  - intros s v r. cbn [JSON.parse_value JSON.scan_value].
    destruct (JSON.skip_ws s) as [|c s0]; [discriminate|].
    destruct (c =? "n")%char; [apply keyword_scan|].
    destruct (c =? "t")%char; [apply keyword_scan|].
    destruct (c =? "f")%char; [apply keyword_scan|].
    destruct (c =? JSON.dquote)%char.
    { intros E. apply with_rest_some in E as (k & E). now apply parse_string_scan in E. }
    destruct (c =? "[")%char.
    { destruct (JSON.skip_ws s0) as [|c' s1]; [discriminate|].
      destruct (c' =? "]")%char; [now intros [= _ <-]|].
      intros E. apply with_rest_some in E as (l & E). now apply IHe in E. }
    destruct (c =? "{")%char.
    { destruct (JSON.skip_ws s0) as [|c' s1]; [discriminate|].
      destruct (c' =? "}")%char; [now intros [= _ <-]|].
      intros E. apply with_rest_some in E as (l & E). now apply IHm in E. }
    apply parse_number_scan.
  - intros s l r. cbn [JSON.parse_elems JSON.scan_elems].
    destruct (JSON.parse_value fuel s) as [[v r0]|] eqn:Ev; [|discriminate].
    rewrite (IHv _ _ _ Ev).
    destruct (JSON.skip_ws r0) as [|c r1]; [discriminate|].
    destruct (c =? ",")%char.
    { intros E. apply with_rest_some in E as (l' & E). now apply IHe in E. }
    destruct (c =? "]")%char; [now intros [= _ <-] | discriminate].
  - intros s m r. cbn [JSON.parse_members JSON.scan_members].
    destruct (JSON.skip_ws s) as [|c s0]; [discriminate|].
    destruct (c =? JSON.dquote)%char; [|discriminate].
    destruct (JSON.parse_string s0) as [[k r1]|] eqn:Ek; [|discriminate].
    rewrite (parse_string_scan _ _ _ Ek).
    destruct (JSON.skip_ws r1) as [|c1 r2]; [discriminate|].
    destruct (c1 =? ":")%char; [|discriminate].
    destruct (JSON.parse_value fuel r2) as [[v r3]|] eqn:Ev; [|discriminate].
    rewrite (IHv _ _ _ Ev).
    destruct (JSON.skip_ws r3) as [|c3 r4]; [discriminate|].
    destruct (c3 =? ",")%char.
    { intros E. apply with_rest_some in E as (l' & E). now apply IHm in E. }
    destruct (c3 =? "}")%char; [now intros [= _ <-] | discriminate].
Qed.

Lemma parse_valid (s : string) (v : json) : JSON.parse s = Some v -> JSON.valid s = true.
Proof.
  unfold JSON.parse, JSON.valid.
  destruct (JSON.parse_value _ _) as [[v' r]|] eqn:E; [|discriminate].
  rewrite (proj1 (parse_scan _) _ _ _ E).
  now destruct (JSON.skip_ws r).
Qed.

Lemma invalid_parse (s : string) : JSON.valid s = false -> JSON.parse s = None.
Proof.
  intros Hv. destruct (JSON.parse s) as [v|] eqn:E; [|reflexivity].
  apply parse_valid in E. congruence.
Qed.

Lemma skip_ws_length (s : JSON.chars) :
  (List.length (JSON.skip_ws s) <= List.length s)%nat.
Proof.
  induction s as [|c s IH]; cbn; [lia|]. destruct (JSON.is_ws c); cbn; lia.
Qed.

Lemma expect_length (p s r : JSON.chars) :
  JSON.expect p s = Some r -> (List.length r <= List.length s)%nat.
Proof.
  revert s. induction p as [|a p IH]; intros s; cbn.
  - intros [= ->]. lia.
  - destruct s as [|b s]; [discriminate|]. destruct (a =? b)%char; [|discriminate].
    intros E. apply IH in E. cbn. lia.
Qed.

Lemma skip_digits_length (s : JSON.chars) :
  (List.length (JSON.skip_digits s) <= List.length s)%nat.
Proof.
  induction s as [|c s IH]; cbn; [lia|]. destruct (JSON.is_digit c); cbn; lia.
Qed.

Lemma scan_digits_length (s r : JSON.chars) :
  JSON.scan_digits s = Some r -> (List.length r <= List.length s)%nat.
Proof.
  unfold JSON.scan_digits. destruct s as [|c s]; [discriminate|].
  destruct (JSON.is_digit c); [|discriminate]. intros [= <-].
  pose proof (skip_digits_length s). cbn. lia.
Qed.

Lemma scan_number_length (s r : JSON.chars) :
  JSON.scan_number s = Some r -> (List.length r < List.length s)%nat.
Proof.
  unfold JSON.scan_number.
  assert (Hint : forall u r0, JSON.scan_int u = Some r0 ->
                              (List.length r0 < List.length u)%nat).
  { intros u r0. unfold JSON.scan_int. destruct u as [|c u]; [discriminate|].
    destruct (c =? "0")%char; [intros [= <-]; cbn; lia|].
    destruct (JSON.is_digit c); [|discriminate]. intros [= <-].
    pose proof (skip_digits_length u). cbn. lia. }
  assert (Hfrac : forall u r0, JSON.scan_fraction u = Some r0 ->
                               (List.length r0 <= List.length u)%nat).
  { intros u r0. unfold JSON.scan_fraction. destruct u as [|c u]; [intros [= <-]; lia|].
    destruct (c =? ".")%char; [|intros [= <-]; lia].
    intros E. apply scan_digits_length in E. cbn. lia. }
  assert (Hexp : forall u r0, JSON.scan_exponent u = Some r0 ->
                              (List.length r0 <= List.length u)%nat).
  { intros u r0. unfold JSON.scan_exponent. destruct u as [|c u]; [intros [= <-]; lia|].
    destruct ((c =? "e") || (c =? "E"))%char; [|intros [= <-]; lia].
    destruct u as [|c' u']; [discriminate|].
    destruct ((c' =? "+") || (c' =? "-"))%char; intros E; apply scan_digits_length in E;
      cbn in *; lia. }
  set (unsigned := match s with
                   | [] => s
                   | c :: r0 => if (c =? "-")%char then r0 else s
                   end).
  assert (Hu : (List.length unsigned <= List.length s)%nat).
  { subst unsigned. destruct s as [|c s0]; [lia|]. destruct (c =? "-")%char; cbn; lia. }
  destruct (JSON.scan_int unsigned) as [r0|] eqn:E0; [|discriminate].
  destruct (JSON.scan_fraction r0) as [r1|] eqn:E1; [|discriminate].
  intros E2. apply Hint in E0. apply Hfrac in E1. apply Hexp in E2. lia.
Qed.

Lemma scan_string_length_bounded (n : nat) :
  forall s r : JSON.chars,
    (List.length s <= n)%nat ->
    JSON.scan_string s = Some r -> (List.length r < List.length s)%nat.
Proof.
  induction n as [|n IH]; intros s r Hn.
  - destruct s; [discriminate | cbn in Hn; lia].
  - destruct s as [|c s0]; [discriminate|]. cbn [JSON.scan_string List.length] in *.
    destruct (c =? JSON.dquote)%char; [intros [= <-]; lia|].
    destruct (c =? JSON.bslash)%char.
    + destruct s0 as [|e s1]; [discriminate|].
      destruct (e =? "u")%char.
      * destruct s1 as [|h1 [|h2 [|h3 [|h4 s2]]]]; try discriminate.
        destruct (JSON.hex_val h1); [|discriminate].
        destruct (JSON.hex_val h2); [|discriminate].
        destruct (JSON.hex_val h3); [|discriminate].
        destruct (JSON.hex_val h4); [|discriminate].
        intros E. apply IH in E; cbn [List.length] in *; lia.
      * destruct (JSON.simple_escape e); [|discriminate].
        intros E. apply IH in E; cbn [List.length] in *; lia.
    + destruct (N_of_ascii c <? 32)%N; [discriminate|].
      intros E. apply IH in E; lia.
Qed.

Lemma scan_string_length (s r : JSON.chars) :
  JSON.scan_string s = Some r -> (List.length r < List.length s)%nat.
Proof. apply (scan_string_length_bounded (List.length s)). lia. Qed.

(** A scan that succeeds takes at least one character, and succeeds
    with any fuel that is at least the number of characters it
    takes. *)
Lemma scan_fuel (fuel : nat) :
  (forall s r, JSON.scan_value fuel s = Some r ->
     (List.length r < List.length s)%nat
     /\ forall g, (List.length s - List.length r <= g)%nat ->
                  JSON.scan_value g s = Some r)
  /\ (forall s r, JSON.scan_elems fuel s = Some r ->
        (List.length r < List.length s)%nat
        /\ forall g, (List.length s - List.length r <= g)%nat ->
                     JSON.scan_elems g s = Some r)
  /\ (forall s r, JSON.scan_members fuel s = Some r ->
        (List.length r < List.length s)%nat
        /\ forall g, (List.length s - List.length r <= g)%nat ->
                     JSON.scan_members g s = Some r).
Proof.
  induction fuel as [|fuel (IHv & IHe & IHm)]; [repeat split; discriminate|].
  split; [|split].
  - intros s r. cbn [JSON.scan_value].
    pose proof (skip_ws_length s) as Hws.
    destruct (JSON.skip_ws s) as [|c s0] eqn:Es; [discriminate|].
    cbn [List.length] in Hws.
    destruct (c =? "n")%char eqn:E1.
    { intros E. pose proof (expect_length _ _ _ E) as Hl. split; [lia|].
      intros [|g] Hg; [lia|]. cbn [JSON.scan_value]. now rewrite Es, E1. }
    destruct (c =? "t")%char eqn:E2.
    { intros E. pose proof (expect_length _ _ _ E) as Hl. split; [lia|].
      intros [|g] Hg; [lia|]. cbn [JSON.scan_value]. now rewrite Es, E1, E2. }
    destruct (c =? "f")%char eqn:E3.
    { intros E. pose proof (expect_length _ _ _ E) as Hl. split; [lia|].
      intros [|g] Hg; [lia|]. cbn [JSON.scan_value]. now rewrite Es, E1, E2, E3. }
    destruct (c =? JSON.dquote)%char eqn:E4.
    { intros E. pose proof (scan_string_length _ _ E) as Hl. split; [lia|].
      intros [|g] Hg; [lia|]. cbn [JSON.scan_value]. now rewrite Es, E1, E2, E3, E4. }
    destruct (c =? "[")%char eqn:E5.
    { pose proof (skip_ws_length s0) as Hws0.
      destruct (JSON.skip_ws s0) as [|c' s1] eqn:Es0; [discriminate|].
      cbn [List.length] in Hws0.
      destruct (c' =? "]")%char eqn:E6.
      - intros [= <-]. split; [lia|].
        intros [|g] Hg; [lia|]. cbn [JSON.scan_value].
        now rewrite Es, E1, E2, E3, E4, E5, Es0, E6.
      - intros E. destruct (IHe _ _ E) as (Hl & Hg0). split; [lia|].
        intros [|g] Hg; [lia|]. cbn [JSON.scan_value].
        rewrite Es, E1, E2, E3, E4, E5, Es0, E6. apply Hg0. lia. }
    destruct (c =? "{")%char eqn:E7.
    { pose proof (skip_ws_length s0) as Hws0.
      destruct (JSON.skip_ws s0) as [|c' s1] eqn:Es0; [discriminate|].
      cbn [List.length] in Hws0.
      destruct (c' =? "}")%char eqn:E6.
      - intros [= <-]. split; [lia|].
        intros [|g] Hg; [lia|]. cbn [JSON.scan_value].
        now rewrite Es, E1, E2, E3, E4, E5, E7, Es0, E6.
      - intros E. destruct (IHm _ _ E) as (Hl & Hg0). split; [lia|].
        intros [|g] Hg; [lia|]. cbn [JSON.scan_value].
        rewrite Es, E1, E2, E3, E4, E5, E7, Es0, E6. apply Hg0. lia. }
    intros E. pose proof (scan_number_length _ _ E) as Hl. cbn [List.length] in Hl.
    split; [lia|].
    intros [|g] Hg; [lia|]. cbn [JSON.scan_value]. now rewrite Es, E1, E2, E3, E4, E5, E7.
  - intros s r. cbn [JSON.scan_elems].
    destruct (JSON.scan_value fuel s) as [r0|] eqn:Ev; [|discriminate].
    destruct (IHv _ _ Ev) as (Hl0 & Hg0).
    pose proof (skip_ws_length r0) as Hws.
    destruct (JSON.skip_ws r0) as [|c r1] eqn:Es; [discriminate|].
    cbn [List.length] in Hws.
    destruct (c =? ",")%char eqn:E1.
    { intros E. destruct (IHe _ _ E) as (Hl1 & Hg1). split; [lia|].
      intros [|g] Hg; [lia|]. cbn [JSON.scan_elems].
      rewrite (Hg0 g) by lia. rewrite Es, E1. apply Hg1. lia. }
    destruct (c =? "]")%char eqn:E2; [|discriminate].
    intros [= <-]. split; [lia|].
    intros [|g] Hg; [lia|]. cbn [JSON.scan_elems].
    rewrite (Hg0 g) by lia. now rewrite Es, E1, E2.
  - intros s r. cbn [JSON.scan_members].
    pose proof (skip_ws_length s) as Hws.
    destruct (JSON.skip_ws s) as [|c s0] eqn:Es; [discriminate|].
    cbn [List.length] in Hws.
    destruct (c =? JSON.dquote)%char eqn:E1; [|discriminate].
    destruct (JSON.scan_string s0) as [r1|] eqn:Ek; [|discriminate].
    pose proof (scan_string_length _ _ Ek) as Hl1.
    pose proof (skip_ws_length r1) as Hws1.
    destruct (JSON.skip_ws r1) as [|c1 r2] eqn:Es1; [discriminate|].
    cbn [List.length] in Hws1.
    destruct (c1 =? ":")%char eqn:E2; [|discriminate].
    destruct (JSON.scan_value fuel r2) as [r3|] eqn:Ev; [|discriminate].
    destruct (IHv _ _ Ev) as (Hl3 & Hg3).
    pose proof (skip_ws_length r3) as Hws3.
    destruct (JSON.skip_ws r3) as [|c3 r4] eqn:Es3; [discriminate|].
    cbn [List.length] in Hws3.
    destruct (c3 =? ",")%char eqn:E3.
    { intros E. destruct (IHm _ _ E) as (Hl4 & Hg4). split; [lia|].
      intros [|g] Hg; [lia|]. cbn [JSON.scan_members].
      rewrite Es, E1, Ek, Es1, E2. rewrite (Hg3 g) by lia.
      rewrite Es3, E3. apply Hg4. lia. }
    destruct (c3 =? "}")%char eqn:E4; [|discriminate].
    intros [= <-]. split; [lia|].
    intros [|g] Hg; [lia|]. cbn [JSON.scan_members].
    rewrite Es, E1, Ek, Es1, E2. rewrite (Hg3 g) by lia.
    now rewrite Es3, E3, E4.
Qed.

(** The fuel of [JSON.valid] is enough: a text that scans as one
    value, with whatever fuel, is valid. *)
Lemma valid_any_fuel (s : string) (fuel : nat) (r : JSON.chars) :
  JSON.scan_value fuel (list_ascii_of_string s) = Some r ->
  JSON.skip_ws r = [] ->
  JSON.valid s = true.
Proof.
  intros E Hr. unfold JSON.valid.
  destruct (proj1 (scan_fuel fuel) _ _ E) as (_ & Hg).
  rewrite (Hg (S (List.length (list_ascii_of_string s)))) by lia.
  now rewrite Hr.
Qed.

(** A text of the grammar beyond the modelled fragment. *)
Lemma valid_beyond_fragment :
  let raw := "[{" ++ String JSON.dquote "id" ++ String JSON.dquote ":1.5}]" in
  JSON.valid raw = true /\ JSON.parse raw = None.
Proof. split; reflexivity. Qed.

(** ** Reading the store (C3) *)


(** ** Appending and reading *)

Lemma stored_wf (f : node) : wf (stored f).
Proof.
  unfold stored. destruct f as [|raw|]; try (constructor; constructor).
  destruct (JSON.parse _) eqn:E; [now apply parse_wf in E | constructor; constructor].
Qed.

Lemma stored_saved (lead : json) (f : node) (old : list json) :
  wf lead -> stored f = JArr old ->
  stored (saved lead f) = JArr (lead :: old).
Proof.
  intros Hlead Hold. unfold saved. rewrite Hold. unfold stored at 1.
  rewrite stringify_nonempty, parse_stringify; [reflexivity|].
  pose proof (stored_wf f) as Hwf. rewrite Hold in Hwf.
  inversion Hwf; subst. constructor. now constructor.
Qed.

Lemma readLeads_stored (w : World) (leads : json) :
  fst (readLeads w) = Ok leads -> stored (leads_file w) = leads.
Proof.
  destruct (readLeads_run w) as (w' & E & _). rewrite E. cbn. now intros [= ->].
Qed.

Lemma requireAuth_accepts (env : Env) (req : Request) (next : M Response) :
  req_auth req = admin_login env -> requireAuth env req next = next.
Proof.
  intros E. unfold requireAuth. rewrite E. unfold admin_login.
  rewrite !String.eqb_refl. reflexivity.
Qed.

Lemma api_leads_run (w : World) (l : list json) :
  stored (leads_file w) = JArr l ->
  exists w', api_leads w = (Ok (listing l), w') /\ quiet w w'.
Proof.
  intros Hl. unfold api_leads.
  destruct (readLeads_run w) as (w' & E & Q).
  rewrite (bind_ok _ _ _ _ _ E), Hl. exists w'. split; [reflexivity | exact Q].
Qed.

Ltac in_order_keys :=
  repeat (constructor; [simpl; intuition discriminate | repeat constructor |]);
  constructor.

Lemma wf_field (body : value) (k : string) : wf_value body -> wf_value (field body k).
Proof.
  destruct body as [[| | | | |m]|]; simpl; try exact (fun _ => I).
  intros Hwf. inversion Hwf as [| | | | |m' _ Hall]; subst.
  induction Hall as [|[k' v] m Hv Hm IH]; simpl; [exact I|].
  destruct (k =? k')%string; [exact Hv | apply IH].
  constructor; [|exact Hm]. inversion Hwf as [| | | | |m' Hord _]; subst.
  now inversion Hord.
Qed.

Lemma wf_or (a b : value) : wf_value a -> wf_value b -> wf_value (Js.or a b).
Proof. unfold Js.or. now destruct (Js.truthy a). Qed.

Lemma wf_or_empty (a : value) : wf_value a -> wf (or_empty a).
Proof.
  intros Ha. unfold or_empty.
  pose proof (wf_or a (Some (JStr "")) Ha (wf_str "")) as H.
  destruct (Js.or a (Some (JStr ""))); [exact H | constructor].
Qed.

Lemma wf_file_entry (f : UploadedFile) : wf (file_entry f).
Proof.
  unfold file_entry. constructor; [in_order_keys | repeat constructor].
Qed.

Lemma wf_body_of (req : Request) : wf_value (req_body req) -> wf_value (body_of req).
Proof.
  intros Hb. apply wf_or; [exact Hb|]. constructor; constructor.
Qed.

Lemma wf_lead_of_body `{Locale} (id t : Z) (body : value) (uploaded : list UploadedFile) :
  wf_value body -> wf (lead_of_body id t body (map file_entry uploaded)).
Proof.
  intros Hb. unfold lead_of_body. constructor; [in_order_keys|].
  repeat (constructor;
          [cbn [snd]; try apply wf_or_empty; try apply wf_or; try apply wf_field;
           try exact Hb; try constructor |]).
  - apply Forall_forall. intros x Hx. apply in_map_iff in Hx.
    destruct Hx as (f & <- & _). apply wf_file_entry.
  - constructor.
Qed.

Lemma listing_run `{Locale} (env : Env) (req : Request) (w : World) (l : list json) :
  req_route req = Leads -> req_auth req = admin_login env ->
  stored (leads_file w) = JArr l ->
  exists w', app env req w = (listing l, w').
Proof.
  intros Hroute Hauth Hl. destruct (api_leads_run w l Hl) as (w' & E & _).
  exists w'. unfold app, run_route.
  rewrite Hroute, requireAuth_accepts by exact Hauth. now rewrite E.
Qed.

(** A submission within the upload limits, on a disk that takes the
    write and a store that reads as [old]: the lead is stored ahead of
    [old], and the answer carries its id. *)
Lemma submission_stored `{Locale} (env : Env) (req : Request) (old : list json)
    (w : World) :
  req_route req = Submit ->
  (List.length (req_parts req) <= Server.files)%nat ->
  Forall (fun p => part_size p <= Server.fileSize) (req_parts req) ->
  wf_value (req_body req) ->
  disk_ok w = true ->
  stored (leads_file w) = JArr old ->
  exists id t uploaded w1,
    app env req w = (accepted id, w1)
    /\ stored (leads_file w1)
       = JArr (lead_of_body id t (body_of req) (map file_entry uploaded) :: old).
Proof.
  intros Hroute Hn Hsizes Hbody Hdisk Hold.
  destruct (server_app_submit env req w Hroute) as [(Hwhy & _) | (_ & _ & up & w1 & H1)].
  - exfalso. destruct Hwhy as [Hmany | Hbig]; [lia|].
    apply Exists_exists in Hbig. destruct Hbig as (p & Hp & Hbig).
    rewrite Forall_forall in Hsizes. specialize (Hsizes p Hp). unfold too_big in Hbig. lia.
  - cbn zeta in H1. destruct H1 as (_ & Happ & Hfile & _).
    rewrite Hdisk in Hfile. eexists _, _, up, w1. split; [exact Happ|].
    rewrite Hfile. apply stored_saved; [|exact Hold].
    now apply wf_lead_of_body, wf_body_of.
Qed.

(** Appending and reading back.  On a store that reads as the sequence
    [old], in a state of the file that the model covers, and a disk
    that takes the write, [saveLead(lead)] followed by [readLeads()]
    yields [lead] followed by [old], in the same order; and after a
    submission within the upload limits an authenticated
    [GET /api/leads] lists the new lead first, ahead of [old]. *)
Theorem saveLead_then_readLeads `{Locale} (env : Env) (old : list json) (w : World) :
  disk_ok w = true ->
  modelled (leads_file w) = true ->
  fst (readLeads w) = Ok (JArr old) ->
  (forall lead,
     wf lead ->
     exists w1 w2,
       Server.saveLead lead w = (Ok tt, w1)
       /\ readLeads w1 = (Ok (JArr (lead :: old)), w2))
  /\ (forall sub,
        req_route sub = Submit ->
        (List.length (req_parts sub) <= Server.files)%nat ->
        Forall (fun p => part_size p <= Server.fileSize) (req_parts sub) ->
        wf_value (req_body sub) ->
        exists id lead w1,
          app env sub w = (accepted id, w1)
          /\ Js.get (Some lead) "id" = Ok (Some (JNum id))
          /\ forall req,
               req_route req = Leads -> req_auth req = admin_login env ->
               exists w2, app env req w1 = (listing (lead :: old), w2)).
Proof.
  intros Hdisk _ Hold. apply readLeads_stored in Hold. split.
  - intros lead Hlead.
    destruct (server_saveLead_run lead w) as (w1 & E1 & Hf1 & _).
    rewrite Hdisk in Hf1.
    assert (Hs : stored (leads_file w1) = JArr (lead :: old)).
    { rewrite Hf1. now apply stored_saved. }
    destruct (readLeads_run w1) as (w2 & E2 & _). rewrite Hs in E2.
    now exists w1, w2.
  - intros sub Hroute Hn Hsizes Hbody.
    destruct (submission_stored env sub old w Hroute Hn Hsizes Hbody Hdisk Hold)
      as (id & t & up & w1 & Happ & Hs).
    exists id, (lead_of_body id t (body_of sub) (map file_entry up)), w1.
    split; [exact Happ|]. split; [reflexivity|].
    intros req Hr Hauth. now apply listing_run.
Qed.

Lemma saveLead_then_readLeads_witness :
  let env := mkEnv None None None None None false "/srv" in
  let old := [JObj [("id", JNum 1); ("company", JStr "Initech")]] in
  let w := mkWorld (File (JSON.stringify (JArr old))) true (fun _ => 1700000000000) 0 [] [] in
  (forall lead,
     wf lead ->
     exists w1 w2,
       Server.saveLead lead w = (Ok tt, w1)
       /\ readLeads w1 = (Ok (JArr (lead :: old)), w2))
  /\ (forall sub,
        req_route sub = Submit ->
        (List.length (req_parts sub) <= Server.files)%nat ->
        Forall (fun p => part_size p <= Server.fileSize) (req_parts sub) ->
        wf_value (req_body sub) ->
        exists id lead w1,
          @app example_locale env sub w = (accepted id, w1)
          /\ Js.get (Some lead) "id" = Ok (Some (JNum id))
          /\ forall req,
               req_route req = Leads -> req_auth req = admin_login env ->
               exists w2, @app example_locale env req w1 = (listing (lead :: old), w2)).
Proof.
  intros env old w.
  apply (@saveLead_then_readLeads example_locale env old w); reflexivity.
Defined.

(** The answer names the stored lead.  When a submission within the
    upload limits is written to the store (the disk takes the write,
    the store reads as a sequence, in a state of the file that the
    model covers), the [id] of the [{ok:true, id}] answer is the [id]
    member of the lead that now heads the store, ahead of the leads
    that were there. *)
Theorem submit_answers_id_of_stored_lead `{Locale} (env : Env) (req : Request)
    (old : list json) (w : World) :
  req_route req = Submit ->
  (List.length (req_parts req) <= Server.files)%nat ->
  Forall (fun p => part_size p <= Server.fileSize) (req_parts req) ->
  wf_value (req_body req) ->
  disk_ok w = true ->
  modelled (leads_file w) = true ->
  fst (readLeads w) = Ok (JArr old) ->
  exists id lead w1 w2,
    app env req w = (accepted id, w1)
    /\ body (accepted id) = Json (JObj [("ok", JBool true); ("id", JNum id)])
    /\ readLeads w1 = (Ok (JArr (lead :: old)), w2)
    /\ Js.get (Some lead) "id" = Ok (Some (JNum id)).
Proof.
  intros Hroute Hn Hsizes Hbody Hdisk _ Hold. apply readLeads_stored in Hold.
  destruct (submission_stored env req old w Hroute Hn Hsizes Hbody Hdisk Hold)
    as (id & t & up & w1 & Happ & Hs).
  destruct (readLeads_run w1) as (w2 & E2 & _). rewrite Hs in E2.
  exists id, (lead_of_body id t (body_of req) (map file_entry up)), w1, w2.
  split; [exact Happ|]. split; [reflexivity|].
  split; [exact E2 | reflexivity].
Qed.

Lemma submit_answers_id_of_stored_lead_witness :
  let env := mkEnv None None None None None false "/srv" in
  let req := mkRequest Submit None
               (Some (JObj [("company", JStr "ACME"); ("name", JStr "Wile")]))
               [mkPart "statements" "q1 2024.pdf" "application/pdf" 2048] in
  let old := [JObj [("id", JNum 1); ("company", JStr "Initech")]] in
  let w := mkWorld (File (JSON.stringify (JArr old))) true (fun _ => 1700000000000) 0 [] [] in
  exists id lead w1 w2,
    @app example_locale env req w = (accepted id, w1)
    /\ body (accepted id) = Json (JObj [("ok", JBool true); ("id", JNum id)])
    /\ readLeads w1 = (Ok (JArr (lead :: old)), w2)
    /\ Js.get (Some lead) "id" = Ok (Some (JNum id)).
Proof.
  intros env req old w.
  apply (@submit_answers_id_of_stored_lead example_locale env req old w).
  - reflexivity.
  - vm_compute. lia.
  - repeat constructor. vm_compute. discriminate.
  - constructor; [in_order_keys | repeat constructor].
  - reflexivity.
  - reflexivity.
  - reflexivity.
Defined.

(** ** The lead of a submission (C6) *)

(** C6, as the specification words it, fails: [contactName] is taken
    from the body field [name] first, a field outside the known set. *)
Lemma lead_contactName_counterexample :
  let body := Some (JObj [("name", JStr "Alice"); ("contactName", JStr "Bob")]) in
  exists lead,
    @Server.mk_lead example_locale 1 1 (Js.or body (Some (JObj []))) [] = Ok (JObj lead)
    /\ spec_lead_field body "contactName" = JStr "Bob"
    /\ Js.lookup "contactName" lead = Some (JStr "Alice")
    /\ Js.lookup "contactName" lead <> Some (spec_lead_field body "contactName").
Proof.
  eexists. split; [reflexivity|]. split; [reflexivity|]. split; [reflexivity|].
  vm_compute. discriminate.
Qed.

Lemma or_empty_spec (v : value) :
  or_empty v
  = match v with
    | Some j => if Js.truthy v then j else JStr ""
    | None => JStr ""
    end.
Proof.
  unfold or_empty, Js.or. destruct v as [j|]; [|reflexivity].
  now destruct (Js.truthy (Some j)).
Qed.

(** C6, amended: besides [id], [receivedAt] and [files], the lead has
    exactly the members company, contactName, phone, email, amount,
    sector and message.  Each of company, phone, email, amount, sector
    and message is the body field of that name, or the empty string
    when that field is missing or falsy; contactName is the body field
    [name], or else the body field [contactName], or else the empty
    string.  No other field of the body has a part in the lead. *)
Theorem lead_fields_of_body `{Locale} (id t : Z) (req : Request) (files : list json) :
  let body := body_of req in
  exists lead,
    Server.mk_lead id t body files = Ok (JObj lead)
    /\ keys lead
       = ["id"; "receivedAt"; "company"; "contactName"; "phone"; "email"; "amount";
          "sector"; "message"; "files"]
    /\ (forall k, In k ["company"; "phone"; "email"; "amount"; "sector"; "message"] ->
                  Js.lookup k lead = Some (or_empty (field body k)))
    /\ Js.lookup "contactName" lead
       = Some (or_empty (Js.or (field body "name") (field body "contactName")))
    /\ (forall v, or_empty v
                  = match v with
                    | Some j => if Js.truthy v then j else JStr ""
                    | None => JStr ""
                    end)
    /\ (forall req',
          (forall k, In k ["company"; "name"; "contactName"; "phone"; "email"; "amount";
                           "sector"; "message"] ->
                     field (body_of req') k = field body k) ->
          Server.mk_lead id t (body_of req') files = Ok (JObj lead)).
Proof.
  intros body0. eexists.
  split; [apply mk_lead_ok, body_of_truthy|].
  split; [reflexivity|].
  split.
  { intros k Hk. cbn in Hk.
    destruct Hk as [<-|[<-|[<-|[<-|[<-|[<-|[]]]]]]]; reflexivity. }
  split; [reflexivity|].
  split; [exact or_empty_spec|].
  intros req' Hsame.
  rewrite (mk_lead_ok _ _ _ _ (body_of_truthy req')). unfold lead_of_body.
  rewrite !Hsame by (cbn; tauto). reflexivity.
Qed.

(** ** Upload limits (C8) *)

(** C8, as the specification words it, fails: a sixth file is met with
    status 500, which is no client error. *)
Lemma sixth_file_counterexample :
  let env := mkEnv None None None None None false "/srv" in
  let part := mkPart "statements" "a.txt" "text/plain" 1 in
  let req := mkRequest Submit None (Some (JObj [])) [part; part; part; part; part; part] in
  let w := mkWorld Absent true (fun _ => 1700000000000) 0 [] [] in
  fst (@app example_locale env req w)
  = mkResponse 500 [] (ErrorPage (MulterError "LIMIT_FILE_COUNT"))
  /\ ~ (400 <= status (fst (@app example_locale env req w)) < 500).
Proof.
  split; [reflexivity|]. vm_compute. intros [_ H]. discriminate H.
Qed.

Lemma upload_any_accepts (env : Env) (parts : list Part) (w w1 : World)
    (uploaded : list UploadedFile) :
  Server.upload_any env 0 parts w = (Ok uploaded, w1) ->
  (List.length uploaded <= 5)%nat /\ Forall (fun f => file_size f <= 10485760) uploaded.
Proof.
  intros Hup.
  destruct (upload_any_run env parts 0 w) as (r & k & E & Hr);
    [unfold Server.files; lia|].
  rewrite Hup in E. injection E as <- _.
  destruct Hr as (_ & Hlen & Hall & _ & Hs).
  pose proof (f_equal (@List.length Z) Hs) as Hl. rewrite !length_map in Hl.
  split; [unfold Server.files in *; lia|].
  apply Forall_forall. intros f Hf.
  assert (Hin : In (file_size f) (map part_size parts)).
  { rewrite <- Hs. now apply in_map. }
  apply in_map_iff in Hin. destruct Hin as (p & Hp & Hin).
  rewrite Forall_forall in Hall. specialize (Hall p Hin).
  unfold Server.fileSize in Hall. lia.
Qed.

(** C8, amended: at most 5 files are accepted, each of at most
    10 * 1024 * 1024 bytes.  A request with a sixth file, or with a
    file beyond that size, never reaches the handler: no lead reaches
    the store and nothing is mailed; Express's default error handler
    prints the MulterError on the console and answers with status
    500.  A request within the limits reaches the handler. *)
Theorem upload_limits `{Locale} (env : Env) (req : Request) (w : World) :
  req_route req = Submit ->
  Server.files = 5%nat /\ Server.fileSize = 10485760
  /\ (forall uploaded w1,
        Server.upload_any env 0 (req_parts req) w = (Ok uploaded, w1) ->
        (List.length uploaded <= 5)%nat
        /\ Forall (fun f => file_size f <= 10485760) uploaded)
  /\ ((Server.files < List.length (req_parts req))%nat \/ Exists too_big (req_parts req) ->
      exists code w',
        app env req w = (mkResponse 500 [] (ErrorPage (MulterError code)), w')
        /\ leads_file w' = leads_file w
        /\ console w' = (console w ++ [error_entry (MulterError code)])%list
        /\ outbox w' = outbox w)
  /\ ((List.length (req_parts req) <= Server.files)%nat ->
      Forall (fun p => part_size p <= Server.fileSize) (req_parts req) ->
      exists id w', app env req w = (accepted id, w')).
Proof.
  intros Hroute. split; [reflexivity|]. split; [reflexivity|].
  split; [intros uploaded w1; apply upload_any_accepts|].
  destruct (server_app_submit env req w Hroute)
    as [(Hwhy & code & k & E) | (Hn & Hsizes & up & w' & H1)].
  - split.
    + intros _. exists code. eexists. split; [exact E|]. now repeat split.
    + intros Hn Hsizes. exfalso. destruct Hwhy as [Hmany | Hbig]; [lia|].
      apply Exists_exists in Hbig. destruct Hbig as (p & Hp & Hbig).
      rewrite Forall_forall in Hsizes. specialize (Hsizes p Hp). unfold too_big in Hbig. lia.
  - cbn zeta in H1. destruct H1 as (Hup & Happ & _). split.
    + intros Hwhy. exfalso. destruct Hwhy as [Hmany | Hbig]; [lia|].
      apply Exists_exists in Hbig. destruct Hbig as (p & Hp & Hbig).
      rewrite Forall_forall in Hsizes. specialize (Hsizes p Hp). unfold too_big in Hbig. lia.
    + intros _ _. eexists _, w'. exact Happ.
Qed.

Lemma upload_limits_witness :
  let env := mkEnv None None None None None false "/srv" in
  let req := mkRequest Submit None (Some (JObj []))
               [mkPart "statements" "big.pdf" "application/pdf" 10485761] in
  let w := mkWorld Absent true (fun _ => 1700000000000) 0 [] [] in
  Server.files = 5%nat /\ Server.fileSize = 10485760
  /\ (forall uploaded w1,
        Server.upload_any env 0 (req_parts req) w = (Ok uploaded, w1) ->
        (List.length uploaded <= 5)%nat
        /\ Forall (fun f => file_size f <= 10485760) uploaded)
  /\ ((Server.files < List.length (req_parts req))%nat \/ Exists too_big (req_parts req) ->
      exists code w',
        @app example_locale env req w = (mkResponse 500 [] (ErrorPage (MulterError code)), w')
        /\ leads_file w' = leads_file w
        /\ console w' = (console w ++ [error_entry (MulterError code)])%list
        /\ outbox w' = outbox w)
  /\ ((List.length (req_parts req) <= Server.files)%nat ->
      Forall (fun p => part_size p <= Server.fileSize) (req_parts req) ->
      exists id w', @app example_locale env req w = (accepted id, w')).
Proof.
  intros env req w.
  apply (@upload_limits example_locale env req w). reflexivity.
Defined.

(** ** Lead ids (C9) *)

Lemma lifted_quiet {A : Type} (r : result A) (k : A -> M Response) (w : World) :
  (forall a, k a w = (fst (k a w), w)) ->
  snd (bind (lift r) k w) = w.
Proof.
  intros Hk. unfold bind, lift. destruct r as [a|e]; [|reflexivity].
  now rewrite Hk.
Qed.

Lemma admin_quiet `{Locale} (w : World) : quiet w (snd (admin w)).
Proof.
  unfold admin. destruct (readLeads_run w) as (w' & E & Q).
  rewrite (bind_ok _ _ _ _ _ E). rewrite lifted_quiet; [exact Q | reflexivity].
Qed.

Lemma api_leads_quiet (w : World) : quiet w (snd (api_leads w)).
Proof.
  unfold api_leads. destruct (readLeads_run w) as (w' & E & Q).
  rewrite (bind_ok _ _ _ _ _ E). rewrite lifted_quiet; [exact Q | reflexivity].
Qed.

Lemma requireAuth_quiet (env : Env) (req : Request) (next : M Response) (w : World) :
  quiet w (snd (next w)) -> quiet w (snd (requireAuth env req next w)).
Proof.
  intros Hnext. unfold requireAuth.
  destruct (match req_auth req with Some _ => _ | None => _ end);
    [apply quiet_refl | exact Hnext].
Qed.

Lemma run_route_quiet (route : M Response) (w : World) :
  quiet w (snd (route w)) -> quiet w (snd (run_route route w)).
Proof. unfold run_route. now destruct (route w) as [[res|e] w']. Qed.

(** No request changes the clock or takes a reading back. *)
Lemma app_frame `{Locale} (env : Env) (req : Request) (w : World) :
  clock (snd (app env req w)) = clock w
  /\ (ticks w <= ticks (snd (app env req w)))%nat.
Proof.
  destruct (req_route req) eqn:Hroute.
  - unfold app. rewrite Hroute. cbn. split; [reflexivity | lia].
  - destruct (server_app_submit env req w Hroute)
      as [(_ & code & k & E) | (_ & _ & up & w' & H1)].
    + rewrite E. cbn. split; [reflexivity | lia].
    + cbn zeta in H1. destruct H1 as (_ & E & _ & _ & Hc & Ht).
      rewrite E. cbn. split; [exact Hc | lia].
  - unfold app. rewrite Hroute. cbn. split; [reflexivity | lia].
  - unfold app. rewrite Hroute.
    destruct (run_route_quiet _ w (requireAuth_quiet env req admin w (admin_quiet w)))
      as (_ & _ & Hc & Ht).
    split; [exact Hc | lia].
  - unfold app. rewrite Hroute.
    destruct (run_route_quiet _ w (requireAuth_quiet env req api_leads w (api_leads_quiet w)))
      as (_ & _ & Hc & Ht).
    split; [exact Hc | lia].
  - unfold app. rewrite Hroute. cbn. split; [reflexivity | lia].
Qed.

Lemma serve_frame `{Locale} (env : Env) (reqs : list Request) (w : World) :
  clock (serve env reqs w) = clock w /\ (ticks w <= ticks (serve env reqs w))%nat.
Proof.
  revert w. induction reqs as [|req reqs IH]; intros w; cbn [serve].
  - split; [reflexivity | lia].
  - destruct (IH (snd (app env req w))) as (Hc & Ht).
    destruct (app_frame env req w) as (Hc' & Ht').
    split; [congruence | lia].
Qed.

(** The id of an accepted submission is a reading of the clock taken
    while the request was served. *)
Lemma accepted_id_reading `{Locale} (env : Env) (req : Request) (w : World) (id : Z) :
  req_route req = Submit ->
  fst (app env req w) = accepted id ->
  exists a, (ticks w <= a < ticks (snd (app env req w)))%nat /\ id = clock w a.
Proof.
  intros Hroute Hres.
  destruct (server_app_submit env req w Hroute)
    as [(_ & code & k & E) | (_ & _ & up & w' & H1)].
  - rewrite E in Hres. discriminate Hres.
  - cbn zeta in H1. destruct H1 as (_ & E & _ & _ & _ & Ht).
    rewrite E in Hres |- *. cbn in Hres |- *. injection Hres as Hid.
    eexists. split; [|symmetry; exact Hid]. lia.
Qed.

(** C9, as the specification words it, fails: two leads built within
    the same millisecond have the same id. *)
Lemma same_millisecond_counterexample :
  let env := mkEnv None None None None None false "/srv" in
  let w := mkWorld Absent true (fun _ => 1700000000000) 0 [] [] in
  let req1 := mkRequest Submit None (Some (JObj [("company", JStr "ACME")])) [] in
  let req2 := mkRequest Submit None (Some (JObj [("company", JStr "Initech")])) [] in
  let w1 := snd (@app example_locale env req1 w) in
  let w2 := snd (@app example_locale env req2 w1) in
  fst (@app example_locale env req1 w) = accepted 1700000000000
  /\ fst (@app example_locale env req2 w1) = accepted 1700000000000
  /\ exists lead1 lead2,
       stored (leads_file w2) = JArr [lead2; lead1]
       /\ lead1 <> lead2
       /\ Js.get (Some lead1) "id" = Js.get (Some lead2) "id".
Proof.
  cbv zeta. split; [reflexivity|]. split; [reflexivity|].
  eexists _, _. split; [vm_compute; reflexivity|].
  split; [discriminate | reflexivity].
Qed.

(** C9, amended: the id of a lead is the reading of the millisecond
    clock taken when the handler builds it, and a lead built later has
    its id from a later reading.  So the later id is at least the
    earlier one when the clock does not run backwards, and greater
    when the clock has advanced between the two readings; two leads
    built within one millisecond share their id. *)
Theorem lead_ids_are_clock_readings `{Locale} (env : Env) (req1 req2 : Request)
    (between : list Request) (w : World) (id1 id2 : Z) :
  req_route req1 = Submit ->
  req_route req2 = Submit ->
  fst (app env req1 w) = accepted id1 ->
  fst (app env req2 (serve env between (snd (app env req1 w)))) = accepted id2 ->
  exists a b,
    (a < b)%nat /\ id1 = clock w a /\ id2 = clock w b
    /\ ((forall i j, (i <= j)%nat -> clock w i <= clock w j) -> id1 <= id2)
    /\ (clock w a < clock w b -> id1 < id2)
    /\ (clock w a = clock w b -> id1 = id2).
Proof.
  intros Hr1 Hr2 H1 H2.
  destruct (accepted_id_reading env req1 w id1 Hr1 H1) as (a & Ha & E1).
  destruct (accepted_id_reading env req2 _ id2 Hr2 H2) as (b & Hb & E2).
  destruct (serve_frame env between (snd (app env req1 w))) as (Hc & Ht).
  destruct (app_frame env req1 w) as (Hc1 & _).
  rewrite Hc, Hc1 in E2.
  exists a, b. split; [lia|]. split; [exact E1|]. split; [exact E2|].
  subst id1 id2. repeat split; try tauto.
  intros Hmono. apply Hmono. lia.
Qed.

Lemma lead_ids_are_clock_readings_witness :
  let env := mkEnv None None None None None false "/srv" in
  let w := mkWorld Absent true (fun n => Z.of_nat n) 0 [] [] in
  let req1 := mkRequest Submit None (Some (JObj [("company", JStr "ACME")])) [] in
  let req2 := mkRequest Submit None (Some (JObj [("company", JStr "Initech")])) [] in
  let between := [mkRequest Health None None []] in
  exists a b,
    (a < b)%nat /\ 0 = clock w a /\ 2 = clock w b
    /\ ((forall i j, (i <= j)%nat -> clock w i <= clock w j) -> 0 <= 2)
    /\ (clock w a < clock w b -> 0 < 2)
    /\ (clock w a = clock w b -> 0 = 2).
Proof.
  intros env w req1 req2 between.
  apply (@lead_ids_are_clock_readings example_locale env req1 req2 between w 0 2);
    reflexivity.
Defined.

(** ** The admin page (C7) *)

Lemma markup_of_app (a b : string) : markup_of (a ++ b) = markup_of a ++ markup_of b.
Proof.
  induction a as [|c a IH]; simpl; [reflexivity|].
  destruct (markup_char c); simpl; now rewrite IH.
Qed.

Lemma well_escaped_no_markup (s : string) : well_escaped s = true -> markup_of s = "".
Proof.
  induction s as [|c s IH]; simpl; [reflexivity|].
  destruct (c =? "&")%char eqn:E.
  - apply Ascii.eqb_eq in E. subst c. simpl.
    intros H. apply andb_prop in H. now apply IH.
  - intros H. apply andb_prop in H. destruct H as [Hc Hs].
    apply negb_true_iff in Hc. rewrite Hc. now apply IH.
Qed.

Lemma well_escaped_entity (c : ascii) (s : string) :
  html_special c = true -> well_escaped s = true ->
  well_escaped (html_entity c ++ s) = true.
Proof.
  intros Hc Hs. unfold html_special in Hc. unfold html_entity.
  destruct (c =? "&")%char; [simpl; exact Hs|].
  destruct (c =? "<")%char; [simpl; exact Hs|].
  destruct (c =? ">")%char; [simpl; exact Hs|].
  destruct (c =? JSON.dquote)%char; [simpl; exact Hs|].
  simpl; exact Hs.
Qed.

Lemma well_escaped_plain (c : ascii) (s : string) :
  html_special c = false -> well_escaped s = true -> well_escaped (String c s) = true.
Proof.
  intros Hc Hs. unfold html_special in Hc. cbn [well_escaped].
  apply orb_false_elim in Hc. destruct Hc as [Hc H4].
  apply orb_false_elim in Hc. destruct Hc as [Hc H3].
  apply orb_false_elim in Hc. destruct Hc as [Hc H2].
  apply orb_false_elim in Hc. destruct Hc as [H0 H1].
  rewrite H0. unfold markup_char. now rewrite H1, H2, H3, H4, Hs.
Qed.

Lemma replace_chars_escaped (s : string) :
  well_escaped (replace_chars html_special html_entity s) = true.
Proof.
  induction s as [|c s IH]; [reflexivity|]. cbn [replace_chars].
  destruct (html_special c) eqn:E.
  - now apply well_escaped_entity.
  - now apply well_escaped_plain.
Qed.

Lemma escapeHtml_escaped (v : value) (s : string) :
  escapeHtml v = Ok s -> well_escaped s = true.
Proof.
  unfold escapeHtml. destruct (Js.String _); cbn [rbind]; [|discriminate].
  intros [= <-]. apply replace_chars_escaped.
Qed.

Lemma map_result_Forall2 {A B : Type} (f : A -> result B) (l : list A) (ys : list B) :
  map_result f l = Ok ys -> Forall2 (fun x y => f x = Ok y) l ys.
Proof.
  revert ys. induction l as [|x l IH]; intros ys; cbn [map_result].
  - intros [= <-]. constructor.
  - destruct (f x) as [y|] eqn:Ex; cbn [rbind]; [|discriminate].
    destruct (map_result f l) as [ys'|]; cbn [rbind]; [|discriminate].
    intros [= <-]. constructor; [exact Ex | now apply IH].
Qed.

Lemma escaped_cell (r : result value) (s : string) :
  rbind r escapeHtml = Ok s -> well_escaped s = true.
Proof.
  destruct r as [v|]; cbn [rbind]; [apply escapeHtml_escaped | discriminate].
Qed.

Lemma escaped_date `{Locale} (r : result value) (s : string) :
  rbind r date_cell = Ok s -> well_escaped s = true.
Proof.
  destruct r as [v|]; cbn [rbind]; [|discriminate]. unfold date_cell.
  destruct (Js.to_primitive v); cbn [rbind]; [apply escapeHtml_escaped | discriminate].
Qed.

Lemma file_link_inv (f : json) (s : string) :
  file_link f = Ok s ->
  exists l, s = link_html l /\ well_escaped (fst l) = true /\ well_escaped (snd l) = true.
Proof.
  unfold file_link.
  destruct (rbind (Js.get (Some f) "path") escapeHtml) as [p|] eqn:Ep;
    cbn [rbind]; [|discriminate].
  destruct (rbind (Js.get (Some f) "originalname") escapeHtml) as [o|] eqn:Eo;
    cbn [rbind]; [|discriminate].
  intros [= <-]. exists (p, o). split; [reflexivity|].
  split; [exact (escaped_cell _ _ Ep) | exact (escaped_cell _ _ Eo)].
Qed.

Lemma filesHtml_inv (l : json) (s : string) :
  filesHtml l = Ok s ->
  exists links,
    s = String.concat " " (map link_html links)
    /\ Forall (fun l => well_escaped (fst l) = true /\ well_escaped (snd l) = true) links.
Proof.
  unfold filesHtml.
  destruct (Js.get (Some l) "files") as [fv|]; cbn [rbind]; [|discriminate].
  destruct (if Js.truthy fv then _ else _) as [fs|]; cbn [rbind]; [|discriminate].
  destruct (map_result file_link fs) as [links|] eqn:E; cbn [rbind]; [|discriminate].
  intros [= <-]. apply map_result_Forall2 in E.
  assert (Hlinks : exists ls,
             links = map link_html ls
             /\ Forall (fun l => well_escaped (fst l) = true /\ well_escaped (snd l) = true)
                  ls).
  { clear - E. induction E as [|f s fs links Hf Hfs (ls & -> & Hall)].
    - exists []. split; [reflexivity | constructor].
    - apply file_link_inv in Hf. destruct Hf as (l0 & -> & Hl0).
      exists (l0 :: ls). split; [reflexivity | now constructor]. }
  destruct Hlinks as (ls & -> & Hall). now exists ls.
Qed.

Lemma lead_row_inv `{Locale} (l : json) (s : string) :
  lead_row l = Ok s ->
  exists r, s = row_html r /\ row_escaped r /\ row_of_lead l r.
Proof.
  unfold lead_row.
  destruct (filesHtml l) as [files|] eqn:Ef; cbn [rbind]; [|discriminate].
  destruct (rbind (Js.get (Some l) "receivedAt") date_cell) as [date|] eqn:Ed;
    cbn [rbind]; [|discriminate].
  destruct (cell l "company") as [company|] eqn:E1; cbn [rbind]; [|discriminate].
  destruct (cell l "contactName") as [contactName|] eqn:E2; cbn [rbind]; [|discriminate].
  destruct (cell l "email") as [email|] eqn:E3; cbn [rbind]; [|discriminate].
  destruct (cell l "phone") as [phone|] eqn:E4; cbn [rbind]; [|discriminate].
  destruct (cell l "amount") as [amount|] eqn:E5; cbn [rbind]; [|discriminate].
  intros [= <-].
  apply filesHtml_inv in Ef. destruct Ef as (links & -> & Hlinks).
  exists (mkRow date company contactName email phone amount links).
  split; [reflexivity|]. split.
  - unfold row_escaped. cbn.
    repeat split; try exact Hlinks;
      first [exact (escaped_date _ _ Ed) | eapply escaped_cell; eassumption].
  - unfold row_of_lead. cbn. now repeat split.
Qed.

Lemma string_of_uint_escaped (u : uint) : well_escaped (NilEmpty.string_of_uint u) = true.
Proof. induction u; simpl; auto. Qed.

Lemma num_str_escaped (n : Z) : well_escaped (Js.num_str n) = true.
Proof.
  unfold Js.num_str. destruct n as [|p|p]; [reflexivity| |]; simpl;
    rewrite string_of_uint_nonnil by apply DecimalPos.Unsigned.to_uint_nonnil;
    apply string_of_uint_escaped.
Qed.

Lemma render_admin_inv `{Locale} (leads : json) (html : string) :
  render_admin leads = Ok html ->
  exists n ls rows,
    Js.iterate leads = Ok ls
    /\ html = page_head n ++ String.concat "" (map row_html rows) ++ page_foot
    /\ well_escaped n = true
    /\ Forall row_escaped rows
    /\ Forall2 row_of_lead ls rows.
Proof.
  unfold render_admin.
  destruct (rbind (Js.length leads) Js.String) as [n|] eqn:En; cbn [rbind]; [|discriminate].
  destruct (Js.iterate leads) as [ls|] eqn:Ei; cbn [rbind]; [|discriminate].
  destruct (map_result lead_row ls) as [rs|] eqn:Er; cbn [rbind]; [|discriminate].
  intros [= <-]. apply map_result_Forall2 in Er.
  assert (Hn : well_escaped n = true).
  { destruct leads; try discriminate Ei; cbn in En; injection En as <-;
      apply num_str_escaped. }
  assert (Hrows : exists rows, rs = map row_html rows /\ Forall row_escaped rows
                               /\ Forall2 row_of_lead ls rows).
  { clear - Er. induction Er as [|l s ls rs Hl Hls (rows & -> & Hesc & Hof)].
    - exists []. repeat split; constructor.
    - apply lead_row_inv in Hl. destruct Hl as (r & -> & Hr & Hlr).
      exists (r :: rows). repeat split; now constructor. }
  destruct Hrows as (rows & -> & Hesc & Hof).
  exists n, ls, rows. now repeat split.
Qed.

Lemma markup_link (l : string * string) :
  well_escaped (fst l) = true /\ well_escaped (snd l) = true ->
  markup_of (link_html l) = markup_of (link_html ("", "")).
Proof.
  intros [Hp Ho]. unfold link_html. cbn [fst snd].
  rewrite !markup_of_app.
  rewrite (well_escaped_no_markup _ Hp), (well_escaped_no_markup _ Ho). reflexivity.
Qed.

Lemma markup_links (links : list (string * string)) :
  Forall (fun l => well_escaped (fst l) = true /\ well_escaped (snd l) = true) links ->
  markup_of (String.concat " " (map link_html links))
  = markup_of (String.concat " " (map link_html (map (fun _ => ("", "")) links))).
Proof.
  induction 1 as [|l links Hl Hlinks IH]; [reflexivity|].
  destruct links as [|l' links].
  - cbn [map String.concat]. now apply markup_link.
  - change (String.concat " " (map link_html (l :: l' :: links)))
      with (link_html l ++ " " ++ String.concat " " (map link_html (l' :: links))).
    change (String.concat " "
              (map link_html (map (fun _ => ("", "")) (l :: l' :: links))))
      with (link_html ("", "") ++ " "
            ++ String.concat " "
                 (map link_html (map (fun _ => ("", "")) (l' :: links)))).
    rewrite !markup_of_app, IH, (markup_link l Hl). reflexivity.
Qed.

Lemma markup_row (r : Row) :
  row_escaped r -> markup_of (row_html r) = markup_of (row_html (blank r)).
Proof.
  intros (H1 & H2 & H3 & H4 & H5 & H6 & Hlinks).
  unfold row_html, blank.
  cbn [row_date row_company row_contactName row_email row_phone row_amount row_links].
  rewrite !markup_of_app.
  rewrite (well_escaped_no_markup _ H1), (well_escaped_no_markup _ H2),
    (well_escaped_no_markup _ H3), (well_escaped_no_markup _ H4),
    (well_escaped_no_markup _ H5), (well_escaped_no_markup _ H6),
    (markup_links _ Hlinks).
  reflexivity.
Qed.

Lemma markup_rows (rows : list Row) :
  Forall row_escaped rows ->
  markup_of (String.concat "" (map row_html rows))
  = markup_of (String.concat "" (map row_html (map blank rows))).
Proof.
  induction 1 as [|r rows Hr Hrows IH]; [reflexivity|].
  destruct rows as [|r' rows].
  - cbn [map String.concat]. now apply markup_row.
  - change (String.concat "" (map row_html (r :: r' :: rows)))
      with (row_html r ++ "" ++ String.concat "" (map row_html (r' :: rows))).
    change (String.concat "" (map row_html (map blank (r :: r' :: rows))))
      with (row_html (blank r) ++ ""
            ++ String.concat "" (map row_html (map blank (r' :: rows)))).
    rewrite !markup_of_app, IH, (markup_row r Hr). reflexivity.
Qed.

Lemma markup_page_head (n : string) :
  well_escaped n = true -> markup_of (page_head n) = markup_of (page_head "").
Proof.
  intros Hn. unfold page_head. rewrite !markup_of_app.
  rewrite (well_escaped_no_markup _ Hn). reflexivity.
Qed.

Lemma admin_run `{Locale} (w : World) :
  exists w',
    admin w
    = (match render_admin (stored (leads_file w)) with
       | Ok html => Ok (mkResponse 200 [] (Text html))
       | Throw e => Throw e
       end, w')
    /\ quiet w w'.
Proof.
  unfold admin. destruct (readLeads_run w) as (w' & E & Q).
  rewrite (bind_ok _ _ _ _ _ E). exists w'. split; [|exact Q].
  unfold bind, lift. now destruct (render_admin _).
Qed.

(** C7: whenever [GET /admin] serves the page, every text put into a
    table cell, a link address or a link label went through
    [escapeHtml], which leaves none of the characters < > double quote
    and single quote in it and no ampersand but the one starting an
    entity.  So the markup characters of the page are those of the
    template alone, whatever the leads hold; a field [<script>] comes
    out as [&lt;script&gt;]. *)
Theorem admin_page_escapes_fields `{Locale} (env : Env) (req : Request) (w w' : World)
    (html : string) :
  req_route req = Admin ->
  app env req w = (mkResponse 200 [] (Text html), w') ->
  exists n ls rows,
    Js.iterate (stored (leads_file w)) = Ok ls
    /\ html = page_head n ++ String.concat "" (map row_html rows) ++ page_foot
    /\ Forall2 row_of_lead ls rows
    /\ well_escaped n = true
    /\ Forall row_escaped rows
    /\ markup_of html
       = markup_of (page_head "" ++ String.concat "" (map row_html (map blank rows))
                    ++ page_foot)
    /\ (forall s, escapeHtml (Some (JStr s))
                  = Ok (replace_chars html_special html_entity s))
    /\ escapeHtml (Some (JStr "<script>")) = Ok "&lt;script&gt;".
Proof.
  intros Hroute Happ. unfold app, run_route in Happ. rewrite Hroute in Happ.
  unfold requireAuth in Happ.
  destruct (match req_auth req with Some _ => _ | None => _ end);
    [discriminate Happ|].
  destruct (admin_run w) as (w1 & E & _). rewrite E in Happ.
  destruct (render_admin (stored (leads_file w))) as [page|e] eqn:Er;
    [|discriminate Happ].
  injection Happ as -> _.
  apply render_admin_inv in Er. destruct Er as (n & ls & rows & Hi & -> & Hn & Hesc & Hof).
  exists n, ls, rows.
  split; [exact Hi|]. split; [reflexivity|]. split; [exact Hof|].
  split; [exact Hn|]. split; [exact Hesc|]. split; [|split; reflexivity].
  rewrite !markup_of_app, (markup_page_head n Hn), (markup_rows rows Hesc). reflexivity.
Qed.

Lemma admin_page_escapes_fields_witness :
  let env := mkEnv None None None None None false "/srv" in
  let req := mkRequest Admin (Some ("admin", "password")) None [] in
  let lead :=
    JObj [("id", JNum 1); ("receivedAt", JStr "2024-01-01T00:00:00.000Z");
          ("company", JStr "<script>alert(1)</script>"); ("contactName", JStr "O'Neil & Co");
          ("files", JArr [JObj [("path", JStr "uploads/1_a.pdf");
                                ("originalname", JStr "a<b>.pdf")]])] in
  let w := mkWorld (File (JSON.stringify (JArr [lead]))) true (fun _ => 0) 0 [] [] in
  let html := match body (fst (@app example_locale env req w)) with
              | Text s => s
              | _ => ""
              end in
  exists n ls rows,
    Js.iterate (stored (leads_file w)) = Ok ls
    /\ html = page_head n ++ String.concat "" (map row_html rows) ++ page_foot
    /\ Forall2 (@row_of_lead example_locale) ls rows
    /\ well_escaped n = true
    /\ Forall row_escaped rows
    /\ markup_of html
       = markup_of (page_head "" ++ String.concat "" (map row_html (map blank rows))
                    ++ page_foot)
    /\ (forall s, escapeHtml (Some (JStr s))
                  = Ok (replace_chars html_special html_entity s))
    /\ escapeHtml (Some (JStr "<script>")) = Ok "&lt;script&gt;".
Proof.
  intros env req lead w html.
  apply (@admin_page_escapes_fields example_locale env req w
           (snd (@app example_locale env req w)) html).
  - reflexivity.
  - vm_compute. reflexivity.
Defined.

(** ** The variant src/unnamed/part_000 *)

(** [upload.array('statements', 5)] lets a request through exactly
    when all its file parts come under [statements], there are at most
    as many as are left, and none is longer than [fileSize]. *)
Lemma upload_array_run (env : Env) (parts : list Part) (n : nat) (w : World) :
  exists r k,
    Part000.upload_array env n parts w = (r, advance k w)
    /\ match r with
       | Ok fs =>
           k = List.length parts
           /\ (List.length parts <= n)%nat
           /\ Forall (fun p => part_size p <= Part000.fileSize) parts
           /\ Forall (fun p => part_fieldname p = "statements") parts
           /\ map file_size fs = map part_size parts
       | Throw e =>
           ((n < List.length parts)%nat
            \/ Exists (fun p => Part000.fileSize < part_size p) parts
            \/ Exists (fun p => part_fieldname p <> "statements") parts)
           /\ exists code, e = MulterError code
       end.
Proof.
  revert n w. induction parts as [|p ps IH]; intros n w; cbn [Part000.upload_array].
  - exists (Ok []), 0%nat. rewrite advance_0. split; [reflexivity|].
    cbn. repeat split; [lia | constructor | constructor].
  - destruct (String.eqb_spec (part_fieldname p) "statements") as [Hf|Hf]; cbn [negb].
    2: { exists (Throw (MulterError "LIMIT_UNEXPECTED_FILE")), 0%nat. rewrite advance_0.
         split; [reflexivity|]. split; [right; right; now constructor | eauto]. }
    destruct n as [|n].
    { exists (Throw (MulterError "LIMIT_UNEXPECTED_FILE")), 0%nat. rewrite advance_0.
      split; [reflexivity|]. split; [left; cbn; lia | eauto]. }
    rewrite (bind_ok _ _ _ _ _ (store_run env p w)).
    destruct (Part000.fileSize <? part_size p) eqn:Es.
    + exists (Throw (MulterError "LIMIT_FILE_SIZE")), 1%nat.
      split; [reflexivity|]. apply Z.ltb_lt in Es.
      split; [right; left; now constructor | eauto].
    + apply Z.ltb_ge in Es.
      destruct (IH n (tick w)) as (r & k & E & Hr).
      rewrite advance_tick in E.
      destruct r as [fs|e].
      * rewrite (bind_ok _ _ _ _ _ E).
        eexists (Ok _), (S k). split; [reflexivity|].
        destruct Hr as (-> & Hn & Hall & Hfields & Hsizes).
        cbn [List.length map file_size].
        repeat split; [lia | now constructor | now constructor | now rewrite Hsizes].
      * rewrite (bind_throw _ _ _ _ _ E).
        exists (Throw e), (S k). split; [reflexivity|].
        destruct Hr as ([Hn | [Hex | Hex]] & Hcode); (split; [|exact Hcode]).
        -- left. cbn [List.length]. lia.
        -- right. left. now constructor.
        -- right. right. now constructor.
Qed.

(** On src/unnamed/part_000 a failing write reaches the handler's
    catch: the answer is 500 with [{ok:false, message}], and the
    handler does not answer [{ok:true, id}]. *)
Theorem part000_submit_reports_write_failure `{Locale} (env : Env) (req : Request)
    (w : World) :
  req_route req = Submit ->
  (List.length (req_parts req) <= 5)%nat ->
  Forall (fun p => part_size p <= Part000.fileSize) (req_parts req) ->
  Forall (fun p => part_fieldname p = "statements") (req_parts req) ->
  disk_ok w = false ->
  exists w',
    app000 env req w = (server_error, w')
    /\ status server_error = 500
    /\ body server_error
       = Json (JObj [("ok", JBool false); ("message", JStr "Server error")])
    /\ leads_file w' = leads_file w.
Proof.
  intros Hroute Hn Hsizes Hfields Hdisk. unfold app000, run_route. rewrite Hroute.
  destruct (upload_array_run env (req_parts req) 5 w) as (r & k & E & Hr).
  destruct r as [uploaded|e].
  - rewrite (bind_ok _ _ _ _ _ E).
    destruct (part000_submit_run env req uploaded (advance k w))
      as (res & w' & E' & _ & _ & _ & Hres).
    rewrite E'. exists w'.
    destruct Hres as [(_ & Hok & _) | (-> & Hfile & _)].
    + cbn in Hok. congruence.
    + now repeat split.
  - exfalso. destruct Hr as ([Hmany | [Hbig | Hfield]] & _).
    + lia.
    + apply Exists_exists in Hbig. destruct Hbig as (p & Hp & Hbig).
      rewrite Forall_forall in Hsizes. specialize (Hsizes p Hp). lia.
    + apply Exists_exists in Hfield. destruct Hfield as (p & Hp & Hfield).
      rewrite Forall_forall in Hfields. now specialize (Hfields p Hp).
Qed.

Lemma part000_submit_reports_write_failure_witness :
  let env := mkEnv None None None None None false "/srv" in
  let req := mkRequest Submit None (Some (JObj [("company", JStr "ACME")])) [] in
  let w := mkWorld Absent false (fun _ => 1700000000000) 0 [] [] in
  exists w',
    @app000 example_locale env req w = (server_error, w')
    /\ status server_error = 500
    /\ body server_error
       = Json (JObj [("ok", JBool false); ("message", JStr "Server error")])
    /\ leads_file w' = leads_file w.
Proof.
  intros env req w.
  apply (@part000_submit_reports_write_failure example_locale env req w).
  - reflexivity.
  - vm_compute. lia.
  - constructor.
  - constructor.
  - reflexivity.
Defined.

(** On src/unnamed/part_000 the member [contactName] of the lead is
    the body field [name] alone: a body field [contactName] has no
    part in the lead. *)
Theorem part000_contactName_from_name `{Locale} (id t : Z) (req : Request)
    (files : list json) :
  exists lead,
    Part000.mk_lead id t (body_of req) files = Ok (JObj lead)
    /\ Js.lookup "contactName" lead = Some (or_empty (field (body_of req) "name"))
    /\ (forall req',
          (forall k, In k ["company"; "name"; "phone"; "email"; "amount"; "sector";
                           "message"] ->
                     field (body_of req') k = field (body_of req) k) ->
          Part000.mk_lead id t (body_of req') files = Ok (JObj lead)).
Proof.
  eexists. split; [apply mk_lead000_ok, body_of_truthy|]. split; [reflexivity|].
  intros req' Hsame.
  rewrite (mk_lead000_ok _ _ _ _ (body_of_truthy req')). unfold lead_of_body000.
  rewrite !Hsame by (cbn; tauto). reflexivity.
Qed.

(** ** Stored uploads *)

Lemma all_chars_app (cls : ascii -> bool) (a b : string) :
  all_chars cls (a ++ b) = all_chars cls a && all_chars cls b.
Proof.
  induction a as [|c a IH]; simpl; [reflexivity|]. now rewrite IH, andb_assoc.
Qed.

Lemma all_chars_impl (P Q : ascii -> bool) (s : string) :
  (forall c, P c = true -> Q c = true) -> all_chars P s = true -> all_chars Q s = true.
Proof.
  intros HPQ. induction s as [|c s IH]; simpl; [reflexivity|].
  intros H. apply andb_prop in H. destruct H as [Hc Hs].
  now rewrite (HPQ c Hc), IH.
Qed.

Lemma replace_chars_none (cls : ascii -> bool) (f : ascii -> string) (s : string) :
  all_chars (fun c => negb (cls c)) s = true -> replace_chars cls f s = s.
Proof.
  induction s as [|c s IH]; simpl; [reflexivity|].
  intros H. apply andb_prop in H. destruct H as [Hc Hs].
  apply negb_true_iff in Hc. rewrite Hc, IH by exact Hs. reflexivity.
Qed.


Lemma sanitize_map_chars (s : string) :
  replace_chars (fun c => negb (safe_char c)) (fun _ => "_") s
  = map_chars underscore_unsafe s.
Proof.
  induction s as [|c s IH]; simpl; [reflexivity|].
  unfold underscore_unsafe at 1. destruct (safe_char c); simpl; now rewrite IH.
Qed.

Lemma map_chars_safe (s : string) : all_chars safe_char (map_chars underscore_unsafe s) = true.
Proof.
  induction s as [|c s IH]; simpl; [reflexivity|].
  now rewrite underscore_unsafe_safe, IH.
Qed.

Lemma string_of_uint_numeral (u : uint) :
  all_chars numeral_char (NilEmpty.string_of_uint u) = true.
Proof. induction u; simpl; auto. Qed.

Lemma num_str_numeral (n : Z) : all_chars numeral_char (Js.num_str n) = true.
Proof.
  unfold Js.num_str. destruct n as [|p|p]; [reflexivity| |]; simpl;
    rewrite string_of_uint_nonnil by apply DecimalPos.Unsigned.to_uint_nonnil;
    apply string_of_uint_numeral.
Qed.

Ltac each_char c :=
  destruct c as [[] [] [] [] [] [] [] []]; vm_compute; congruence.

Lemma numeral_char_safe (c : ascii) : numeral_char c = true -> safe_char c = true.
Proof. each_char c. Qed.

Lemma numeral_char_not_underscore (c : ascii) :
  numeral_char c = true -> negb (c =? "_")%char = true.
Proof. each_char c. Qed.

Lemma safe_char_not_special (c : ascii) :
  safe_char c = true -> negb (html_special c) = true.
Proof. each_char c. Qed.

Lemma safe_char_not_bslash (c : ascii) :
  safe_char c = true -> negb (c =? JSON.bslash)%char = true.
Proof. each_char c. Qed.

Lemma safe_char_not_slash (c : ascii) :
  safe_char c = true -> negb (c =? "/")%char = true.
Proof. each_char c. Qed.

Lemma filename_map_chars (ts : Z) (originalname : string) :
  filename ts originalname
  = Js.num_str ts ++ "_" ++ map_chars underscore_unsafe originalname.
Proof. unfold filename. now rewrite sanitize_map_chars. Qed.

Lemma filename_safe (ts : Z) (originalname : string) :
  all_chars safe_char (filename ts originalname) = true.
Proof.
  rewrite filename_map_chars, !all_chars_app, map_chars_safe.
  rewrite (all_chars_impl _ _ _ numeral_char_safe (num_str_numeral ts)). reflexivity.
Qed.

(** A numeral ends at the first underscore. *)
Lemma split_at_underscore (s1 s2 x y : string) :
  all_chars (fun c => negb (c =? "_")%char) s1 = true ->
  all_chars (fun c => negb (c =? "_")%char) s2 = true ->
  s1 ++ String "_" x = s2 ++ String "_" y -> s1 = s2 /\ x = y.
Proof.
  revert s2. induction s1 as [|c s1 IH]; intros [|c' s2]; simpl; intros H1 H2 E.
  - injection E as ->. now split.
  - injection E as <- _. discriminate H2.
  - injection E as -> _. discriminate H1.
  - injection E as <- E. apply andb_prop in H1, H2.
    destruct (IH s2 (proj2 H1) (proj2 H2) E) as [-> ->]. now split.
Qed.

Lemma num_str_inj (a b : Z) : Js.num_str a = Js.num_str b -> a = b.
Proof.
  unfold Js.num_str. intros E. apply DecimalZ.to_int_inj.
  assert (Hnn : forall n, Z.to_int n <> Pos Nil /\ Z.to_int n <> Neg Nil).
  { intros [|p|p]; simpl; split; try discriminate;
      intros [= Hp]; now apply DecimalPos.Unsigned.to_uint_nonnil in Hp. }
  pose proof (NilZero.isi _ (proj1 (Hnn a)) (proj2 (Hnn a))) as Ha.
  pose proof (NilZero.isi _ (proj1 (Hnn b)) (proj2 (Hnn b))) as Hb.
  rewrite E in Ha. rewrite Ha in Hb. now injection Hb.
Qed.

(** Two uploads are stored under one name exactly when they are named
    at the same reading of the clock and their original names agree
    after the replacement: files named at different readings never
    overwrite each other, whereas two names that differ only in
    characters outside the class collide within a millisecond. *)
Theorem stored_name_collision (ts1 ts2 : Z) (a b : string) :
  filename ts1 a = filename ts2 b
  <-> ts1 = ts2 /\ map_chars underscore_unsafe a = map_chars underscore_unsafe b.
Proof.
  rewrite !filename_map_chars. split.
  - intros E. apply split_at_underscore in E.
    + destruct E as [E1 E2]. split; [now apply num_str_inj | exact E2].
    + exact (all_chars_impl _ _ _ numeral_char_not_underscore (num_str_numeral ts1)).
    + exact (all_chars_impl _ _ _ numeral_char_not_underscore (num_str_numeral ts2)).
  - now intros [-> ->].
Qed.

Lemma append_empty_r (s : string) : (s ++ "")%string = s.
Proof. induction s as [|c s IH]; simpl; [reflexivity | now rewrite IH]. Qed.

Lemma basename_from_segment (p last cur : string) :
  all_chars (fun c => negb (c =? "/")%char) p = true ->
  basename_from last cur p = if (cur ++ p =? "")%string then last else cur ++ p.
Proof.
  revert cur. induction p as [|c p IH]; intros cur; simpl.
  - intros _. rewrite append_empty_r. destruct cur; reflexivity.
  - intros H. apply andb_prop in H. destruct H as [Hc Hp].
    apply negb_true_iff in Hc. rewrite Hc, IH by exact Hp.
    assert (E : ((cur ++ String c "") ++ p = cur ++ String c p)%string).
    { clear. induction cur as [|a cur IH]; simpl; [reflexivity | now rewrite IH]. }
    now rewrite E.
Qed.

Lemma basename_from_dir (dir rest last cur : string) :
  exists last', basename_from last cur (dir ++ String "/" rest) = basename_from last' "" rest.
Proof.
  revert last cur. induction dir as [|c dir IH]; intros last cur; simpl.
  - eexists. reflexivity.
  - destruct (c =? "/")%char; apply IH.
Qed.

(** [path.basename] of a file in a directory is the name of the file. *)
Lemma basename_in_dir (dir name : string) :
  all_chars (fun c => negb (c =? "/")%char) name = true -> name <> "" ->
  basename (dir ++ "/" ++ name) = name.
Proof.
  intros Hname Hne. unfold basename.
  change (dir ++ "/" ++ name)%string with (dir ++ String "/" name)%string.
  destruct (basename_from_dir dir name "" "") as (last' & ->).
  rewrite basename_from_segment by exact Hname. simpl.
  destruct (String.eqb_spec name ""); [contradiction | reflexivity].
Qed.

Lemma filename_has_underscore (ts : Z) (originalname : string) :
  all_chars (fun c => negb (c =? "_")%char) (filename ts originalname) = false.
Proof.
  rewrite filename_map_chars, all_chars_app. simpl. now rewrite andb_false_r.
Qed.

Lemma file_entry_stored (env : Env) (p : Part) (ts : Z) :
  file_entry
    (mkUploadedFile (part_fieldname p) (part_originalname p) (part_mimetype p)
       (part_size p) (filename ts (part_originalname p))
       (UPLOAD_DIR env ++ "/" ++ filename ts (part_originalname p)))
  = stored_file ts p.
Proof.
  unfold file_entry, stored_file. cbn [file_path file_originalname file_mimetype file_size].
  pose proof (filename_safe ts (part_originalname p)) as Hsafe.
  pose proof (filename_has_underscore ts (part_originalname p)) as Hus.
  rewrite basename_in_dir.
  2: exact (all_chars_impl _ _ _ safe_char_not_slash Hsafe).
  2: { intros E. rewrite E in Hus. discriminate Hus. }
  unfold join_uploads.
  destruct (String.eqb_spec (filename ts (part_originalname p)) "") as [E|_];
    [rewrite E in Hus; discriminate Hus|].
  destruct (String.eqb_spec (filename ts (part_originalname p)) ".") as [E|_];
    [rewrite E in Hus; discriminate Hus|].
  destruct (String.eqb_spec (filename ts (part_originalname p)) "..") as [E|_];
    [rewrite E in Hus; discriminate Hus|].
  cbn [orb]. rewrite replace_chars_none.
  - now rewrite filename_map_chars.
  - rewrite all_chars_app.
    now rewrite (all_chars_impl _ _ _ safe_char_not_bslash Hsafe).
Qed.

(** The path a lead records for an uploaded file is [uploads/] followed
    by the name the file has on disk, whatever the original name held
    (slashes, dots, quotes): the stored name has characters of the
    class [[A-Za-z0-9.\-_]] only, so [path.basename], [path.join] and
    [escapeHtml] leave it as it is, and the link of the admin page
    leads to [/uploads/] and that name. *)
Theorem upload_path_in_lead (env : Env) (p : Part) (w : World) :
  exists (f : UploadedFile) (w' : World),
    store env p w = (Ok f, w')
    /\ all_chars safe_char (file_filename f) = true
    /\ file_entry f = stored_file (clock w (ticks w)) p
    /\ Js.get (Some (file_entry f)) "path" = Ok (Some (JStr ("uploads/" ++ file_filename f)))
    /\ file_link (file_entry f)
       = Ok (link_html ("uploads/" ++ file_filename f,
                        replace_chars html_special html_entity (part_originalname p))).
Proof.
  eexists _, _. split; [apply store_run|]. cbn [file_filename].
  split; [apply filename_safe|].
  rewrite file_entry_stored. split; [reflexivity|].
  unfold stored_file. rewrite <- filename_map_chars.
  split; [reflexivity|].
  unfold file_link. cbn [Js.get Js.lookup String.eqb Ascii.eqb Bool.eqb rbind].
  unfold escapeHtml. cbn [Js.String Js.to_string rbind].
  rewrite (replace_chars_none html_special html_entity ("uploads/" ++ _)).
  - reflexivity.
  - rewrite all_chars_app.
    now rewrite (all_chars_impl _ _ _ safe_char_not_special
                   (filename_safe (clock w (ticks w)) (part_originalname p))).
Qed.

Lemma upload_any_files (env : Env) (parts : list Part) (n : nat) (w w1 : World)
    (fs : list UploadedFile) :
  Server.upload_any env n parts w = (Ok fs, w1) ->
  map file_entry fs = stored_files (clock w) (ticks w) parts.
Proof.
  revert n w w1 fs. induction parts as [|p ps IH]; intros n w w1 fs; cbn [Server.upload_any].
  - intros [= <- _]. reflexivity.
  - destruct (Server.files <=? n)%nat; [discriminate|].
    rewrite (bind_ok _ _ _ _ _ (store_run env p w)).
    destruct (Server.fileSize <? part_size p); [discriminate|].
    destruct (Server.upload_any env (S n) ps (tick w)) as [[fs'|e] w2] eqn:E.
    + rewrite (bind_ok _ _ _ _ _ E). intros [= <- _].
      cbn [map stored_files]. rewrite file_entry_stored.
      now rewrite (IH _ _ _ _ E).
    + rewrite (bind_throw _ _ _ _ _ E). discriminate.
Qed.




(** ** Escaped texts *)

Lemma unescape_entity (c : ascii) (s : string) :
  html_special c = true ->
  unescape 0 (html_entity c ++ s) = String c (unescape 0 s).
Proof.
  unfold html_special, html_entity.
  destruct (Ascii.eqb_spec c "&") as [->|_]; [reflexivity|].
  destruct (Ascii.eqb_spec c "<") as [->|_]; [reflexivity|].
  destruct (Ascii.eqb_spec c ">") as [->|_]; [reflexivity|].
  destruct (Ascii.eqb_spec c JSON.dquote) as [->|_]; [reflexivity|].
  destruct (Ascii.eqb_spec c "'") as [->|_]; [reflexivity|].
  discriminate.
Qed.

Lemma unescape_plain (c : ascii) (s : string) :
  html_special c = false -> unescape 0 (String c s) = String c (unescape 0 s).
Proof.
  unfold html_special. cbn [unescape].
  destruct (c =? "&")%char; [discriminate | reflexivity].
Qed.

Lemma unescape_replace_chars (s : string) :
  unescapeHtml (replace_chars html_special html_entity s) = s.
Proof.
  unfold unescapeHtml. induction s as [|c s IH]; [reflexivity|]. cbn [replace_chars].
  destruct (html_special c) eqn:E.
  - now rewrite unescape_entity, IH.
  - change (String c "" ++ replace_chars html_special html_entity s)%string
      with (String c (replace_chars html_special html_entity s)).
    now rewrite unescape_plain, IH.
Qed.

(** [escapeHtml] loses nothing of a text: reading the five entities
    back gives the text again, so two different texts are never shown
    alike; and a text without the five characters is left as it is. *)
Theorem escapeHtml_round_trip (s : string) :
  exists t,
    escapeHtml (Some (JStr s)) = Ok t
    /\ well_escaped t = true
    /\ unescapeHtml t = s
    /\ (all_chars (fun c => negb (html_special c)) s = true -> t = s)
    /\ (forall s', escapeHtml (Some (JStr s')) = Ok t -> s' = s).
Proof.
  exists (replace_chars html_special html_entity s).
  split; [reflexivity|]. split; [apply replace_chars_escaped|].
  split; [apply unescape_replace_chars|].
  split; [apply replace_chars_none|].
  intros s' E. unfold escapeHtml in E. cbn in E. injection E as E.
  rewrite <- (unescape_replace_chars s'), E. apply unescape_replace_chars.
Qed.

(** ** The console and the mailer *)

Lemma logged_nil (w : World) : logged [] w = w.
Proof. destruct w. unfold logged. cbn. now rewrite app_nil_r. Qed.

Lemma logged_logged (a b : list string) (w : World) :
  logged b (logged a w) = logged (a ++ b) w.
Proof. unfold logged. cbn. now rewrite app_assoc. Qed.

(** [readLeads], with what it logs. *)
Lemma readLeads_trace (w : World) :
  readLeads w = (Ok (stored (leads_file w)), logged (read_log (leads_file w)) w).
Proof.
  unfold readLeads, try_catch, bind, existsSync, readFileSync, JSON_parse, stored, read_log.
  destruct w as [f d c t l o]; cbn [leads_file].
  destruct f as [|raw|]; cbn.
  - unfold logged. cbn. now rewrite app_nil_r.
  - destruct (JSON.parse _); cbn; [|reflexivity].
    unfold logged. cbn. now rewrite app_nil_r.
  - reflexivity.
Qed.

(** [saveLead] of src/server.js, with what it logs. *)
Lemma server_saveLead_trace (lead : json) (w : World) :
  exists w',
    Server.saveLead lead w = (Ok tt, w')
    /\ leads_file w' = (if disk_ok w then saved lead (leads_file w) else leads_file w)
    /\ disk_ok w' = disk_ok w /\ clock w' = clock w /\ ticks w' = ticks w
    /\ console w' = (console w ++ save_log w)%list
    /\ outbox w' = outbox w.
Proof.
  unfold Server.saveLead, try_catch, saved, save_log.
  rewrite (bind_ok _ _ _ _ _ (readLeads_trace w)).
  unfold bind, lift, unshift, writeFileSync, console_error, logged.
  destruct (stored (leads_file w)); cbn; destruct (disk_ok w); cbn;
    (eexists; split; [reflexivity|]; cbn; rewrite <- ?app_assoc, ?app_nil_r;
     now repeat split).
Qed.

Lemma plain_field (body : value) (k : string) :
  plain_form body = true ->
  field body k = None \/ exists s, field body k = Some (JStr s).
Proof.
  destruct body as [[| | | | |m]|]; try discriminate. cbn [plain_form field].
  induction m as [|[k' v] m IH]; cbn [forallb Js.lookup snd]; [now left|].
  intros H. apply andb_prop in H. destruct H as [Hv Hm].
  destruct (k =? k')%string; [|now apply IH].
  destruct v; try discriminate. right. now eexists.
Qed.

Lemma or_empty_plain (body : value) (k : string) :
  plain_form body = true -> or_empty (field body k) = JStr (text_of (field body k)).
Proof.
  intros Hb. destruct (plain_field body k Hb) as [-> | (s & ->)]; [reflexivity|].
  unfold or_empty, Js.or. cbn. destruct (String.eqb_spec s ""); subst; reflexivity.
Qed.

Lemma or_empty_or_plain (body : value) (k k' : string) :
  plain_form body = true ->
  or_empty (Js.or (field body k) (field body k'))
  = JStr (first_text (text_of (field body k)) (text_of (field body k'))).
Proof.
  intros Hb. unfold Js.or at 1, first_text.
  destruct (plain_field body k Hb) as [-> | (s & ->)]; cbn [Js.truthy text_of].
  - cbn. now apply or_empty_plain.
  - destruct (String.eqb_spec s ""); cbn [negb]; [now apply or_empty_plain|].
    unfold or_empty, Js.or. cbn. destruct (String.eqb_spec s ""); [contradiction|reflexivity].
Qed.

Lemma lead_of_plain_body `{Locale} (id t : Z) (body : value) (files : list json) :
  plain_form body = true ->
  lead_of_body id t body files
  = JObj
      [("id", JNum id);
       ("receivedAt", JStr (toISOString t));
       ("company", JStr (text_of (field body "company")));
       ("contactName",
        JStr (first_text (text_of (field body "name")) (text_of (field body "contactName"))));
       ("phone", JStr (text_of (field body "phone")));
       ("email", JStr (text_of (field body "email")));
       ("amount", JStr (text_of (field body "amount")));
       ("sector", JStr (text_of (field body "sector")));
       ("message", JStr (text_of (field body "message")));
       ("files", JArr files)].
Proof.
  intros Hb. unfold lead_of_body.
  now rewrite !(or_empty_plain body _ Hb), (or_empty_or_plain body _ _ Hb).
Qed.

Lemma originalnames_of_entries (uploaded : list UploadedFile) :
  rbind (map_result (fun f => Js.get (Some f) "originalname") (map file_entry uploaded))
    (Js.join ", ")
  = Ok (String.concat ", " (map file_originalname uploaded)).
Proof.
  assert (E : map_result (fun f => Js.get (Some f) "originalname") (map file_entry uploaded)
              = Ok (map (fun f => Some (JStr (file_originalname f))) uploaded)).
  { induction uploaded as [|f fs IH]; [reflexivity|].
    cbn [map map_result]. rewrite IH. reflexivity. }
  rewrite E. cbn [rbind]. clear E.
  induction uploaded as [|f fs IH]; [reflexivity|].
  destruct fs as [|f' fs]; [reflexivity|].
  change (Js.join ", " (map (fun f => Some (JStr (file_originalname f))) (f :: f' :: fs)))
    with (let? a := Ok (file_originalname f) in
          let? b := Js.join ", " (map (fun f => Some (JStr (file_originalname f))) (f' :: fs)) in
          Ok (a ++ ", " ++ b))%result.
  rewrite IH. reflexivity.
Qed.

(** The notification of a plain form: one call of [sendMail] when the
    module is there, one line on the console when it is not. *)
Lemma notify_plain `{Locale} (env : Env) (id t : Z) (body : value)
    (uploaded : list UploadedFile) (parts : list Part) (w : World) :
  plain_form body = true ->
  map file_originalname uploaded = map part_originalname parts ->
  notify env (lead_of_body id t body (map file_entry uploaded)) (map file_entry uploaded) w
  = (Ok tt,
     if notifying env then
       if nodemailer env then mailed (notification env body parts) w
       else logged ["nodemailer missing or error"] w
     else w).
Proof.
  intros Hb Hnames. unfold notify. fold (notifying env).
  destruct (notifying env); [|reflexivity].
  destruct (nodemailer env); [|reflexivity].
  rewrite (lead_of_plain_body _ _ _ _ Hb).
  unfold try_catch, bind, lift.
  rewrite originalnames_of_entries, Hnames.
  cbn [Js.get Js.lookup String.eqb Ascii.eqb Bool.eqb rbind Js.String Js.to_string].
  unfold Js.or, notification. cbn [Js.truthy].
  set (company := text_of (field body "company")).
  set (contact := first_text _ _).
  unfold first_text at 1 2.
  destruct (company =? "")%string eqn:Ec; cbn [negb Js.truthy]; rewrite ?Ec; cbn [negb];
    destruct (contact =? "")%string eqn:Ek; cbn [negb Js.truthy]; rewrite ?Ek; reflexivity.
Qed.

Lemma notify_frame (env : Env) (lead : json) (files : list json) (w : World) :
  quiet w (snd (notify env lead files w)).
Proof. destruct (notify_run env lead files w) as (w' & -> & Q). exact Q. Qed.

Lemma notify_silent (env : Env) (lead : json) (files : list json) (w : World) :
  notifying env && nodemailer env = false ->
  outbox (snd (notify env lead files w)) = outbox w.
Proof.
  unfold notify. fold (notifying env). destruct (notifying env); [|reflexivity].
  destruct (nodemailer env); [discriminate | reflexivity].
Qed.

(** The handler of src/server.js, with the world it leaves. *)
Lemma server_submit_trace `{Locale} (env : Env) (req : Request)
    (uploaded : list UploadedFile) (w : World) :
  let id := clock w (ticks w) in
  let files := map file_entry uploaded in
  let lead := lead_of_body id (clock w (S (ticks w))) (body_of req) files in
  Server.submit env req uploaded w
  = (Ok (accepted id),
     snd (notify env lead files (snd (Server.saveLead lead (tick (tick w)))))).
Proof.
  intros id files lead. unfold Server.submit, try_catch. fold (body_of req).
  rewrite (bind_ok _ _ _ _ _ (Date_now_run w)).
  rewrite (bind_ok _ _ _ _ _ (Date_now_run (tick w))).
  cbn [tick clock ticks].
  unfold lift at 1. rewrite (mk_lead_ok _ _ _ _ (body_of_truthy req)).
  fold id. fold files. fold lead. unfold bind at 1.
  destruct (server_saveLead_run lead (tick (tick w))) as (w1 & E1 & _).
  rewrite (bind_ok _ _ _ _ _ E1), E1. cbn [snd].
  destruct (notify_run env lead files w1) as (w2 & E2 & _).
  rewrite (bind_ok _ _ _ _ _ E2), E2. cbn [snd].
  unfold lead at 1, lead_of_body at 1. now rewrite submitted_run.
Qed.

Lemma within_limits (parts : list Part) :
  (List.length parts <= Server.files)%nat ->
  Forall (fun p => part_size p <= Server.fileSize) parts ->
  ~ ((Server.files < List.length parts)%nat \/ Exists too_big parts).
Proof.
  intros Hn Hsizes [Hmany | Hbig]; [lia|].
  apply Exists_exists in Hbig. destruct Hbig as (p & Hp & Hbig).
  rewrite Forall_forall in Hsizes. specialize (Hsizes p Hp). unfold too_big in Hbig. lia.
Qed.

(** A submission within the limits, with the world it leaves. *)
Lemma server_app_trace `{Locale} (env : Env) (req : Request) (w : World) :
  req_route req = Submit ->
  (List.length (req_parts req) <= Server.files)%nat ->
  Forall (fun p => part_size p <= Server.fileSize) (req_parts req) ->
  let n := List.length (req_parts req) in
  let id := clock w (n + ticks w) in
  let files := stored_files (clock w) (ticks w) (req_parts req) in
  let lead := lead_of_body id (clock w (S (n + ticks w))) (body_of req) files in
  exists uploaded,
    map file_entry uploaded = files
    /\ map file_originalname uploaded = map part_originalname (req_parts req)
    /\ app env req w
       = (accepted id,
          snd (notify env lead files (snd (Server.saveLead lead (advance (S (S n)) w))))).
Proof.
  intros Hroute Hn Hsizes n id files lead. unfold app, run_route. rewrite Hroute.
  destruct (upload_any_run env (req_parts req) 0 w) as (r & k & E & Hr);
    [unfold Server.files; lia|].
  destruct r as [uploaded|e].
  - destruct Hr as (-> & _ & _ & Hnames & _).
    exists uploaded. split; [exact (upload_any_files _ _ _ _ _ _ E)|].
    split; [exact Hnames|].
    rewrite (bind_ok _ _ _ _ _ E), server_submit_trace.
    rewrite (upload_any_files _ _ _ _ _ _ E). reflexivity.
  - exfalso. destruct Hr as (Hwhy & _). now apply (within_limits _ Hn Hsizes).
Qed.

(** The notification goes out with every submission that reaches the
    handler, whether or not the lead was written: when [NOTIFY_EMAIL]
    and [SMTP_HOST] are set and nodemailer is installed, [sendMail] is
    called once, to [NOTIFY_EMAIL], from [SMTP_FROM] if set and from
    [NOTIFY_EMAIL] otherwise, with the company, or else the contact, or
    else [Unknown] in the subject, and the fields and the original
    names of the files in the text. *)
Theorem submission_sends_notification `{Locale} (env : Env) (req : Request) (w : World) :
  req_route req = Submit ->
  (List.length (req_parts req) <= Server.files)%nat ->
  Forall (fun p => part_size p <= Server.fileSize) (req_parts req) ->
  plain_form (body_of req) = true ->
  notifying env = true ->
  nodemailer env = true ->
  exists id w',
    app env req w = (accepted id, w')
    /\ outbox w' = (outbox w ++ [notification env (body_of req) (req_parts req)])%list
    /\ NOTIFY_EMAIL env = Some (mail_to (notification env (body_of req) (req_parts req))).
Proof.
  intros Hroute Hn Hsizes Hplain Hon Hmod.
  destruct (server_app_trace env req w Hroute Hn Hsizes) as (up & Hfiles & Hnames & E).
  cbv zeta in E. rewrite <- Hfiles in E.
  rewrite (notify_plain env _ _ _ up (req_parts req) _ Hplain Hnames) in E.
  rewrite Hon, Hmod in E. cbn [snd] in E.
  eexists _, _. split; [exact E|]. split.
  - cbn [mailed outbox].
    destruct (server_saveLead_trace
                (lead_of_body (clock w (List.length (req_parts req) + ticks w))
                   (clock w (S (List.length (req_parts req) + ticks w)))
                   (body_of req) (map file_entry up))
                (advance (S (S (List.length (req_parts req)))) w))
      as (w1 & E1 & _ & _ & _ & _ & _ & Ho).
    rewrite E1. cbn [snd]. now rewrite Ho.
  - unfold notification. cbn [mail_to]. unfold notifying in Hon.
    apply andb_prop in Hon. destruct Hon as [Hto _].
    unfold env_set in Hto. unfold env_or. destruct (NOTIFY_EMAIL env) as [s|]; [|discriminate].
    now destruct (s =? "")%string.
Qed.

Lemma submission_sends_notification_witness :
  let env := mkEnv None None (Some "desk@avalonic.example") (Some "smtp.example") None true
               "/srv" in
  let req := mkRequest Submit None
               (Some (JObj [("name", JStr "Wile"); ("email", JStr "wile@acme.example")]))
               [mkPart "statements" "q1 2024.pdf" "application/pdf" 2048] in
  let w := mkWorld Absent false (fun _ => 1700000000000) 0 [] [] in
  exists id w',
    @app example_locale env req w = (accepted id, w')
    /\ outbox w' = (outbox w ++ [notification env (body_of req) (req_parts req)])%list
    /\ NOTIFY_EMAIL env = Some (mail_to (notification env (body_of req) (req_parts req))).
Proof.
  intros env req w.
  apply (@submission_sends_notification example_locale env req w).
  - reflexivity.
  - vm_compute. lia.
  - repeat constructor. vm_compute. discriminate.
  - reflexivity.
  - reflexivity.
  - reflexivity.
Defined.

(** *** What the handlers throw *)

(** The one exception a conversion to a string raises. *)
Lemma to_string_throws (v : json) (e : exn) : Js.to_string v = Throw e -> e = TypeError.
Proof.
  revert e. induction v as [| | | |l IH|m _] using json_ind; intros e; cbn [Js.to_string];
    try discriminate.
  - destruct b; discriminate.
  - induction IH as [|x l Hx Hl IHl]; [discriminate|].
    assert (Helem : forall e0,
               match x with JNull => Ok ""%string | _ => Js.to_string x end = Throw e0 ->
               e0 = TypeError).
    { intros e0. destruct x; try discriminate; apply Hx. }
    destruct l as [|y l]; [apply Helem|].
    destruct (match x with JNull => Ok ""%string | _ => Js.to_string x end) as [a|e0];
      cbn [rbind]; [|intros [= <-]; now apply Helem].
    match goal with
    | |- context [rbind ?r _] => destruct r as [b|e1] eqn:Er
    end; cbn [rbind]; [discriminate|].
    intros [= <-]. now apply IHl.
  - destruct (Js.lookup "toString" m); [now intros [= <-] | discriminate].
Qed.

Lemma escapeHtml_throws (v : value) (e : exn) : escapeHtml v = Throw e -> e = TypeError.
Proof.
  unfold escapeHtml. destruct v as [j|]; [|discriminate]. cbn [Js.String].
  destruct (Js.to_string j) eqn:E; cbn [rbind]; [discriminate|].
  intros [= <-]. exact (to_string_throws j _ E).
Qed.

Lemma get_throws (v : value) (k : string) (e : exn) :
  Js.get v k = Throw e -> e = TypeError.
Proof. destruct v as [[| | | | |]|]; cbn; congruence. Qed.

Lemma rbind_throws {A B : Type} (r : result A) (f : A -> result B) :
  (forall e', r = Throw e' -> e' = TypeError) ->
  (forall a e', f a = Throw e' -> e' = TypeError) ->
  forall e, rbind r f = Throw e -> e = TypeError.
Proof.
  intros Hr Hf e. destruct r as [a|e0]; cbn [rbind]; [apply Hf|].
  intros [= <-]. now apply Hr.
Qed.

Lemma map_result_throws {A B : Type} (f : A -> result B) (l : list A) :
  (forall a e', f a = Throw e' -> e' = TypeError) ->
  forall e, map_result f l = Throw e -> e = TypeError.
Proof.
  intros Hf. induction l as [|x l IH]; intros e; cbn [map_result]; [discriminate|].
  apply rbind_throws; [apply Hf|]. intros y.
  apply rbind_throws; [exact IH | discriminate].
Qed.

Lemma cell_throws (l : json) (k : string) (e : exn) : cell l k = Throw e -> e = TypeError.
Proof.
  unfold cell. apply rbind_throws; [apply get_throws | apply escapeHtml_throws].
Qed.

Lemma file_link_throws (f : json) (e : exn) : file_link f = Throw e -> e = TypeError.
Proof.
  unfold file_link.
  apply rbind_throws;
    [apply rbind_throws; [apply get_throws | apply escapeHtml_throws]|].
  intros path.
  apply rbind_throws;
    [apply rbind_throws; [apply get_throws | apply escapeHtml_throws] | discriminate].
Qed.

Lemma filesHtml_throws (l : json) (e : exn) : filesHtml l = Throw e -> e = TypeError.
Proof.
  unfold filesHtml. apply rbind_throws; [apply get_throws|]. intros files.
  apply rbind_throws.
  - intros e0. destruct (Js.truthy files); [|discriminate].
    destruct files as [[| | | | |]|]; congruence.
  - intros fs. apply rbind_throws; [|discriminate].
    apply map_result_throws. apply file_link_throws.
Qed.

Lemma date_cell_throws `{Locale} (v : value) (e : exn) :
  date_cell v = Throw e -> e = TypeError.
Proof.
  unfold date_cell. apply rbind_throws; [|intros p; apply escapeHtml_throws].
  intros e'. unfold Js.to_primitive.
  destruct v as [[| | | |l|m]|]; try discriminate;
    (apply rbind_throws; [apply to_string_throws | discriminate]).
Qed.

Lemma lead_row_throws `{Locale} (l : json) (e : exn) : lead_row l = Throw e -> e = TypeError.
Proof.
  unfold lead_row.
  apply rbind_throws; [apply filesHtml_throws|]. intros files.
  apply rbind_throws;
    [apply rbind_throws; [apply get_throws | apply date_cell_throws]|]. intros date.
  apply rbind_throws; [apply cell_throws|]. intros company.
  apply rbind_throws; [apply cell_throws|]. intros contactName.
  apply rbind_throws; [apply cell_throws|]. intros email.
  apply rbind_throws; [apply cell_throws|]. intros phone.
  apply rbind_throws; [apply cell_throws | discriminate].
Qed.

(** Whatever the admin page throws is a TypeError. *)
Lemma render_admin_throws `{Locale} (leads : json) (e : exn) :
  render_admin leads = Throw e -> e = TypeError.
Proof.
  unfold render_admin.
  apply rbind_throws.
  - apply rbind_throws.
    + intros e'. destruct leads; cbn; congruence.
    + intros [j|] e'; cbn [Js.String]; [apply to_string_throws | discriminate].
  - intros n. apply rbind_throws.
    + intros e'. destruct leads; cbn; congruence.
    + intros ls. apply rbind_throws; [|discriminate].
      apply map_result_throws. apply lead_row_throws.
Qed.

(** The handlers behind [requireAuth], with the world they leave. *)
Lemma admin_trace `{Locale} (w : World) :
  admin w
  = (match render_admin (stored (leads_file w)) with
     | Ok html => Ok (mkResponse 200 [] (Text html))
     | Throw e => Throw e
     end, logged (read_log (leads_file w)) w).
Proof.
  unfold admin. rewrite (bind_ok _ _ _ _ _ (readLeads_trace w)).
  unfold bind, lift. now destruct (render_admin _).
Qed.

Lemma api_leads_trace (w : World) :
  api_leads w
  = (match Js.length (stored (leads_file w)) with
     | Ok total =>
         Ok (res_json
               (JObj (("ok", JBool true)
                        :: match total with Some n => [("total", n)] | None => [] end
                        ++ [("leads", stored (leads_file w))])))
     | Throw e => Throw e
     end, logged (read_log (leads_file w)) w).
Proof.
  unfold api_leads. rewrite (bind_ok _ _ _ _ _ (readLeads_trace w)).
  unfold bind, lift. now destruct (Js.length _).
Qed.

Lemma good_or_bad_credentials (env : Env) (req : Request) :
  req_auth req = admin_login env \/ bad_credentials env req.
Proof.
  unfold admin_login, bad_credentials.
  destruct (req_auth req) as [[name pass]|]; [|now right; left].
  destruct (String.eqb_spec name (env_or (ADMIN_USER env) "admin")) as [->|Hn].
  - destruct (String.eqb_spec pass (env_or (ADMIN_PASS env) "password")) as [->|Hp].
    + now left.
    + right. right. exists (env_or (ADMIN_USER env) "admin"), pass. split; [reflexivity|].
      now right.
  - right. right. exists name, pass. split; [reflexivity|]. now left.
Qed.

(** An authenticated request to [/admin] or [/api/leads], with the
    world it leaves: the handler reads the store; what it throws is a
    TypeError, which the default error handler prints. *)
Lemma guarded_trace `{Locale} (env : Env) (req : Request) (w : World) :
  req_route req = Admin \/ req_route req = Leads ->
  req_auth req = admin_login env ->
  (exists res,
     app env req w = (res, logged (read_log (leads_file w)) w) /\ status res = 200)
  \/ app env req w
     = (mkResponse 500 [] (ErrorPage TypeError),
        logged (read_log (leads_file w) ++ [error_entry TypeError]) w).
Proof.
  intros Hroute Hauth. unfold app, run_route.
  destruct Hroute as [-> | ->]; rewrite (requireAuth_accepts env req _ Hauth).
  - rewrite admin_trace. destruct (render_admin _) as [html|e] eqn:Er.
    + left. now eexists.
    + right. rewrite (render_admin_throws _ _ Er). unfold default_error_handler, logged.
      cbn. now rewrite <- app_assoc.
  - rewrite api_leads_trace. destruct (Js.length _) as [total|e] eqn:El.
    + left. now eexists.
    + right. assert (e = TypeError) as ->.
      { destruct (stored (leads_file w)); cbn in El; congruence. }
      unfold default_error_handler, logged. cbn. now rewrite <- app_assoc.
Qed.

Lemma read_log_lines (f : node) :
  Forall (fun line => line = "readLeads error") (read_log f).
Proof.
  destruct f as [|raw|]; cbn [read_log]; repeat constructor.
  destruct (JSON.parse _); repeat constructor.
Qed.

(** What a request other than a submission leaves of the world. *)
Lemma read_only_trace `{Locale} (env : Env) (req : Request) (w : World) :
  req_route req <> Submit ->
  exists lines,
    snd (app env req w) = logged lines w
    /\ Forall (fun line => line = "readLeads error" \/ line = error_entry TypeError) lines
    /\ (In (error_entry TypeError) lines <-> status (fst (app env req w)) = 500)
    /\ (lines <> [] ->
        (req_route req = Admin \/ req_route req = Leads)
        /\ req_auth req = admin_login env).
Proof.
  intros Hroute.
  assert (Hnone : forall res, status res <> 500 -> app env req w = (res, w) ->
            exists lines,
              snd (app env req w) = logged lines w
              /\ Forall (fun line => line = "readLeads error"
                                     \/ line = error_entry TypeError) lines
              /\ (In (error_entry TypeError) lines <-> status (fst (app env req w)) = 500)
              /\ (lines <> [] ->
                  (req_route req = Admin \/ req_route req = Leads)
                  /\ req_auth req = admin_login env)).
  { intros res Hres ->. exists []. cbn [fst snd]. rewrite logged_nil.
    split; [reflexivity|]. split; [constructor|]. split; [|congruence].
    split; [intros [] | intros E; now destruct Hres]. }
  assert (Hguarded : req_route req = Admin \/ req_route req = Leads ->
            exists lines,
              snd (app env req w) = logged lines w
              /\ Forall (fun line => line = "readLeads error"
                                     \/ line = error_entry TypeError) lines
              /\ (In (error_entry TypeError) lines <-> status (fst (app env req w)) = 500)
              /\ (lines <> [] ->
                  (req_route req = Admin \/ req_route req = Leads)
                  /\ req_auth req = admin_login env)).
  { intros Hr. destruct (good_or_bad_credentials env req) as [Hauth | Hbad].
    - pose proof (read_log_lines (leads_file w)) as Hlog.
      destruct (guarded_trace env req w Hr Hauth) as [(res & -> & Hres) | ->];
        cbn [fst snd].
      + exists (read_log (leads_file w)). split; [reflexivity|].
        split; [eapply Forall_impl; [|exact Hlog]; now left|].
        split; [|now split]. rewrite Hres. split; [|discriminate].
        intros Hin. rewrite Forall_forall in Hlog. now apply Hlog in Hin.
      + eexists. split; [reflexivity|].
        split; [apply Forall_app; split;
                [eapply Forall_impl; [|exact Hlog]; now left
                | constructor; [now right | constructor]]|].
        split; [|now split]. split; [reflexivity|].
        intros _. apply in_or_app. right. now left.
    - apply (Hnone unauthorized); [discriminate|]. unfold app, run_route.
      destruct Hr as [E | E]; rewrite E; now rewrite requireAuth_rejects. }
  destruct (req_route req) eqn:Er.
  - apply (Hnone (res_json (JObj [("ok", JBool true)]))); [discriminate|].
    unfold app. now rewrite Er.
  - contradiction.
  - apply (Hnone (mkResponse 200 [] (Static path))); [discriminate|].
    unfold app. now rewrite Er.
  - apply Hguarded. now left.
  - apply Hguarded. now right.
  - apply (Hnone (mkResponse 404 [] NotFound)); [discriminate|].
    unfold app. now rewrite Er.
Qed.

Lemma read_only_frame `{Locale} (env : Env) (req : Request) (w : World) :
  req_route req <> Submit -> exists lines, snd (app env req w) = logged lines w.
Proof.
  intros Hroute. destruct (read_only_trace env req w Hroute) as (lines & E & _).
  now exists lines.
Qed.

Lemma read_log_cases (f : node) :
  read_log f = []
  \/ (read_log f = ["readLeads error"]
      /\ (f = Unreadable
          \/ exists raw, f = File raw /\ raw <> "" /\ JSON.parse raw = None)).
Proof.
  destruct f as [|raw|]; cbn [read_log]; [now left | | right; split; [reflexivity | now left]].
  destruct (String.eqb_spec raw "") as [->|Hne]; [now left|].
  destruct (JSON.parse raw) eqn:E; [now left|].
  right. split; [reflexivity|]. right. now exists raw.
Qed.

(** Only a submission writes: a request to any other route leaves the
    leads file, the disk, the clock and the mailer as they were.  What
    it can leave on the console is the line [readLeads error] and the
    TypeError that the default error handler prints when it answers
    500, and either only when the request is an authenticated request
    to [/admin] or [/api/leads]. *)
Theorem only_submissions_write `{Locale} (env : Env) (req : Request) (w : World) :
  req_route req <> Submit ->
  let w' := snd (app env req w) in
  leads_file w' = leads_file w /\ disk_ok w' = disk_ok w
  /\ clock w' = clock w /\ ticks w' = ticks w /\ outbox w' = outbox w
  /\ exists lines,
       console w' = (console w ++ lines)%list
       /\ Forall (fun line => line = "readLeads error" \/ line = error_entry TypeError) lines
       /\ (In (error_entry TypeError) lines <-> status (fst (app env req w)) = 500)
       /\ (lines <> [] ->
           (req_route req = Admin \/ req_route req = Leads)
           /\ req_auth req = admin_login env).
Proof.
  intros Hroute w'. subst w'.
  destruct (read_only_trace env req w Hroute) as (lines & -> & Hall & H500 & Hwho).
  cbn [logged leads_file disk_ok clock ticks outbox console].
  repeat (split; [reflexivity|]). now exists lines.
Qed.

Lemma only_submissions_write_witness :
  let env := mkEnv None None None None None false "/srv" in
  let req := mkRequest Admin (Some ("admin", "password")) None [] in
  let w := mkWorld (File "{}") true (fun _ => 0) 0 [] [] in
  let w' := snd (@app example_locale env req w) in
  leads_file w' = leads_file w /\ disk_ok w' = disk_ok w
  /\ clock w' = clock w /\ ticks w' = ticks w /\ outbox w' = outbox w
  /\ exists lines,
       console w' = (console w ++ lines)%list
       /\ Forall (fun line => line = "readLeads error" \/ line = error_entry TypeError) lines
       /\ (In (error_entry TypeError) lines
           <-> status (fst (@app example_locale env req w)) = 500)
       /\ (lines <> [] ->
           (req_route req = Admin \/ req_route req = Leads)
           /\ req_auth req = admin_login env).
Proof.
  intros env req w.
  apply (@only_submissions_write example_locale env req w). discriminate.
Defined.

(** A submission, with the world it leaves: either multer turns it
    away, or the handler saves and notifies. *)
Lemma server_app_cases `{Locale} (env : Env) (req : Request) (w : World) :
  req_route req = Submit ->
  let n := List.length (req_parts req) in
  (((Server.files < n)%nat \/ Exists too_big (req_parts req))
   /\ exists code k,
        app env req w = default_error_handler (MulterError code) (advance k w))
  \/ ((n <= Server.files)%nat
      /\ Forall (fun p => part_size p <= Server.fileSize) (req_parts req)
      /\ exists lead files,
           app env req w
           = (accepted (clock w (n + ticks w)),
              snd (notify env lead files
                     (snd (Server.saveLead lead (advance (S (S n)) w)))))).
Proof.
  intros Hroute n.
  destruct (server_app_submit env req w Hroute) as [Hrej | (Hn & Hsizes & _)];
    [now left | right].
  split; [exact Hn|]. split; [exact Hsizes|].
  destruct (server_app_trace env req w Hroute Hn Hsizes) as (up & _ & _ & E).
  eexists _, _. exact E.
Qed.

(** No mail without the configuration: unless [NOTIFY_EMAIL] and
    [SMTP_HOST] are both set and non-empty and nodemailer is installed,
    no request makes the server call [sendMail]. *)
Theorem no_mail_unless_configured `{Locale} (env : Env) (req : Request) (w : World) :
  notifying env && nodemailer env = false ->
  outbox (snd (app env req w)) = outbox w.
Proof.
  intros Hoff. destruct (req_route req) eqn:Hroute.
  2: { destruct (server_app_cases env req w Hroute)
         as [(_ & code & k & ->) | (_ & _ & lead & files & ->)]; [reflexivity|].
       cbn [snd]. rewrite notify_silent by exact Hoff.
       destruct (server_saveLead_trace lead
                   (advance (S (S (List.length (req_parts req)))) w))
         as (w1 & E1 & _ & _ & _ & _ & _ & Ho).
       rewrite E1. cbn [snd]. exact Ho. }
  all: assert (Hr : req_route req <> Submit) by (rewrite Hroute; discriminate);
    now destruct (read_only_frame env req w Hr) as (lines & ->).
Qed.

Lemma no_mail_unless_configured_witness :
  let env := mkEnv None None (Some "desk@avalonic.example") (Some "") None true "/srv" in
  let req := mkRequest Submit None (Some (JObj [("name", JStr "Wile")])) [] in
  let w := mkWorld Absent true (fun _ => 1700000000000) 0 [] [] in
  outbox (snd (@app example_locale env req w)) = outbox w.
Proof.
  intros env req w.
  apply (@no_mail_unless_configured example_locale env req w). reflexivity.
Defined.

(** Whether multer lets the parts through, and with which error it
    turns them away, does not depend on the environment. *)
Lemma upload_any_env (env env' : Env) (parts : list Part) (n : nat) (w : World) :
  match Server.upload_any env n parts w, Server.upload_any env' n parts w with
  | (Ok _, w1), (Ok _, w1') => w1 = w1'
  | (Throw e, w1), (Throw e', w1') => e = e' /\ w1 = w1'
  | _, _ => False
  end.
Proof.
  revert n w. induction parts as [|p ps IH]; intros n w; cbn [Server.upload_any].
  - reflexivity.
  - destruct (Server.files <=? n)%nat; [now split|].
    rewrite !(bind_ok _ _ _ _ _ (store_run _ p w)).
    destruct (Server.fileSize <? part_size p); [now split|].
    specialize (IH (S n) (tick w)). unfold bind.
    destruct (Server.upload_any env (S n) ps (tick w)) as [[fs|e] w1];
      destruct (Server.upload_any env' (S n) ps (tick w)) as [[fs'|e'] w1']; exact IH.
Qed.

(** The mail settings and the directory of the installation have no
    part in the answers or in the store: two servers that agree on
    [ADMIN_USER] and [ADMIN_PASS] answer every request alike and leave
    the same leads file, disk and clock. *)
Theorem answers_independent_of_mail_settings `{Locale} (env env' : Env) (req : Request)
    (w : World) :
  ADMIN_USER env = ADMIN_USER env' ->
  ADMIN_PASS env = ADMIN_PASS env' ->
  fst (app env req w) = fst (app env' req w)
  /\ quiet (snd (app env req w)) (snd (app env' req w)).
Proof.
  intros Hu Hp. destruct (req_route req) eqn:Hroute.
  2: { destruct (server_app_submit env req w Hroute)
         as [(Hwhy & _) | (Hn & Hsizes & _)].
       - unfold app, run_route. rewrite Hroute. unfold bind.
         pose proof (upload_any_env env env' (req_parts req) 0 w) as Hsame.
         destruct (upload_any_run env (req_parts req) 0 w) as (r & k & E & Hr);
           [unfold Server.files; lia|].
         rewrite E in Hsame |- *.
         destruct r as [up|e].
         + exfalso. destruct Hr as (_ & Hn & Hall & _).
           now apply (within_limits (req_parts req)).
         + destruct (Server.upload_any env' 0 (req_parts req) w) as [[up'|e'] w1'];
             [contradiction|].
           destruct Hsame as [<- <-]. split; [reflexivity | apply quiet_refl].
       - destruct (server_app_trace env req w Hroute Hn Hsizes) as (_ & _ & _ & ->).
         destruct (server_app_trace env' req w Hroute Hn Hsizes) as (_ & _ & _ & ->).
         cbn [fst snd]. split; [reflexivity|].
         eapply quiet_trans; [|apply notify_frame].
         destruct (notify_frame env
                     (lead_of_body (clock w (List.length (req_parts req) + ticks w))
                        (clock w (S (List.length (req_parts req) + ticks w)))
                        (body_of req)
                        (stored_files (clock w) (ticks w) (req_parts req)))
                     (stored_files (clock w) (ticks w) (req_parts req))
                     (snd (Server.saveLead
                             (lead_of_body (clock w (List.length (req_parts req) + ticks w))
                                (clock w (S (List.length (req_parts req) + ticks w)))
                                (body_of req)
                                (stored_files (clock w) (ticks w) (req_parts req)))
                             (advance (S (S (List.length (req_parts req)))) w))))
           as (a & b & c & d).
         repeat split; congruence. }
  all: unfold app; rewrite Hroute; unfold requireAuth; rewrite <- ?Hu, <- ?Hp;
    split; [reflexivity | apply quiet_refl].
Qed.

Lemma answers_independent_of_mail_settings_witness :
  let env := mkEnv None None None None None false "/srv" in
  let env' := mkEnv None None (Some "desk@avalonic.example") (Some "smtp.example")
                (Some "noreply@avalonic.example") true "/opt/app" in
  let req := mkRequest Submit None (Some (JObj [("name", JStr "Wile")]))
               [mkPart "statements" "q1.pdf" "application/pdf" 2048] in
  let w := mkWorld Absent true (fun _ => 1700000000000) 0 [] [] in
  fst (@app example_locale env req w) = fst (@app example_locale env' req w)
  /\ quiet (snd (@app example_locale env req w)) (snd (@app example_locale env' req w)).
Proof.
  intros env env' req w.
  apply (@answers_independent_of_mail_settings example_locale env env' req w); reflexivity.
Defined.

(** ** A store that holds no array *)

Lemma notify_console (env : Env) (lead : json) (files : list json) (w : World) :
  exists lines, console (snd (notify env lead files w)) = (console w ++ lines)%list.
Proof.
  unfold notify.
  destruct (env_set (NOTIFY_EMAIL env) && env_set (SMTP_HOST env)).
  2: { exists []. now rewrite app_nil_r. }
  unfold try_catch, bind, lift, throw, sendMail, console_error, ret.
  destruct (nodemailer env).
  2: { eexists. reflexivity. }
  repeat run_step; cbn; first [now eexists | exists []; now rewrite app_nil_r].
Qed.

Lemma saved_non_array (lead : json) (f : node) :
  (forall l, stored f <> JArr l) -> saved lead f = f.
Proof.
  intros Hf. unfold saved. destruct (stored f) eqn:E; try reflexivity.
  now destruct (Hf elems).
Qed.

Lemma app_keeps_non_array `{Locale} (env : Env) (req : Request) (w : World) :
  (forall l, stored (leads_file w) <> JArr l) ->
  leads_file (snd (app env req w)) = leads_file w.
Proof.
  intros Hf. destruct (req_route req) eqn:Hroute.
  2: { destruct (server_app_submit env req w Hroute)
         as [(_ & code & k & ->) | (_ & _ & up & w' & H1)]; [reflexivity|].
       cbn zeta in H1. destruct H1 as (_ & -> & Hfile & _). cbn [snd].
       rewrite Hfile, saved_non_array by exact Hf. now destruct (disk_ok w). }
  all: assert (Hr : req_route req <> Submit) by (rewrite Hroute; discriminate);
    now destruct (read_only_frame env req w Hr) as (lines & ->).
Qed.

Lemma serve_keeps_non_array `{Locale} (env : Env) (reqs : list Request) (w : World) :
  (forall l, stored (leads_file w) <> JArr l) ->
  leads_file (serve env reqs w) = leads_file w.
Proof.
  revert w. induction reqs as [|req reqs IH]; intros w Hf; cbn [serve]; [reflexivity|].
  pose proof (app_keeps_non_array env req w Hf) as E.
  rewrite IH; [exact E | now rewrite E].
Qed.

(** A leads file that holds JSON other than an array is never
    repaired: src/server.js answers every submission within the limits
    with [{ok:true, id}], logs [saveLead error], and writes nothing;
    whatever requests follow, the file stays as it is and the leads are
    lost. *)
Theorem non_array_store_loses_leads `{Locale} (env : Env) (w : World) :
  (forall l, fst (readLeads w) <> Ok (JArr l)) ->
  (forall reqs, leads_file (serve env reqs w) = leads_file w)
  /\ (forall req,
        req_route req = Submit ->
        (List.length (req_parts req) <= Server.files)%nat ->
        Forall (fun p => part_size p <= Server.fileSize) (req_parts req) ->
        exists id w',
          app env req w = (accepted id, w')
          /\ leads_file w' = leads_file w
          /\ In "saveLead error" (console w')).
Proof.
  intros Hf.
  assert (Hs : forall l, stored (leads_file w) <> JArr l).
  { intros l E. apply (Hf l). now rewrite readLeads_trace, E. }
  split; [intros reqs; now apply serve_keeps_non_array|].
  intros req Hroute Hn Hsizes.
  destruct (server_app_trace env req w Hroute Hn Hsizes) as (_ & _ & _ & E).
  cbv zeta in E. eexists _, _. split; [exact E|].
  split.
  - rewrite <- (app_keeps_non_array env req w Hs). now rewrite E.
  - match type of E with
    | _ = (_, snd (notify _ ?lead ?files (snd (Server.saveLead _ ?w0)))) =>
        destruct (notify_console env lead files (snd (Server.saveLead lead w0)))
          as (lines & ->);
        destruct (server_saveLead_trace lead w0) as (w1 & E1 & _ & _ & _ & _ & Hc & _)
    end.
    rewrite E1. cbn [snd]. rewrite Hc. unfold save_log.
    cbn [advance leads_file disk_ok].
    apply in_or_app. left. apply in_or_app. right. apply in_or_app. right.
    destruct (stored (leads_file w)) eqn:Ev; try (now left).
    now destruct (Hs elems).
Qed.

Lemma non_array_store_loses_leads_witness :
  let env := mkEnv None None None None None false "/srv" in
  let w := mkWorld (File "{}") true (fun _ => 1700000000000) 0 [] [] in
  (forall reqs, leads_file (@serve example_locale env reqs w) = leads_file w)
  /\ (forall req,
        req_route req = Submit ->
        (List.length (req_parts req) <= Server.files)%nat ->
        Forall (fun p => part_size p <= Server.fileSize) (req_parts req) ->
        exists id w',
          @app example_locale env req w = (accepted id, w')
          /\ leads_file w' = leads_file w
          /\ In "saveLead error" (console w')).
Proof.
  intros env w.
  apply (@non_array_store_loses_leads example_locale env w).
  intros l. vm_compute. discriminate.
Defined.

Lemma render_admin_needs_array `{Locale} (v : json) :
  (forall l, v <> JArr l) -> (forall s, v <> JStr s) ->
  render_admin v = Throw TypeError.
Proof.
  intros Harr Hstr. unfold render_admin.
  destruct v as [| | | |l|m]; try reflexivity.
  - now destruct (Hstr s).
  - now destruct (Harr l).
  - cbn [Js.length rbind].
    destruct (Js.String (Js.lookup "length" m)) as [n|e] eqn:E; [reflexivity|].
    cbn [rbind]. f_equal.
    destruct (Js.lookup "length" m) as [j|]; [|discriminate].
    exact (to_string_throws j e E).
Qed.

(** The admin page needs an array in the leads file: when the file
    holds other JSON (an object, a number, [null], ...), an
    authenticated [GET /admin] is answered with status 500 by the
    default error handler, for the TypeError the handler throws;
    [GET /api/leads] fails alike on [null] and otherwise passes the
    value on as [leads]. *)
Theorem admin_page_needs_an_array `{Locale} (env : Env) (req : Request) (w : World)
    (v : json) :
  req_auth req = admin_login env ->
  fst (readLeads w) = Ok v ->
  (forall l, v <> JArr l) -> (forall s, v <> JStr s) ->
  (req_route req = Admin -> fst (app env req w) = mkResponse 500 [] (ErrorPage TypeError))
  /\ (req_route req = Leads ->
      v = JNull -> fst (app env req w) = mkResponse 500 [] (ErrorPage TypeError))
  /\ (req_route req = Leads ->
      v <> JNull ->
      exists answer,
        fst (app env req w) = mkResponse 200 [] (Json answer)
        /\ Js.get (Some answer) "leads" = Ok (Some v)).
Proof.
  intros Hauth Hv Harr Hstr. apply readLeads_stored in Hv.
  unfold app, run_route.
  split; [|split].
  - intros ->. rewrite (requireAuth_accepts env req _ Hauth), admin_trace, Hv.
    now rewrite (render_admin_needs_array v Harr Hstr).
  - intros -> ->. rewrite (requireAuth_accepts env req _ Hauth), api_leads_trace, Hv.
    reflexivity.
  - intros -> Hnull. rewrite (requireAuth_accepts env req _ Hauth), api_leads_trace, Hv.
    destruct v as [| | | |l|m]; try (eexists; split; reflexivity).
    + contradiction.
    + cbn [Js.length]. destruct (Js.lookup "length" m); eexists; split; reflexivity.
Qed.

Lemma admin_page_needs_an_array_witness :
  let env := mkEnv None None None None None false "/srv" in
  let req := mkRequest Admin (Some ("admin", "password")) None [] in
  let w := mkWorld (File "{}") true (fun _ => 0) 0 [] [] in
  (req_route req = Admin ->
   fst (@app example_locale env req w) = mkResponse 500 [] (ErrorPage TypeError))
  /\ (req_route req = Leads ->
      JObj [] = JNull ->
      fst (@app example_locale env req w) = mkResponse 500 [] (ErrorPage TypeError))
  /\ (req_route req = Leads ->
      JObj [] <> JNull ->
      exists answer,
        fst (@app example_locale env req w) = mkResponse 200 [] (Json answer)
        /\ Js.get (Some answer) "leads" = Ok (Some (JObj []))).
Proof.
  intros env req w.
  apply (@admin_page_needs_an_array example_locale env req w (JObj [])).
  - reflexivity.
  - reflexivity.
  - discriminate.
  - discriminate.
Defined.

(** ** An append that does not go through (C4, C10) *)

Lemma leads_answer_of_file `{Locale} (env : Env) (req : Request) (w w1 : World) :
  leads_file w1 = leads_file w ->
  req_route req = Leads ->
  fst (app env req w1) = fst (app env req w).
Proof.
  intros Hfile Hroute. unfold app, run_route. rewrite Hroute.
  destruct (good_or_bad_credentials env req) as [Hauth | Hbad].
  - rewrite (requireAuth_accepts env req _ Hauth), !api_leads_trace, Hfile.
    now destruct (Js.length _).
  - now rewrite !(requireAuth_rejects env req _ _ Hbad).
Qed.

Lemma read_of_file (w w1 : World) :
  leads_file w1 = leads_file w -> fst (readLeads w1) = fst (readLeads w).
Proof. intros Hfile. rewrite !readLeads_trace. cbn [fst]. now rewrite Hfile. Qed.

Lemma no_new_head (w w1 : World) (lead : json) (old : list json) :
  fst (readLeads w1) = fst (readLeads w) ->
  fst (readLeads w) = Ok (JArr old) ->
  fst (readLeads w1) <> Ok (JArr (lead :: old)).
Proof.
  intros -> -> [= E]. apply (f_equal (@List.length json)) in E. cbn in E. lia.
Qed.

Lemma append_lost (lead : json) (w : World) :
  disk_ok w = false \/ (forall old, fst (readLeads w) <> Ok (JArr old)) ->
  (if disk_ok w then saved lead (leads_file w) else leads_file w) = leads_file w
  /\ In "saveLead error" (save_log w).
Proof.
  intros Hlost. unfold save_log. split.
  - destruct (disk_ok w); [|reflexivity].
    destruct Hlost as [Hdisk | Hf]; [discriminate|].
    apply saved_non_array. intros l E. apply (Hf l). now rewrite readLeads_trace, E.
  - apply in_or_app. right.
    destruct (stored (leads_file w)) eqn:Ev; try (now left).
    destruct Hlost as [-> | Hf]; [now left|].
    destruct (Hf elems). now rewrite readLeads_trace, Ev.
Qed.

(** C4 on src/server.js: an append that does not go through is hidden.
    When the disk refuses the write, or the store holds JSON other than
    an array, [saveLead(lead)] returns normally, having logged
    [saveLead error], and [readLeads()] returns afterwards what it
    returned before: [lead] is not at the head.  A submission within
    the upload limits is answered [{ok:true, id}] all the same, and
    [GET /api/leads] answers after it what it answered before. *)
Theorem saveLead_hides_failed_append `{Locale} (env : Env) (w : World) :
  disk_ok w = false \/ (forall old, fst (readLeads w) <> Ok (JArr old)) ->
  (forall lead,
     exists w1,
       Server.saveLead lead w = (Ok tt, w1)
       /\ In "saveLead error" (console w1)
       /\ fst (readLeads w1) = fst (readLeads w)
       /\ forall old, fst (readLeads w) = Ok (JArr old) ->
                      fst (readLeads w1) <> Ok (JArr (lead :: old)))
  /\ (forall sub,
        req_route sub = Submit ->
        (List.length (req_parts sub) <= Server.files)%nat ->
        Forall (fun p => part_size p <= Server.fileSize) (req_parts sub) ->
        exists id w1,
          app env sub w = (accepted id, w1)
          /\ forall req,
               req_route req = Leads ->
               fst (app env req w1) = fst (app env req w)).
Proof.
  intros Hlost. split.
  - intros lead.
    destruct (server_saveLead_trace lead w) as (w1 & E1 & Hf & _ & _ & _ & Hc & _).
    destruct (append_lost lead w Hlost) as (Hkept & Hlog). rewrite Hkept in Hf.
    exists w1. split; [exact E1|]. split.
    { rewrite Hc. apply in_or_app. now right. }
    pose proof (read_of_file w w1 Hf) as Hread. split; [exact Hread|].
    intros old. now apply no_new_head.
  - intros sub Hroute Hn Hsizes.
    destruct (server_app_submit env sub w Hroute)
      as [(Hwhy & _) | (_ & _ & up & w1 & H1)];
      [now destruct (within_limits _ Hn Hsizes)|].
    cbn zeta in H1. destruct H1 as (_ & Happ & Hfile & _).
    rewrite (proj1 (append_lost _ w Hlost)) in Hfile.
    eexists _, w1. split; [exact Happ|].
    intros req Hr. now apply leads_answer_of_file.
Qed.

Lemma saveLead_hides_failed_append_witness :
  let env := mkEnv None None None None None false "/srv" in
  let w := mkWorld (File "[]") false (fun _ => 1700000000000) 0 [] [] in
  (forall lead,
     exists w1,
       Server.saveLead lead w = (Ok tt, w1)
       /\ In "saveLead error" (console w1)
       /\ fst (readLeads w1) = fst (readLeads w)
       /\ forall old, fst (readLeads w) = Ok (JArr old) ->
                      fst (readLeads w1) <> Ok (JArr (lead :: old)))
  /\ (forall sub,
        req_route sub = Submit ->
        (List.length (req_parts sub) <= Server.files)%nat ->
        Forall (fun p => part_size p <= Server.fileSize) (req_parts sub) ->
        exists id w1,
          @app example_locale env sub w = (accepted id, w1)
          /\ forall req,
               req_route req = Leads ->
               fst (@app example_locale env req w1) = fst (@app example_locale env req w)).
Proof.
  intros env w.
  apply (@saveLead_hides_failed_append example_locale env w).
  left. reflexivity.
Defined.

(** C10 on src/server.js: the [id] of an answer [{ok:true, id}] need
    not be the [id] of a stored lead.  When the disk refuses the write,
    or the store holds JSON other than an array, a submission within
    the upload limits is answered [{ok:true, id}], with the reading of
    the clock the handler took for the lead, while the request inserts
    no lead: the store reads afterwards as it read before. *)
Theorem accepted_id_of_no_stored_lead `{Locale} (env : Env) (req : Request) (w : World) :
  req_route req = Submit ->
  (List.length (req_parts req) <= Server.files)%nat ->
  Forall (fun p => part_size p <= Server.fileSize) (req_parts req) ->
  disk_ok w = false \/ (forall old, fst (readLeads w) <> Ok (JArr old)) ->
  exists id w1,
    app env req w = (accepted id, w1)
    /\ body (accepted id) = Json (JObj [("ok", JBool true); ("id", JNum id)])
    /\ id = clock w (List.length (req_parts req) + ticks w)
    /\ fst (readLeads w1) = fst (readLeads w)
    /\ forall lead old, fst (readLeads w) = Ok (JArr old) ->
                        fst (readLeads w1) <> Ok (JArr (lead :: old)).
Proof.
  intros Hroute Hn Hsizes Hlost.
  destruct (server_app_submit env req w Hroute)
    as [(Hwhy & _) | (_ & _ & up & w1 & H1)];
    [now destruct (within_limits _ Hn Hsizes)|].
  cbn zeta in H1. destruct H1 as (_ & Happ & Hfile & _).
  rewrite (proj1 (append_lost _ w Hlost)) in Hfile.
  eexists _, w1. split; [exact Happ|]. split; [reflexivity|]. split; [reflexivity|].
  pose proof (read_of_file w w1 Hfile) as Hread. split; [exact Hread|].
  intros lead old. now apply no_new_head.
Qed.

Lemma accepted_id_of_no_stored_lead_witness :
  let env := mkEnv None None None None None false "/srv" in
  let req := mkRequest Submit None
               (Some (JObj [("company", JStr "ACME"); ("name", JStr "Wile")])) [] in
  let old := [JObj [("id", JNum 1); ("company", JStr "Initech")]] in
  let w := mkWorld (File (JSON.stringify (JArr old))) false (fun _ => 1700000000000) 0 [] [] in
  exists id w1,
    @app example_locale env req w = (accepted id, w1)
    /\ body (accepted id) = Json (JObj [("ok", JBool true); ("id", JNum id)])
    /\ id = clock w (List.length (req_parts req) + ticks w)
    /\ fst (readLeads w1) = fst (readLeads w)
    /\ forall lead old', fst (readLeads w) = Ok (JArr old') ->
                         fst (readLeads w1) <> Ok (JArr (lead :: old')).
Proof.
  intros env req old w.
  apply (@accepted_id_of_no_stored_lead example_locale env req w).
  - reflexivity.
  - vm_compute. lia.
  - constructor.
  - left. reflexivity.
Defined.

(** ** Who is turned away *)

(** A request is answered 401 exactly when it asks for [/admin] or
    [/api/leads] without the configured credentials: no other route
    asks for credentials, and with the right ones the handler runs.
    When [ADMIN_USER] and [ADMIN_PASS] are unset or empty the
    credentials are [admin] and [password]. *)
Theorem unauthorized_exactly `{Locale} (env : Env) (req : Request) (w : World) :
  (status (fst (app env req w)) = 401
   <-> (req_route req = Admin \/ req_route req = Leads) /\ bad_credentials env req)
  /\ (env_set (ADMIN_USER env) = false -> env_set (ADMIN_PASS env) = false ->
      (req_route req = Admin \/ req_route req = Leads) ->
      req_auth req = Some ("admin", "password") ->
      status (fst (app env req w)) <> 401).
Proof.
  assert (Hgood : (req_route req = Admin \/ req_route req = Leads) ->
                  req_auth req = admin_login env ->
                  status (fst (app env req w)) <> 401).
  { intros Hroute Hauth. unfold app, run_route.
    destruct Hroute as [-> | ->]; rewrite (requireAuth_accepts env req _ Hauth).
    - rewrite admin_trace. now destruct (render_admin _).
    - rewrite api_leads_trace. now destruct (Js.length _). }
  split; [split|].
  - intros H401. destruct (req_route req) eqn:Hroute.
    + unfold app in H401. rewrite Hroute in H401. discriminate H401.
    + destruct (server_app_submit env req w Hroute)
        as [(_ & code & k & E) | (_ & _ & up & w' & H1)].
      * rewrite E in H401. discriminate H401.
      * cbn zeta in H1. destruct H1 as (_ & E & _). rewrite E in H401. discriminate H401.
    + unfold app in H401. rewrite Hroute in H401. discriminate H401.
    + split; [now left|].
      destruct (good_or_bad_credentials env req) as [Hauth | Hbad]; [|exact Hbad].
      now destruct (Hgood (or_introl eq_refl) Hauth).
    + split; [now right|].
      destruct (good_or_bad_credentials env req) as [Hauth | Hbad]; [|exact Hbad].
      now destruct (Hgood (or_intror eq_refl) Hauth).
    + unfold app in H401. rewrite Hroute in H401. discriminate H401.
  - intros (Hroute & Hbad). unfold app, run_route.
    destruct Hroute as [-> | ->]; now rewrite requireAuth_rejects.
  - intros Hu Hp Hroute Hauth. apply (Hgood Hroute). rewrite Hauth. unfold admin_login.
    unfold env_set, env_or in *.
    destruct (ADMIN_USER env) as [u|]; destruct (ADMIN_PASS env) as [p|];
      repeat match goal with
             | H : negb (?s =? "")%string = false |- _ =>
                 apply negb_false_iff in H; rewrite H
             end; reflexivity.
Qed.

(** ** The upload limits of src/unnamed/part_000 *)

(** On src/unnamed/part_000 multer takes files from the field
    [statements] only, at most five of them and each of at most
    10 * 1024 * 1024 bytes.  A request with a file under another field
    name, with a sixth file or with a longer file never reaches the
    handler: the default error handler prints the MulterError on the
    console and answers with status 500, and nothing is stored or
    mailed.  Any other request reaches the handler, which answers
    [{ok:true, id}] or the server error. *)
Theorem part000_upload_limits `{Locale} (env : Env) (req : Request) (w : World) :
  req_route req = Submit ->
  ((5 < List.length (req_parts req))%nat
   \/ Exists (fun p => Part000.fileSize < part_size p) (req_parts req)
   \/ Exists (fun p => part_fieldname p <> "statements") (req_parts req) ->
   exists code w',
     app000 env req w = (mkResponse 500 [] (ErrorPage (MulterError code)), w')
     /\ leads_file w' = leads_file w
     /\ console w' = (console w ++ [error_entry (MulterError code)])%list
     /\ outbox w' = outbox w)
  /\ ((List.length (req_parts req) <= 5)%nat ->
      Forall (fun p => part_size p <= 10485760) (req_parts req) ->
      Forall (fun p => part_fieldname p = "statements") (req_parts req) ->
      exists res w',
        app000 env req w = (res, w')
        /\ ((exists id, res = accepted id) \/ res = server_error)).
Proof.
  intros Hroute. unfold app000, run_route. rewrite Hroute.
  destruct (upload_array_run env (req_parts req) 5 w) as (r & k & E & Hr).
  destruct r as [uploaded|e].
  - rewrite (bind_ok _ _ _ _ _ E).
    destruct Hr as (_ & Hn & Hsizes & Hfields & _). split.
    + intros Hwhy. exfalso. destruct Hwhy as [Hmany | [Hbig | Hfield]].
      * lia.
      * apply Exists_exists in Hbig. destruct Hbig as (p & Hp & Hbig).
        rewrite Forall_forall in Hsizes. specialize (Hsizes p Hp). lia.
      * apply Exists_exists in Hfield. destruct Hfield as (p & Hp & Hfield).
        rewrite Forall_forall in Hfields. now specialize (Hfields p Hp).
    + intros _ _ _.
      destruct (part000_submit_run env req uploaded (advance k w))
        as (res & w' & E' & _ & _ & _ & Hres).
      rewrite E'. exists res, w'. split; [reflexivity|].
      destruct Hres as [(-> & _) | (-> & _)]; [left; now eexists | now right].
  - rewrite (bind_throw _ _ _ _ _ E). destruct Hr as (Hwhy & code & ->). split.
    + intros _. exists code. eexists. split; [reflexivity|]. now repeat split.
    + intros Hn Hsizes Hfields. exfalso. destruct Hwhy as [Hmany | [Hbig | Hfield]].
      * lia.
      * apply Exists_exists in Hbig. destruct Hbig as (p & Hp & Hbig).
        rewrite Forall_forall in Hsizes. specialize (Hsizes p Hp).
        unfold Part000.fileSize in Hbig. lia.
      * apply Exists_exists in Hfield. destruct Hfield as (p & Hp & Hfield).
        rewrite Forall_forall in Hfields. now specialize (Hfields p Hp).
Qed.

Lemma part000_upload_limits_witness :
  let env := mkEnv None None None None None false "/srv" in
  let req := mkRequest Submit None (Some (JObj []))
               [mkPart "accounts" "q1.pdf" "application/pdf" 2048] in
  let w := mkWorld Absent true (fun _ => 1700000000000) 0 [] [] in
  ((5 < List.length (req_parts req))%nat
   \/ Exists (fun p => Part000.fileSize < part_size p) (req_parts req)
   \/ Exists (fun p => part_fieldname p <> "statements") (req_parts req) ->
   exists code w',
     @app000 example_locale env req w
     = (mkResponse 500 [] (ErrorPage (MulterError code)), w')
     /\ leads_file w' = leads_file w
     /\ console w' = (console w ++ [error_entry (MulterError code)])%list
     /\ outbox w' = outbox w)
  /\ ((List.length (req_parts req) <= 5)%nat ->
      Forall (fun p => part_size p <= 10485760) (req_parts req) ->
      Forall (fun p => part_fieldname p = "statements") (req_parts req) ->
      exists res w',
        @app000 example_locale env req w = (res, w')
        /\ ((exists id, res = accepted id) \/ res = server_error)).
Proof.
  intros env req w.
  apply (@part000_upload_limits example_locale env req w). reflexivity.
Defined.

(** ** Sequences of requests *)

(** The store after a sequence of requests on a disk that takes the
    writes. *)
Lemma serve_stored `{Locale} (env : Env) (reqs : list Request) (old : list json)
    (w : World) :
  Forall (fun req => req_route req = Submit -> storable req) reqs ->
  disk_ok w = true ->
  stored (leads_file w) = JArr old ->
  exists news,
    stored (leads_file (serve env reqs w)) = JArr (List.rev news ++ old)
    /\ Forall2 (fun req lead =>
                  exists id t files, lead = lead_of_body id t (body_of req) files)
         (filter is_submit reqs) news.
Proof.
  intros Hreqs. revert old w.
  induction Hreqs as [|req reqs Hreq Hreqs IH]; intros old w Hdisk Hold.
  - exists []. split; [exact Hold | constructor].
  - cbn [serve filter]. unfold is_submit at 1.
    destruct (req_route req) eqn:Hroute.
    2: { destruct (Hreq eq_refl) as (Hn & Hsizes & Hbody).
         destruct (server_app_submit env req w Hroute)
           as [(Hwhy & _) | (_ & _ & up & w1 & H1)];
           [now destruct (within_limits _ Hn Hsizes)|].
         cbn zeta in H1. destruct H1 as (_ & Happ & Hfile & Hd & _).
         rewrite Hdisk in Hfile, Hd. rewrite Happ. cbn [snd].
         destruct (IH (lead_of_body (clock w (List.length (req_parts req) + ticks w))
                         (clock w (S (List.length (req_parts req) + ticks w)))
                         (body_of req) (map file_entry up) :: old) w1 Hd)
           as (news & Hs & Hnews).
         { rewrite Hfile. apply stored_saved; [|exact Hold].
           now apply wf_lead_of_body, wf_body_of. }
         exists (lead_of_body (clock w (List.length (req_parts req) + ticks w))
                   (clock w (S (List.length (req_parts req) + ticks w)))
                   (body_of req) (map file_entry up) :: news).
         split.
         - cbn [List.rev]. now rewrite <- app_assoc.
         - constructor; [now eexists _, _, _ | exact Hnews]. }
    all: assert (Hr : req_route req <> Submit) by (rewrite Hroute; discriminate);
      destruct (read_only_frame env req w Hr) as (lines & ->);
      apply (IH old (logged lines w) Hdisk Hold).
Qed.

(** The store lists the submissions newest first.  On a disk that
    takes the writes and a store that reads as a sequence [old], in a
    state of the file that the model covers: after any sequence of
    requests whose submissions are within the upload limits, the store
    holds one lead for each submission, in the reverse of the order of
    arrival, ahead of [old], which stays as it was. *)
Theorem leads_are_listed_newest_first `{Locale} (env : Env) (reqs : list Request)
    (old : list json) (w : World) :
  Forall (fun req => req_route req = Submit -> storable req) reqs ->
  disk_ok w = true ->
  modelled (leads_file w) = true ->
  fst (readLeads w) = Ok (JArr old) ->
  exists news,
    fst (readLeads (serve env reqs w)) = Ok (JArr (List.rev news ++ old))
    /\ Forall2 (fun req lead =>
                  exists id t files, lead = lead_of_body id t (body_of req) files)
         (filter is_submit reqs) news.
Proof.
  intros Hreqs Hdisk _ Hold. apply readLeads_stored in Hold.
  destruct (serve_stored env reqs old w Hreqs Hdisk Hold) as (news & Hs & Hnews).
  exists news. split; [|exact Hnews]. now rewrite readLeads_trace, Hs.
Qed.

Lemma leads_are_listed_newest_first_witness :
  let env := mkEnv None None None None None false "/srv" in
  let first := mkRequest Submit None (Some (JObj [("company", JStr "ACME")])) [] in
  let look := mkRequest Leads (Some ("admin", "password")) None [] in
  let second := mkRequest Submit None (Some (JObj [("company", JStr "Initech")])) [] in
  let old := [JObj [("id", JNum 1)]] in
  let w := mkWorld (File (JSON.stringify (JArr old))) true (fun _ => 1700000000000) 0 [] [] in
  exists news,
    fst (readLeads (@serve example_locale env [first; look; second] w))
    = Ok (JArr (List.rev news ++ old))
    /\ Forall2 (fun req lead =>
                  exists id t files,
                    lead = @lead_of_body example_locale id t (body_of req) files)
         [first; second] news.
Proof.
  intros env first look second old w.
  apply (@leads_are_listed_newest_first example_locale env [first; look; second] old w).
  - assert (Hsub : forall company,
               storable (mkRequest Submit None (Some (JObj [("company", JStr company)])) [])).
    { intros company. split; [vm_compute; lia|]. split; [constructor|].
      constructor; [in_order_keys | repeat constructor]. }
    constructor; [intros _; apply Hsub|].
    constructor; [discriminate|].
    constructor; [intros _; apply Hsub | constructor].
  - reflexivity.
  - reflexivity.
  - reflexivity.
Defined.

(** ** A leads file that is no JSON *)

(** A leads file whose text is not JSON (a text [JSON.valid] refuses)
    is overwritten by the next submission that is stored: [readLeads]
    logs its error and returns the empty array, so the file then holds
    the new lead alone and the text that was there is lost. *)
Theorem unparsable_store_is_overwritten `{Locale} (env : Env) (req : Request)
    (w : World) (raw : string) :
  req_route req = Submit ->
  (List.length (req_parts req) <= Server.files)%nat ->
  Forall (fun p => part_size p <= Server.fileSize) (req_parts req) ->
  disk_ok w = true ->
  leads_file w = File raw -> raw <> "" -> JSON.valid raw = false ->
  exists id lead w' lines,
    app env req w = (accepted id, w')
    /\ leads_file w' = File (JSON.stringify (JArr [lead]))
    /\ Js.get (Some lead) "id" = Ok (Some (JNum id))
    /\ console w' = (console w ++ ["readLeads error"] ++ lines)%list.
Proof.
  intros Hroute Hn Hsizes Hdisk Hfile Hne Hraw. apply invalid_parse in Hraw.
  destruct (server_app_trace env req w Hroute Hn Hsizes) as (_ & _ & _ & E).
  cbv zeta in E.
  match type of E with
  | _ = (_, snd (notify _ ?lead ?files (snd (Server.saveLead _ ?w0)))) =>
      destruct (notify_console env lead files (snd (Server.saveLead lead w0)))
        as (lines & Hc2);
      destruct (notify_frame env lead files (snd (Server.saveLead lead w0)))
        as (Hf2 & _);
      destruct (server_saveLead_trace lead w0) as (w1 & E1 & Hf1 & _ & _ & _ & Hc1 & _);
      exists (clock w (List.length (req_parts req) + ticks w)), lead
  end.
  rewrite E1 in E, Hc2, Hf2. cbn [snd] in E, Hc2, Hf2.
  eexists _, lines. split; [exact E|].
  assert (Hstored : stored (leads_file w) = JArr []).
  { rewrite Hfile. cbn [stored]. destruct (String.eqb_spec raw ""); [contradiction|].
    now rewrite Hraw. }
  split; [|split; [reflexivity|]].
  - rewrite Hf2, Hf1. cbn [advance disk_ok leads_file]. rewrite Hdisk.
    unfold saved. now rewrite Hstored.
  - rewrite Hc2, Hc1. unfold save_log. cbn [advance disk_ok leads_file console].
    rewrite Hstored, Hdisk, Hfile. cbn [read_log].
    destruct (String.eqb_spec raw ""); [contradiction|]. rewrite Hraw.
    now rewrite app_nil_r, <- app_assoc.
Qed.

Lemma unparsable_store_is_overwritten_witness :
  let env := mkEnv None None None None None false "/srv" in
  let req := mkRequest Submit None (Some (JObj [("company", JStr "ACME")])) [] in
  let w := mkWorld (File "[{") true (fun _ => 1700000000000) 0 [] [] in
  exists id lead w' lines,
    @app example_locale env req w = (accepted id, w')
    /\ leads_file w' = File (JSON.stringify (JArr [lead]))
    /\ Js.get (Some lead) "id" = Ok (Some (JNum id))
    /\ console w' = (console w ++ ["readLeads error"] ++ lines)%list.
Proof.
  intros env req w.
  apply (@unparsable_store_is_overwritten example_locale env req w "[{").
  - reflexivity.
  - vm_compute. lia.
  - constructor.
  - reflexivity.
  - reflexivity.
  - discriminate.
  - reflexivity.
Defined.

(** ** The row of a submission *)







(** ** A field that is no text *)





(** ** The catch of the submit handler *)

Lemma notify_console_lines (env : Env) (lead : json) (files : list json) (w : World) :
  exists lines,
    console (snd (notify env lead files w)) = (console w ++ lines)%list
    /\ Forall (fun line => line = "Email notify failed"
                           \/ line = "nodemailer missing or error") lines.
Proof.
  unfold notify.
  destruct (env_set (NOTIFY_EMAIL env) && env_set (SMTP_HOST env)).
  2: { exists []. split; [now rewrite app_nil_r | constructor]. }
  unfold try_catch, bind, lift, throw, sendMail, console_error, ret.
  destruct (nodemailer env).
  2: { eexists. split; [reflexivity | constructor; [now right | constructor]]. }
  repeat run_step; cbn;
    first [exists []; split; [now rewrite app_nil_r | constructor]
          | eexists; split; [reflexivity | constructor; [now left | constructor]]].
Qed.

Lemma save_log_lines (w : World) :
  Forall (fun line => line = "readLeads error" \/ line = "saveLead error") (save_log w).
Proof.
  unfold save_log. apply Forall_app. split.
  - destruct (read_log_cases (leads_file w)) as [-> | (-> & _)];
      [constructor | constructor; [now left | constructor]].
  - destruct (stored (leads_file w)); try (constructor; [now right | constructor]).
    destruct (disk_ok w); [constructor | constructor; [now right | constructor]].
Qed.

(** The catch of the submit handler of src/server.js is never
    entered: no request is answered [{ok:false, message:'Server
    error'}], and no request puts the line [submit error] on the
    console.  Nothing the handler calls can throw: [saveLead] and the
    notification catch their own errors. *)
Theorem submit_catch_is_unreachable `{Locale} (env : Env) (req : Request) (w : World) :
  fst (app env req w) <> server_error
  /\ exists lines,
       console (snd (app env req w)) = (console w ++ lines)%list
       /\ ~ In "submit error" lines.
Proof.
  destruct (req_route req) eqn:Hroute.
  2: { destruct (server_app_cases env req w Hroute)
         as [(_ & code & k & ->) | (_ & _ & lead & files & ->)].
       - split; [discriminate|]. exists [error_entry (MulterError code)].
         split; [reflexivity|]. cbn. intros [E | []]. discriminate E.
       - split; [discriminate|]. cbn [snd].
         destruct (notify_console_lines env lead files
                     (snd (Server.saveLead lead
                             (advance (S (S (List.length (req_parts req)))) w))))
           as (lines & -> & Hlines).
         destruct (server_saveLead_trace lead
                     (advance (S (S (List.length (req_parts req)))) w))
           as (w1 & E1 & _ & _ & _ & _ & Hc & _).
         rewrite E1. cbn [snd]. rewrite Hc. cbn [advance console].
         exists (save_log (advance (S (S (List.length (req_parts req)))) w) ++ lines)%list.
         split; [now rewrite app_assoc|].
         intros Hin. apply in_app_or in Hin. destruct Hin as [Hin | Hin].
         + pose proof (save_log_lines (advance (S (S (List.length (req_parts req)))) w))
             as Hsave.
           rewrite Forall_forall in Hsave. destruct (Hsave _ Hin); discriminate.
         + rewrite Forall_forall in Hlines. destruct (Hlines _ Hin); discriminate. }
  all: assert (Hr : req_route req <> Submit) by (rewrite Hroute; discriminate);
    (split;
     [| destruct (read_only_trace env req w Hr) as (lines & -> & Hall & _);
        exists lines; split; [reflexivity|]; intros Hin;
        rewrite Forall_forall in Hall; destruct (Hall _ Hin); discriminate]).
  - unfold app. rewrite Hroute. discriminate.
  - unfold app. rewrite Hroute. discriminate.
  - destruct (good_or_bad_credentials env req) as [Hauth | Hbad].
    + destruct (guarded_trace env req w (or_introl Hroute) Hauth)
        as [(res & -> & Hres) | ->]; cbn [fst]; [|discriminate].
      intros ->. discriminate Hres.
    + unfold app, run_route. rewrite Hroute, (requireAuth_rejects env req _ w Hbad).
      discriminate.
  - destruct (good_or_bad_credentials env req) as [Hauth | Hbad].
    + destruct (guarded_trace env req w (or_intror Hroute) Hauth)
        as [(res & -> & Hres) | ->]; cbn [fst]; [|discriminate].
      intros ->. discriminate Hres.
    + unfold app, run_route. rewrite Hroute, (requireAuth_rejects env req _ w Hbad).
      discriminate.
  - unfold app. rewrite Hroute. discriminate.
Qed.

(** ** Submissions to src/unnamed/part_000 *)






(** ** A notification that cannot be written *)

Lemma notify_not_written (env : Env) (lead : json) (files : list json) (w : World)
    (k : string) :
  notifying env = true -> nodemailer env = true ->
  In k ["company"; "contactName"; "email"; "phone"; "amount"; "message"] ->
  (forall s, rbind (Js.get (Some lead) k) Js.String <> Ok s) ->
  notify env lead files w = (Ok tt, logged ["Email notify failed"] w).
Proof.
  intros Hon Hmod Hk Hthrows. unfold notify. fold (notifying env). rewrite Hon, Hmod.
  unfold try_catch, bind, lift.
  match goal with
  | |- context [match ?r with Ok a => match _ with Ok _ => _ | Throw _ => _ end
                          | Throw e => _ end] =>
      destruct r as [subject|e]
  end; [|reflexivity].
  destruct (rbind (Js.get (Some lead) "company") Js.String) as [company|] eqn:E1;
    cbn [rbind]; [|reflexivity].
  destruct (rbind (Js.get (Some lead) "contactName") Js.String) as [contact|] eqn:E2;
    cbn [rbind]; [|reflexivity].
  destruct (rbind (Js.get (Some lead) "email") Js.String) as [email|] eqn:E3;
    cbn [rbind]; [|reflexivity].
  destruct (rbind (Js.get (Some lead) "phone") Js.String) as [phone|] eqn:E4;
    cbn [rbind]; [|reflexivity].
  destruct (rbind (Js.get (Some lead) "amount") Js.String) as [amount|] eqn:E5;
    cbn [rbind]; [|reflexivity].
  destruct (rbind (Js.get (Some lead) "message") Js.String) as [message|] eqn:E6;
    cbn [rbind]; [|reflexivity].
  exfalso. cbn in Hk.
  destruct Hk as [<-|[<-|[<-|[<-|[<-|[<-|[]]]]]]]; eapply Hthrows; eassumption.
Qed.

(** A form field that is no text stops the notification, not the
    submission: when a field the mail quotes is an object with a
    member [toString], writing the mail throws inside the asynchronous
    function, whose catch logs [Email notify failed]; [sendMail] is not
    called, and the answer is [{ok:true, id}] all the same. *)
Theorem object_field_stops_notification `{Locale} (env : Env) (req : Request)
    (w : World) (k : string) (o : list (string * json)) :
  req_route req = Submit ->
  (List.length (req_parts req) <= Server.files)%nat ->
  Forall (fun p => part_size p <= Server.fileSize) (req_parts req) ->
  notifying env = true ->
  nodemailer env = true ->
  In k ["company"; "email"; "phone"; "amount"; "message"] ->
  field (body_of req) k = Some (JObj o) ->
  Js.lookup "toString" o <> None ->
  exists id w',
    app env req w = (accepted id, w')
    /\ outbox w' = outbox w
    /\ In "Email notify failed" (console w').
Proof.
  intros Hroute Hn Hsizes Hon Hmod Hk Hfield Hts.
  destruct (server_app_trace env req w Hroute Hn Hsizes) as (_ & _ & _ & E).
  cbv zeta in E.
  rewrite (notify_not_written env _ _ _ k Hon Hmod) in E.
  - eexists _, _. split; [exact E|].
    match type of E with
    | _ = (_, snd (_, logged _ (snd (Server.saveLead ?lead ?w0)))) =>
        destruct (server_saveLead_trace lead w0) as (w1 & E1 & _ & _ & _ & _ & _ & Ho)
    end.
    rewrite E1. cbn [snd logged outbox console]. split; [exact Ho|].
    apply in_or_app. right. now left.
  - cbn in Hk |- *. tauto.
  - assert (Hcell : forall v s,
               v = Some (JObj o) -> Js.String (Some (or_empty v)) <> Ok s).
    { intros v s ->. unfold or_empty, Js.or. cbn.
      destruct (Js.lookup "toString" o); [discriminate | contradiction]. }
    intros s. unfold lead_of_body.
    cbn in Hk. destruct Hk as [<-|[<-|[<-|[<-|[<-|[]]]]]];
      cbn [Js.get Js.lookup String.eqb Ascii.eqb Bool.eqb rbind]; now apply Hcell.
Qed.

Lemma object_field_stops_notification_witness :
  let env := mkEnv None None (Some "desk@avalonic.example") (Some "smtp.example") None true
               "/srv" in
  let req := mkRequest Submit None
               (Some (JObj [("message", JObj [("toString", JStr "x")])])) [] in
  let w := mkWorld Absent true (fun _ => 1700000000000) 0 [] [] in
  exists id w',
    @app example_locale env req w = (accepted id, w')
    /\ outbox w' = outbox w
    /\ In "Email notify failed" (console w').
Proof.
  intros env req w.
  apply (@object_field_stops_notification example_locale env req w "message"
           [("toString", JStr "x")]).
  - reflexivity.
  - vm_compute. lia.
  - constructor.
  - reflexivity.
  - reflexivity.
  - cbn. tauto.
  - reflexivity.
  - discriminate.
Defined.

(** ** Where the two variants agree *)







